(** * mpdsub: a Subsonic bridge over an MPD database

    A shallow embedding of package [mpdsub]: the index builder, the
    subtree filter and the tagger ([indexFiles], [filterFiles], [tagFiles]),
    the handlers of handlers.go, the request checks of server.go and the
    envelope of xml.go, together with the parts of the Go standard library
    the package calls.

    Conventions.
    - A Go [string] is a byte sequence: [String.string], whose characters
      are 8-bit [ascii] values.
    - A Go [int] that can be negative (an id parsed from a request, a slice
      index) is a [Z]; lengths and counts, which Go also types [int] but
      which are never negative, are [nat].  The running id counter of the
      index builder is incremented once per entry, so it cannot reach 2^63
      before memory is exhausted, and no wrap-around is written for it.
    - [os.PathSeparator] is ['/'] (the Unix build of the package).
    - A Go run-time panic and a loop that never exits are outcomes of
      their own, [Panic] and [Diverge].
    - Of an HTTP exchange the model keeps the method, path, query and
      headers of the request, and of the response what the package
      decides: the envelope, a bare transport status, or the call of
      [http.ServeContent] with its arguments, the request among them.
      What that library function sends is not modelled.  Response headers
      and log lines are left out.
    - Library functions are embedded as the library documents them:
      [filepath.Clean], [Dir], [Base], [Ext] and [Join] lexically,
      [strconv.Atoi] with its sign and range rules, [hex.DecodeString]
      returning the bytes decoded before an error. *)

From stdpp Require Import gmap strings list fin_maps.
From Stdlib Require Import ZArith DecimalString DecimalPos Ascii String.

Set Warnings "-clear-no-such-hyp".

Local Open Scope string_scope.
Local Open Scope list_scope.
Local Open Scope Z_scope.

(** ** Outcomes of Go code that may panic or loop *)

Inductive outcome (A : Type) : Type :=
| Ret (a : A)
| Panic
| Diverge.
Arguments Ret {A} a.
Arguments Panic {A}.
Arguments Diverge {A}.

#[global] Instance outcome_ret : MRet outcome := fun _ a => Ret a.

#[global] Instance outcome_bind : MBind outcome := fun _ _ k m =>
  match m with
  | Ret a => k a
  | Panic => Panic
  | Diverge => Diverge
  end.

(** A Go [(T, error)] result; errors carry their message. *)
Definition error : Type := string.

(** ** Package os *)

Definition PathSeparator : ascii := "/"%char.

Definition IsPathSeparator (c : ascii) : bool := Ascii.eqb c PathSeparator.

(** ** Package strings *)

Module Strings.

(** [strings.HasPrefix(s, prefix)]. *)
Definition HasPrefix (s prefix : string) : bool := String.prefix prefix s.

Fixpoint drop (n : nat) (s : string) : string :=
  match n, s with
  | O, _ => s
  | S n', String _ s' => drop n' s'
  | S _, EmptyString => EmptyString
  end.

(** [strings.TrimPrefix(s, prefix)]. *)
Definition TrimPrefix (s prefix : string) : string :=
  if HasPrefix s prefix then drop (String.length prefix) s else s.

(** [strings.Count(s, string(c))] for a one-byte separator [c]. *)
Fixpoint Count (s : string) (c : ascii) : nat :=
  match s with
  | EmptyString => O
  | String a s' => if Ascii.eqb a c then S (Count s' c) else Count s' c
  end.

(** [strings.Contains(s, string(c))] for a one-byte separator [c]. *)
Fixpoint Contains (s : string) (c : ascii) : bool :=
  match s with
  | EmptyString => false
  | String a s' => if Ascii.eqb a c then true else Contains s' c
  end.

(** [strings.Split(s, "/")]: the elements between separators; never empty. *)
Fixpoint Split (s : string) : list string :=
  match s with
  | EmptyString => [EmptyString]
  | String a s' =>
      if IsPathSeparator a then EmptyString :: Split s'
      else match Split s' with
           | e :: es => String a e :: es
           | [] => [String a EmptyString]
           end
  end.

(** [strings.Join(elems, "/")]. *)
Fixpoint Join (elems : list string) : string :=
  match elems with
  | [] => EmptyString
  | [e] => e
  | e :: es => e +:+ String PathSeparator (Join es)
  end.

End Strings.

(** ** Package path/filepath (Unix) *)

Module Filepath.

(** One step of [Clean]'s scan.  [st] holds the elements written so far,
    last one first.  An empty element and [.] are dropped; [..] removes
    the element before it when there is one that is not itself a leading
    [..]; otherwise it is kept on a relative path and dropped on a rooted
    one; any other element is written. *)
Definition cleanStep (rooted : bool) (st : list string) (e : string) : list string :=
  if String.eqb e "" then st
  else if String.eqb e "." then st
  else if String.eqb e ".." then
    match st with
    | top :: st' =>
        if String.eqb top ".." then (if rooted then st else e :: st) else st'
    | [] => if rooted then [] else [e]
    end
  else e :: st.

Definition isRooted (path : string) : bool :=
  match path with
  | String a _ => IsPathSeparator a
  | EmptyString => false
  end.

(** [filepath.Clean(path)]: the shortest path name equivalent to [path]
    by lexical processing.  The result ends in a slash only when it is
    the root, and the empty result is turned into ["."]. *)
Definition Clean (path : string) : string :=
  let rooted := isRooted path in
  let st := fold_left (cleanStep rooted) (Strings.Split path) [] in
  let body := Strings.Join (rev st) in
  if rooted then String PathSeparator body
  else if String.eqb body "" then "." else body.

(** [path[:i+1]] for [i] the index of the last separator of [path], and
    the empty string when [path] has no separator. *)
Fixpoint upToLastSeparator (path : string) : string :=
  match path with
  | EmptyString => EmptyString
  | String a s' =>
      let r := upToLastSeparator s' in
      if IsPathSeparator a then String a r
      else if String.eqb r "" then EmptyString else String a r
  end.

(** [filepath.Dir(path)]: all but the last element of [path], cleaned. *)
Definition Dir (path : string) : string := Clean (upToLastSeparator path).

(** [path[i+1:]] for [i] the index of the last separator, all of [path]
    when there is none. *)
Fixpoint afterLastSeparator (path : string) : string :=
  match path with
  | EmptyString => EmptyString
  | String a s' =>
      if Strings.Contains s' PathSeparator then afterLastSeparator s'
      else if IsPathSeparator a then s' else path
  end.

(** [path] without its trailing separators. *)
Fixpoint stripTrailingSeparators (path : string) : string :=
  match path with
  | EmptyString => EmptyString
  | String a s' =>
      let r := stripTrailingSeparators s' in
      if IsPathSeparator a && String.eqb r "" then EmptyString else String a r
  end.

(** [filepath.Base(path)]: the last element of [path]. *)
Definition Base (path : string) : string :=
  if String.eqb path "" then "."
  else
    let p := afterLastSeparator (stripTrailingSeparators path) in
    if String.eqb p "" then String PathSeparator EmptyString else p.

(** The suffix of [s] from its last dot on, [None] when [s] has no dot. *)
Fixpoint fromLastDot (s : string) : option string :=
  match s with
  | EmptyString => None
  | String a s' =>
      match fromLastDot s' with
      | Some r => Some r
      | None => if Ascii.eqb a "."%char then Some s else None
      end
  end.

(** [filepath.Ext(path)]: the suffix beginning at the final dot of the
    final element of [path]; empty when that element has no dot. *)
Definition Ext (path : string) : string :=
  match fromLastDot (afterLastSeparator path) with
  | Some r => r
  | None => EmptyString
  end.

(** [filepath.Join(a, b)]: empty elements are ignored, the rest joined
    with a separator and cleaned; the join of nothing is empty. *)
Definition Join (a b : string) : string :=
  match List.filter (fun e => negb (String.eqb e "")) [a; b] with
  | [] => EmptyString
  | es => Clean (Strings.Join es)
  end.

End Filepath.

(** ** Package strconv *)

Module Strconv.

Definition minInt : Z := - 2 ^ 63.
Definition maxInt : Z := 2 ^ 63 - 1.

Definition digitVal (c : ascii) : option Z :=
  let n := Z.of_nat (nat_of_ascii c) in
  if (48 <=? n) && (n <=? 57) then Some (n - 48) else None.

Fixpoint parseDigits (s : string) (acc : Z) : option Z :=
  match s with
  | EmptyString => Some acc
  | String c s' =>
      match digitVal c with
      | Some d => parseDigits s' (acc * 10 + d)
      | None => None
      end
  end.

(** [strconv.Atoi(s)] on a 64-bit platform: an optional sign, then one
    or more decimal digits and nothing else; the value must fit an
    [int].  [None] is the syntax or range error. *)
Definition Atoi (s : string) : option Z :=
  match s with
  | EmptyString => None
  | String c rest =>
      let '(neg, digits) :=
        if Ascii.eqb c "-"%char then (true, rest)
        else if Ascii.eqb c "+"%char then (false, rest)
        else (false, s) in
      if String.eqb digits "" then None
      else match parseDigits digits 0 with
           | None => None
           | Some n =>
               let v := if neg then - n else n in
               if (minInt <=? v) && (v <=? maxInt) then Some v else None
           end
  end.

(** [strconv.Itoa(i)]. *)
Definition Itoa (i : Z) : string := NilZero.string_of_int (Z.to_int i).

End Strconv.

(** ** Package encoding/hex *)

Module Hex.

Definition fromHexChar (c : ascii) : option nat :=
  let n := nat_of_ascii c in
  if (48 <=? n)%nat && (n <=? 57)%nat then Some (n - 48)%nat
  else if (97 <=? n)%nat && (n <=? 102)%nat then Some (n - 97 + 10)%nat
  else if (65 <=? n)%nat && (n <=? 70)%nat then Some (n - 65 + 10)%nat
  else None.

(** [hex.DecodeString(s)]: the decoded bytes and whether the input was
    well formed.  As the library documents, on malformed input (a
    character that is not a hexadecimal digit, or an odd length) the
    bytes decoded before the error are returned with the error. *)
Fixpoint DecodeString (s : string) : string * bool :=
  match s with
  | EmptyString => (EmptyString, true)
  | String _ EmptyString => (EmptyString, false)
  | String p (String q rest) =>
      match fromHexChar p, fromHexChar q with
      | Some a, Some b =>
          let '(bs, ok) := DecodeString rest in
          (String (ascii_of_nat (16 * a + b)) bs, ok)
      | _, _ => (EmptyString, false)
      end
  end.

Definition hextable : list ascii := list_ascii_of_string "0123456789abcdef".

Definition hexDigit (n : nat) : ascii := nth n hextable "0"%char.

(** [hex.EncodeToString(src)]: two lower-case digits per byte. *)
Fixpoint EncodeToString (src : string) : string :=
  match src with
  | EmptyString => EmptyString
  | String c rest =>
      String (hexDigit (nat_of_ascii c / 16))
        (String (hexDigit (nat_of_ascii c mod 16)) (EncodeToString rest))
  end.

End Hex.

(** ** Package unicode/utf8 *)

Module Utf8.

Definition RuneError : Z := 65533.
Definition MaxRune : Z := 1114111.

Definition byte (c : ascii) : Z := Z.of_nat (nat_of_ascii c).
Definition char (b : Z) : ascii := ascii_of_nat (Z.to_nat b).

(** What the table [first] and [acceptRanges] say of a leading byte: it is
    an ASCII byte, an invalid leading byte, or leads a sequence of [size]
    bytes whose second byte must lie in [lo, hi]. *)
Inductive leading : Type :=
| ASCII
| Invalid
| Lead (size : nat) (lo hi : Z).

Definition first (b : Z) : leading :=
  if b <? 128 then ASCII
  else if b <? 194 then Invalid
  else if b <? 224 then Lead 2 128 191
  else if b =? 224 then Lead 3 160 191
  else if b <? 237 then Lead 3 128 191
  else if b =? 237 then Lead 3 128 159
  else if b <? 240 then Lead 3 128 191
  else if b =? 240 then Lead 4 144 191
  else if b <? 244 then Lead 4 128 191
  else if b =? 244 then Lead 4 128 143
  else Invalid.

Definition continuation (b : Z) : bool := (128 <=? b) && (b <=? 191).

(** [utf8.DecodeRuneInString(s)]: the first rune of [s] and its width in
    bytes; [(RuneError, 0)] on the empty string and [(RuneError, 1)] on an
    encoding that is not valid. *)
Definition DecodeRuneInString (s : string) : Z * nat :=
  match s with
  | EmptyString => (RuneError, O)
  | String c0 rest =>
      let s0 := byte c0 in
      match first s0 with
      | ASCII => (s0, 1%nat)
      | Invalid => (RuneError, 1%nat)
      | Lead size lo hi =>
          if (String.length s <? size)%nat then (RuneError, 1%nat)
          else
            match rest with
            | EmptyString => (RuneError, 1%nat)
            | String c1 rest1 =>
                let s1 := byte c1 in
                if (s1 <? lo) || (hi <? s1) then (RuneError, 1%nat)
                else if (size <=? 2)%nat then
                  (Z.lor (Z.shiftl (Z.land s0 31) 6) (Z.land s1 63), 2%nat)
                else
                  match rest1 with
                  | EmptyString => (RuneError, 1%nat)
                  | String c2 rest2 =>
                      let s2 := byte c2 in
                      if negb (continuation s2) then (RuneError, 1%nat)
                      else if (size <=? 3)%nat then
                        (Z.lor (Z.lor (Z.shiftl (Z.land s0 15) 12)
                                      (Z.shiftl (Z.land s1 63) 6))
                               (Z.land s2 63), 3%nat)
                      else
                        match rest2 with
                        | EmptyString => (RuneError, 1%nat)
                        | String c3 _ =>
                            let s3 := byte c3 in
                            if negb (continuation s3) then (RuneError, 1%nat)
                            else
                              (Z.lor (Z.lor (Z.lor (Z.shiftl (Z.land s0 7) 18)
                                                   (Z.shiftl (Z.land s1 63) 12))
                                            (Z.shiftl (Z.land s2 63) 6))
                                     (Z.land s3 63), 4%nat)
                        end
                  end
            end
      end
  end.

Definition encode3 (r : Z) : string :=
  String (char (Z.lor 224 (Z.shiftr r 12)))
    (String (char (Z.lor 128 (Z.land (Z.shiftr r 6) 63)))
       (String (char (Z.lor 128 (Z.land r 63))) EmptyString)).

(** [string(r)] for a rune [r]: its UTF-8 encoding, that of [RuneError]
    when [r] is not a valid code point. *)
Definition EncodeRune (r : Z) : string :=
  if (0 <=? r) && (r <=? 127) then String (char r) EmptyString
  else if (0 <=? r) && (r <=? 2047) then
    String (char (Z.lor 192 (Z.shiftr r 6)))
      (String (char (Z.lor 128 (Z.land r 63))) EmptyString)
  else if (r <? 0) || (MaxRune <? r) || ((55296 <=? r) && (r <=? 57343))
  then encode3 RuneError
  else if r <=? 65535 then encode3 r
  else
    String (char (Z.lor 240 (Z.shiftr r 18)))
      (String (char (Z.lor 128 (Z.land (Z.shiftr r 12) 63)))
         (String (char (Z.lor 128 (Z.land (Z.shiftr r 6) 63)))
            (String (char (Z.lor 128 (Z.land r 63))) EmptyString))).

End Utf8.

(** ** Package unicode *)

Module Unicode.

Definition MaxLatin1 : Z := 255.

(** [unicode.IsDigit(r)]: up to [MaxLatin1] the decimal digits are
    ['0'] to ['9']; beyond, the answer is read in the range table
    [unicode.Digit], here [digitTable]. *)
Definition IsDigit (digitTable : Z -> bool) (r : Z) : bool :=
  if r <=? MaxLatin1 then (48 <=? r) && (r <=? 57) else digitTable r.

End Unicode.

(** ** The virtual index *)

(** An [indexedFile] is a file with an associated ID, name, and a boolean
    to indicate if it is a directory or not. *)
Record indexedFile : Type := mkIndexedFile {
  ID : Z;
  Name : string;
  Dir : bool
}.

(** A [metadataFile] is an [indexedFile] with metadata attached. *)
Record metadataFile : Type := mkMetadataFile {
  embedded : indexedFile;
  Artist : string;
  Album : string;
  Title : string
}.

#[global] Instance indexedFile_eq_dec : EqDecision indexedFile.
Proof. solve_decision. Defined.

#[global] Instance metadataFile_eq_dec : EqDecision metadataFile.
Proof. solve_decision. Defined.

(** A [stack] is a stack data structure for strings.  The top of the stack
    is the head of the list (the Go slice keeps it at the end). *)
Definition stack : Type := list string.

(** [Push] pushes an element on top of the stack. *)
Definition Push (s : stack) (str : string) : stack := str :: s.

(** [Pop] pops the top element off of the stack.  If no elements remain,
    the empty string is returned. *)
Definition Pop (s : stack) : string * stack :=
  match s with
  | [] => (EmptyString, [])
  | str :: s' => (str, s')
  end.

(** The first inner loop of [indexFiles]:
    [for d := filepath.Dir(f); d != "."; d = filepath.Dir(d)], which skips
    a directory already seen and pushes a new one.  [None] when [fuel]
    iterations did not reach ["."]. *)
Fixpoint collectDirs (fuel : nat) (d : string) (seen : gset string) (dirs : stack)
  : option (gset string * stack) :=
  if String.eqb d "." then Some (seen, dirs)
  else match fuel with
       | O => None
       | S fuel' =>
           if bool_decide (d ∈ seen) then collectDirs fuel' (Filepath.Dir d) seen dirs
           else collectDirs fuel' (Filepath.Dir d) ({[d]} ∪ seen) (Push dirs d)
       end.

(** The second inner loop: [for d := dirs.Pop(); d != ""; d = dirs.Pop()],
    which gives each popped directory the next index. *)
Fixpoint drainDirs (dirs : stack) (idx : Z) (out : list indexedFile)
  : Z * list indexedFile :=
  match dirs with
  | [] => (idx, out)
  | d :: dirs' =>
      if String.eqb d "" then (idx, out)
      else drainDirs dirs' (idx + 1)
             (out ++ [{| ID := idx; Name := d; Dir := true |}])
  end.

(** The outer loop of [indexFiles] over the file list.  The walk up the
    ancestors of [f] is given [String.length f] iterations, which is
    enough whenever the walk ends at all ([collectDirs_enough_fuel],
    [collectDirs_rooted]); running out of them is the loop that never
    exits. *)
Fixpoint indexLoop (files : list string) (seen : gset string) (idx : Z)
  (out : list indexedFile) : outcome (list indexedFile) :=
  match files with
  | [] => Ret out
  | f :: rest =>
      match collectDirs (String.length f) (Filepath.Dir f) seen [] with
      | None => Diverge
      | Some (seen', dirs) =>
          let '(idx', out') := drainDirs dirs idx out in
          indexLoop rest seen' (idx' + 1)
            (out' ++ [{| ID := idx'; Name := f; Dir := false |}])
      end
  end.

(** [indexFiles] builds a slice of indexedFiles from a file list returned
    by MPD.  Each file and unique directory is given an ID and a boolean
    value to indicate if it is a file or directory. *)
Definition indexFiles (files : list string) : outcome (list indexedFile) :=
  indexLoop files ∅ 0 [].

(** ** The subtree filter *)

(** The scan of [filterFiles]: the offset of the first entry of [l] whose
    name does not have [prefix] as a prefix, where the loop breaks; [None]
    when the loop runs off the end of the list. *)
Fixpoint firstWithoutPrefix (prefix : string) (l : list indexedFile) : option nat :=
  match l with
  | [] => None
  | f :: l' =>
      if Strings.HasPrefix (Name f) prefix
      then S <$> firstWithoutPrefix prefix l'
      else Some O
  end.

(** [filterFiles] filters an input slice of indexedFiles and produces a
    filtered output slice containing all of the items which belong in a
    given directory, specified using its index in [start].  Slicing or
    indexing out of range panics. *)
Definition filterFiles (files : list indexedFile) (start : Z)
  : outcome (list indexedFile) :=
  if Z.of_nat (List.length files) <=? start then Ret []
  else if start <? 0 then Panic
  else
    let tail := drop (Z.to_nat start) files in
    let out :=
      match tail with
      | [] => tail
      | first :: _ =>
          match firstWithoutPrefix (Name first) tail with
          | Some i => take i tail
          | None => tail
          end
      end in
    match out with
    | [] => Panic
    | out0 :: _ =>
        let sepCount := Strings.Count (Name out0) PathSeparator in
        let filter :=
          List.filter
            (fun f => negb (sepCount + 1 <? Strings.Count (Name f) PathSeparator)%nat)
            out in
        match filter with
        | [] => Panic
        | _ :: rest => Ret rest
        end
    end.

(** ** The metadata tagger *)

(** A [database] is a type which can return data in the same format as MPD
    database queries: [List("file")] and [ReadComments(uri)], whose result
    is an [mpd.Attrs] map. *)
Record database : Type := mkDatabase {
  List : list string + error;
  ReadComments : string -> gmap string string + error
}.

(** Indexing an [mpd.Attrs] map: the zero value when the key is absent. *)
Definition attr (attrs : gmap string string) (key : string) : string :=
  default EmptyString (attrs !! key).

(** The first loop of [tagFiles]: the output so far and the cache of the
    metadata last recorded for each parent directory. *)
Fixpoint tagLoop (db : database) (files : list indexedFile)
  (cache : gmap string metadataFile) (out : list metadataFile)
  : (list metadataFile * gmap string metadataFile) + error :=
  match files with
  | [] => inl (out, cache)
  | f :: rest =>
      if Dir f then
        tagLoop db rest cache
          (out ++ [{| embedded := f; Artist := ""; Album := "";
                      Title := Filepath.Base (Name f) |}])
      else
        match ReadComments db (Name f) with
        | inr err => inr err
        | inl attrs =>
            let newf := {| embedded := f;
                           Artist := attr attrs "ARTIST";
                           Album := attr attrs "ALBUM";
                           Title := attr attrs "TITLE" |} in
            tagLoop db rest (<[Filepath.Dir (Name f) := newf]> cache) (out ++ [newf])
        end
  end.

(** The body of the second loop of [tagFiles], on one element of [out]. *)
Definition inheritTags (cache : gmap string metadataFile) (f : metadataFile)
  : metadataFile :=
  if negb (Strings.Contains (Name (embedded f)) PathSeparator) then f
  else if negb (Dir (embedded f)) then f
  else match cache !! Name (embedded f) with
       | Some ff => {| embedded := embedded f; Artist := Artist ff;
                       Album := Album ff; Title := Album ff |}
       | None => f
       end.

(** [tagFiles] attaches metadata to an input slice of indexedFiles and
    returns a slice of metadataFiles.  Tag information is looked up using
    the input database. *)
Definition tagFiles (db : database) (files : list indexedFile)
  : list metadataFile + error :=
  match tagLoop db files ∅ [] with
  | inr err => inr err
  | inl (out, cache) => inl (inheritTags cache <$> out)
  end.

(** ** The response envelope (xml.go) *)

Definition xmlNS : string := "http://subsonic.org/restapi".
Definition apiVersion : string := "1.14.0".

Definition statusOK : string := "ok".
Definition statusFailed : string := "failed".

Definition codeGeneric : Z := 0.
Definition codeMissingParameter : Z := 10.
Definition codeUnauthorized : Z := 40.

Record subsonicError : Type := mkSubsonicError {
  Code : Z;
  Message : string
}.

Record license : Type := mkLicense { Valid : bool }.

Record musicFolder : Type := mkMusicFolder {
  musicFolder_ID : Z;
  musicFolder_Name : string
}.

Record artist : Type := mkArtist {
  artist_Name : string;
  artist_ID : string
}.

Record index : Type := mkIndex {
  index_Name : string;
  Artists : list artist
}.

Record indexesContainer : Type := mkIndexesContainer {
  LastModified : Z;
  Indexes_ : list index
}.

(** A [child] is any item displayed when browsing using
    getMusicDirectory; the fields are those the handler fills in. *)
Record child : Type := mkChild {
  child_ID : string;
  child_Album : string;
  child_Artist : string;
  child_IsDir : bool;
  child_Suffix : string;
  child_Title : string
}.

Record musicDirectoryContainer : Type := mkMusicDirectoryContainer {
  directory_ID : string;
  directory_Name : string;
  Children : list child
}.

(** A [container] is the top-level emulated Subsonic response. *)
Record container : Type := mkContainer {
  XMLNS : string;
  Status : string;
  Version : string;
  Error : option subsonicError;
  Indexes : option indexesContainer;
  License : option license;
  MusicDirectory : option musicDirectoryContainer;
  MusicFolders : option (list musicFolder)
}.

Definition withError (c : container) (e : subsonicError) : container :=
  {| XMLNS := XMLNS c; Status := statusFailed; Version := Version c;
     Error := Some e; Indexes := Indexes c; License := License c;
     MusicDirectory := MusicDirectory c; MusicFolders := MusicFolders c |}.

(** [errUnauthorized] indicates an incorrect username or password. *)
Definition errUnauthorized (c : container) : container :=
  withError c {| Code := 40; Message := "Wrong username or password." |}.

(** [errMissingParameter] indicates a missing required parameter. *)
Definition errMissingParameter (c : container) : container :=
  withError c {| Code := 10; Message := "Required parameter is missing." |}.

(** [errGeneric] indicates a generic error. *)
Definition errGeneric (c : container) : container :=
  withError c {| Code := 0; Message := "An error occurred." |}.

(** An HTTP request: the method, the path the multiplexer routes on, the
    parsed query, a [url.Values] map, and the headers, an [http.Header]
    map.  The package reads the first three; the headers go with the
    request to [http.ServeContent]. *)
Record request : Type := mkRequest {
  Method : string;
  Path : string;
  Query : gmap string (list string);
  Header : gmap string (list string)
}.

(** [url.Values.Get(key)]: the first value associated with the key, the
    empty string when there are none. *)
Definition Get (v : gmap string (list string)) (key : string) : string :=
  match v !! key with
  | Some (x :: _) => x
  | _ => EmptyString
  end.

(** What a handler sends back. *)
Inductive response : Type :=
| XML (c : container)
    (** [writeXML]: transport status 200 and the envelope. *)
| HTTPError (code : Z) (body : string)
    (** [http.Error], [http.NotFound]: a bare transport status. *)
| ServeContent (r : request) (name : string) (modtime : Z) (content : string)
    (** The call [http.ServeContent(w, r, name, modtime, f)] on the opened
        file, with the request it is given.  What that library function
        then sends (the whole content, a range of it or none, and under
        which content type) it decides from the headers of [r], from
        [name] and from the content; that is not the package's and is
        not modelled. *).

(** [writeXML] writes an XML body after modifying it using the input
    function, when there is one. *)
Definition writeXML (fn : option (container -> container)) : response :=
  let c := {| XMLNS := xmlNS; Status := statusOK; Version := apiVersion;
              Error := None; Indexes := None; License := None;
              MusicDirectory := None; MusicFolders := None |} in
  XML (match fn with Some f => f c | None => c end).

Definition NotFound : response := HTTPError 404 "404 page not found".

(** ** The server (server.go, mpdsub.go) *)

(** A [file] is what a [filesystem] opens: its bytes, and the result of
    [Stat], of which the handler reads the modification time. *)
Record file : Type := mkFile {
  fileContent : string;
  Stat : Z + error
}.

(** A [filesystem] is a type which can open a file. *)
Record filesystem : Type := mkFilesystem {
  Open : string -> file + error
}.

(** [Config] specifies configuration for a [Server]. *)
Record Config : Type := mkConfig {
  SubsonicUser : string;
  SubsonicPassword : string;
  MusicDirectory_ : string;
  Verbose : bool;
  Keepalive : Z
}.

Record Server : Type := mkServer {
  db : database;
  fs : filesystem;
  cfg : Config
}.

Definition handler : Type := request -> outcome response.

(** *** Handlers (handlers.go) *)

(** [getLicense] returns a license that is always valid. *)
Definition getLicense (s : Server) : handler := fun r =>
  Ret (writeXML (Some (fun c =>
    {| XMLNS := XMLNS c; Status := Status c; Version := Version c;
       Error := Error c; Indexes := Indexes c;
       License := Some {| Valid := true |};
       MusicDirectory := MusicDirectory c; MusicFolders := MusicFolders c |}))).

(** The element rendered for one tagged entry of the directory. *)
Definition toChild (f : metadataFile) : child :=
  let ext := Strings.TrimPrefix (Filepath.Ext (Name (embedded f))) "." in
  {| child_ID := Strconv.Itoa (ID (embedded f));
     child_Album := Album f;
     child_Artist := Artist f;
     child_IsDir := Dir (embedded f);
     child_Suffix := ext;
     child_Title := Title f |}.

(** The initial rune of [name] and the name of its index in [getIndexes]:
    a decimal digit is put under the numeric section ['#']. *)
Definition bucket (digitTable : Z -> bool) (name : string) : Z * string :=
  let c := fst (Utf8.DecodeRuneInString name) in
  if Unicode.IsDigit digitTable c then (35, "#") else (c, Utf8.EncodeRune c).

(** The artist rendered for an entry of the index. *)
Definition toArtist (f : indexedFile) : artist :=
  {| artist_Name := Name f; artist_ID := Strconv.Itoa (ID f) |}.

(** [indexes[idx].Artists = append(indexes[idx].Artists, a)]; an [idx]
    out of range panics. *)
Definition appendArtist (indexes : list index) (idx : Z) (a : artist)
  : outcome (list index) :=
  if idx <? 0 then Panic
  else match indexes !! Z.to_nat idx with
       | None => Panic
       | Some ix =>
           Ret (<[Z.to_nat idx := {| index_Name := index_Name ix;
                                     Artists := Artists ix ++ [a] |}]> indexes)
       end.

(** The loop of [getIndexes] over the entries of the index: [idx] is
    incremented whenever a new index is created for a new initial rune,
    and the entry is appended to [indexes[idx]]. *)
Fixpoint indexesLoop (digitTable : Z -> bool) (files : list indexedFile) (idx : Z)
  (indexes : list index) (seenChars : gset Z) : outcome (list index) :=
  match files with
  | [] => Ret indexes
  | f :: rest =>
      if Strings.Contains (Name f) PathSeparator
      then indexesLoop digitTable rest idx indexes seenChars
      else
        let '(c, name) := bucket digitTable (Name f) in
        let '(seenChars', indexes', idx') :=
          if bool_decide (c ∈ seenChars) then (seenChars, indexes, idx)
          else ({[c]} ∪ seenChars,
                indexes ++ [{| index_Name := name; Artists := [] |}],
                idx + 1) in
        indexes'' ← appendArtist indexes' idx' (toArtist f);
        indexesLoop digitTable rest idx' indexes'' seenChars'
  end.

(** [getIndexes] returns a set of top-level indexes that indicate the
    top-level items and directories.  [now] is [time.Now().Unix()] and
    [digitTable] the range table of [unicode.IsDigit]. *)
Definition getIndexes (now : Z) (digitTable : Z -> bool) (s : Server) : handler :=
  fun r =>
  match List (db s) with
  | inr _ => Ret (writeXML (Some errGeneric))
  | inl paths =>
      files ← indexFiles paths;
      indexes ← indexesLoop digitTable files (-1) [] ∅;
      Ret (writeXML (Some (fun c =>
        {| XMLNS := XMLNS c; Status := Status c; Version := Version c;
           Error := Error c;
           Indexes := Some {| LastModified := now; Indexes_ := indexes |};
           License := License c;
           MusicDirectory := MusicDirectory c; MusicFolders := MusicFolders c |})))
  end.

(** [getMusicDirectory] returns the contents of a single music directory. *)
Definition getMusicDirectory (s : Server) : handler := fun r =>
  let qID := Get (Query r) "id" in
  if String.eqb qID "" then Ret (writeXML (Some errMissingParameter))
  else
    match Strconv.Atoi qID with
    | None => Ret (writeXML (Some errGeneric))
    | Some id =>
        match List (db s) with
        | inr _ => Ret (writeXML (Some errGeneric))
        | inl paths =>
            indexed ← indexFiles paths;
            filtered ← filterFiles indexed id;
            match tagFiles (db s) filtered with
            | inr _ => Ret (writeXML (Some errGeneric))
            | inl files =>
                match files with
                | [] => Ret NotFound
                | files0 :: _ =>
                    Ret (writeXML (Some (fun c =>
                      {| XMLNS := XMLNS c; Status := Status c; Version := Version c;
                         Error := Error c; Indexes := Indexes c; License := License c;
                         MusicDirectory :=
                           Some {| directory_ID := Strconv.Itoa id;
                                   directory_Name := Name (embedded files0);
                                   Children := toChild <$> files |};
                         MusicFolders := MusicFolders c |})))
                end
            end
        end
    end.

(** [getMusicFolders] returns the location of MPD's music directory. *)
Definition getMusicFolders (s : Server) : handler := fun r =>
  Ret (writeXML (Some (fun c =>
    {| XMLNS := XMLNS c; Status := Status c; Version := Version c;
       Error := Error c; Indexes := Indexes c; License := License c;
       MusicDirectory := MusicDirectory c;
       MusicFolders :=
         Some [{| musicFolder_ID := 0;
                  musicFolder_Name := Filepath.Base (MusicDirectory_ (cfg s)) |}] |}))).

(** [ping] returns an empty response to indicate the server is working. *)
Definition ping (s : Server) : handler := fun r => Ret (writeXML None).

(** [files[id]] on a Go slice: out of range, below or above, panics. *)
Definition index_at {A : Type} (l : list A) (i : Z) : outcome A :=
  if i <? 0 then Panic
  else match l !! Z.to_nat i with
       | Some a => Ret a
       | None => Panic
       end.

(** [stream] opens a file for streaming, and serves it to a client. *)
Definition stream (s : Server) : handler := fun r =>
  let qID := Get (Query r) "id" in
  if String.eqb qID "" then Ret (writeXML (Some errMissingParameter))
  else
    match Strconv.Atoi qID with
    | None => Ret (writeXML (Some errGeneric))
    | Some id =>
        match List (db s) with
        | inr _ => Ret (writeXML (Some errGeneric))
        | inl paths =>
            files ← indexFiles paths;
            if Z.of_nat (List.length files) <=? id then Ret NotFound
            else
              entry ← index_at files id;
              let p := Filepath.Join (MusicDirectory_ (cfg s)) (Name entry) in
              match Open (fs s) p with
              | inr _ => Ret (writeXML (Some errGeneric))
              | inl f =>
                  match Stat f with
                  | inr _ => Ret (writeXML (Some errGeneric))
                  | inl modtime => Ret (ServeContent r p modtime (fileContent f))
                  end
              end
        end
    end.

(** *** Authentication and routing (server.go) *)

(** A [context] is the context for a request, parsed from the HTTP
    request. *)
Record context : Type := mkContext {
  User : string;
  Password : string;
  Client : string;
  Version_ : string
}.

(** [decodePassword] decodes a password, if necessary, from its encoded
    hex format.  If the password is not encoded, the input string is
    returned.  The error of [hex.DecodeString] is dropped and the bytes it
    returned are the password. *)
Definition decodePassword (p : string) : string :=
  let prefix := "enc:" in
  if negb (Strings.HasPrefix p prefix) then p
  else fst (Hex.DecodeString (Strings.TrimPrefix p prefix)).

(** [parseContext] parses parameters from a HTTP request into a context.
    If any mandatory parameters are missing, it returns [None]. *)
Definition parseContext (r : request) : option context :=
  let q := Query r in
  let user := Get q "u" in
  if String.eqb user "" then None
  else
    let pass := decodePassword (Get q "p") in
    if String.eqb pass "" then None
    else
      let client := Get q "c" in
      if String.eqb client "" then None
      else
        let version := Get q "v" in
        if String.eqb version "" then None
        else Some {| User := user; Password := pass;
                     Client := client; Version_ := version |}.

(** The routes [newServer] registers on the multiplexer; a path that
    matches none of them is not found.  The handler [getIndexes]
    (handlers.go) reads the clock and the table of the Unicode digits:
    the multiplexer takes it as an argument, to be given those. *)
Definition mux (getIndexes : Server -> handler) (s : Server) : handler := fun r =>
  if String.eqb (Path r) "/rest/getLicense.view" then getLicense s r
  else if String.eqb (Path r) "/rest/getIndexes.view" then getIndexes s r
  else if String.eqb (Path r) "/rest/getMusicDirectory.view" then getMusicDirectory s r
  else if String.eqb (Path r) "/rest/getMusicFolders.view" then getMusicFolders s r
  else if String.eqb (Path r) "/rest/ping.view" then ping s r
  else if String.eqb (Path r) "/rest/stream.view" then stream s r
  else Ret NotFound.

Definition MethodGet : string := "GET".
Definition MethodPost : string := "POST".
Definition StatusMethodNotAllowed : Z := 405.

(** [ServeHTTP] implements [http.Handler]: the method check, the
    parameters every request must carry, the credentials, and then the
    multiplexer. *)
Definition ServeHTTP (getIndexes : Server -> handler) (s : Server) : handler := fun r =>
  if negb (String.eqb (Method r) MethodGet) && negb (String.eqb (Method r) MethodPost)
  then Ret (HTTPError StatusMethodNotAllowed "method not allowed")
  else
    match parseContext r with
    | None => Ret (writeXML (Some errMissingParameter))
    | Some ctx =>
        if negb (String.eqb (User ctx) (SubsonicUser (cfg s)))
           || negb (String.eqb (Password ctx) (SubsonicPassword (cfg s)))
        then Ret (writeXML (Some errUnauthorized))
        else mux getIndexes s r
    end.

(** *** The in-memory collaborators of the tests *)

(** A [memoryDatabase] is an in-memory implementation of [database]: it
    lists [files], and reads the comments of the URIs [attrs] has. *)
Definition memoryDatabase (files : list string)
  (attrs : gmap string (gmap string string)) : database :=
  {| List := inl files;
     ReadComments := fun uri =>
       match attrs !! uri with
       | Some a => inl a
       | None => inr ("no MPD attributes for URI: " +:+ uri)
       end |}.

(** A [memoryFilesystem] is an in-memory implementation of [filesystem];
    [Stat] on its files succeeds, with the modification time [now]. *)
Definition memoryFilesystem (now : Z) (files : gmap string string) : filesystem :=
  {| Open := fun name =>
       match files !! name with
       | Some content => inl {| fileContent := content; Stat := inl now |}
       | None => inr "file does not exist"
       end |}.

(** The database and the input of the test of [tagFiles] on nested
    directories, and the output the test expects. *)
Definition nestedDatabase : database :=
  memoryDatabase []
    {[ "foo/bar/bar.mp3" :=
         ({[ "ARTIST" := "Baz"; "ALBUM" := "Bar"; "TITLE" := "Foo" ]}
          : gmap string string) ]}.

Definition nestedFiles : list indexedFile :=
  [ {| ID := 0; Name := "foo"; Dir := true |};
    {| ID := 1; Name := "foo/bar"; Dir := true |};
    {| ID := 2; Name := "foo/bar/bar.mp3"; Dir := false |} ].

Definition nestedTagged : list metadataFile :=
  [ {| embedded := {| ID := 0; Name := "foo"; Dir := true |};
       Artist := ""; Album := ""; Title := "foo" |};
    {| embedded := {| ID := 1; Name := "foo/bar"; Dir := true |};
       Artist := "Baz"; Album := "Bar"; Title := "Bar" |};
    {| embedded := {| ID := 2; Name := "foo/bar/bar.mp3"; Dir := false |};
       Artist := "Baz"; Album := "Bar"; Title := "Foo" |} ].

(** [configAuth] returns a [Config] and [url.Values] that can be used to
    authenticate successfully in tests. *)
Definition configAuth : Config * gmap string (list string) :=
  let u := "test" in
  let p := "test" in
  let c := "test" in
  let v := "1.14.0" in
  ({| SubsonicUser := u; SubsonicPassword := u; MusicDirectory_ := "";
      Verbose := false; Keepalive := 0 |},
   {[ "u" := [u]; "p" := [p]; "c" := [c]; "v" := [v] ]}).

(** [url.Values.Set(key, value)]. *)
Definition Set_ (v : gmap string (list string)) (key value : string)
  : gmap string (list string) :=
  <[key := [value]]> v.

(** The server of the tests: an in-memory database and file system under
    the configuration of [configAuth] with the given music directory. *)
Definition testServer (musicDirectory : string) (files : list string)
  (attrs : gmap string (gmap string string)) (contents : gmap string string)
  : Server :=
  {| db := memoryDatabase files attrs;
     fs := memoryFilesystem 0 contents;
     cfg := {| SubsonicUser := SubsonicUser (fst configAuth);
               SubsonicPassword := SubsonicPassword (fst configAuth);
               MusicDirectory_ := musicDirectory;
               Verbose := false; Keepalive := 0 |} |}.

(** A [GET] request of the tests to [target], authenticated as
    [configAuth] does, with the given id. *)
Definition testRequest (target id : string) : request :=
  {| Method := MethodGet; Path := target;
     Query := Set_ (snd configAuth) "id" id;
     Header := ∅ |}.

(** ** Vocabulary of the statements *)

(** What [Clean] keeps: elements that are not empty and hold no
    separator. *)
Definition element (e : string) : Prop :=
  e <> EmptyString /\ Strings.Contains e PathSeparator = false.

(** The number of non-empty strings of a list. *)
Definition nonEmpty (l : list string) : nat :=
  List.length (List.filter (fun e => negb (String.eqb e "")) l).

(** A path is relative when it does not begin with a separator; the
    paths MPD lists are relative to its music directory. *)
Definition relative (p : string) : Prop := Filepath.isRooted p = false.

(** [d] is an ancestor directory of the path [f]: it is reached from [f]
    by going up one or more times, and is not ["."], where going up
    ends. *)
Definition ancestor (d f : string) : Prop :=
  d <> "." /\ exists k : nat, (0 < k)%nat /\ Nat.iter k Filepath.Dir f = d.

(** [ch] lists the directories from [d] upwards: [d], its parent, and so
    on, up to the one whose parent is ["."]. *)
Fixpoint isChain (d : string) (ch : list string) : Prop :=
  match ch with
  | [] => d = "."
  | x :: ch' => d <> "." /\ x = d /\ isChain (Filepath.Dir d) ch'
  end.

(** The directories the first inner loop of [indexFiles] visits from [d],
    [None] when ["."] is not reached in [fuel] iterations. *)
Fixpoint walk (fuel : nat) (d : string) : option (list string) :=
  if String.eqb d "." then Some []
  else match fuel with
       | O => None
       | S fuel' => (d ::.) <$> walk fuel' (Filepath.Dir d)
       end.

(** The visited directories that are pushed, in the order of the pushes. *)
Fixpoint pushed (seen : gset string) (ch : list string) : list string :=
  match ch with
  | [] => []
  | d :: ch' =>
      if bool_decide (d ∈ seen) then pushed seen ch'
      else d :: pushed ({[d]} ∪ seen) ch'
  end.

(** Directory entries for the names [l], numbered from [idx]. *)
Fixpoint dirEntries (idx : Z) (l : list string) : list indexedFile :=
  match l with
  | [] => []
  | d :: l' => {| ID := idx; Name := d; Dir := true |} :: dirEntries (idx + 1) l'
  end.

(** The names of the directory entries of an index, in order. *)
Definition dirNames (out : list indexedFile) : list string :=
  Name <$> List.filter Dir out.

(** Every entry whose parent is not ["."] comes after a directory entry
    for that parent. *)
Definition parentsFirst (out : list indexedFile) : Prop :=
  forall (j : nat) (e : indexedFile),
    out !! j = Some e -> Filepath.Dir (Name e) <> "." ->
    exists (i : nat) (d : indexedFile),
      (i < j)%nat /\ out !! i = Some d /\ Dir d = true /\
      Name d = Filepath.Dir (Name e).

(** What the outer loop of [indexFiles] keeps true of the set [seen] and
    the output [out] when [n] paths are processed: ids are positions, the
    directory entries are the seen directories, each once, after their
    parents, and there is one entry per seen directory and per path. *)
Record coreInv (seen : gset string) (out : list indexedFile) (n : nat)
  : Prop := mkCoreInv {
  core_ids : forall (i : nat) (e : indexedFile), out !! i = Some e -> ID e = Z.of_nat i;
  core_seen : forall d : string, d ∈ seen <-> d ∈ dirNames out;
  core_nodup : NoDup (dirNames out);
  core_parents : parentsFirst out;
  core_length : List.length out = (size seen + n)%nat
}.

(** The invariant of the outer loop once the paths [done] are processed:
    moreover the seen directories are the ancestors of those paths. *)
Definition indexInv (seen : gset string) (out : list indexedFile)
  (done : list string) : Prop :=
  coreInv seen out (List.length done) /\
  forall d : string, d ∈ seen <-> exists f, f ∈ done /\ ancestor d f.

(** [dirs] is the set of the distinct ancestor directories of [paths]. *)
Definition ancestorsOf (paths : list string) (dirs : gset string) : Prop :=
  forall d : string, d ∈ dirs <-> exists f, f ∈ paths /\ ancestor d f.

(** The builder returns an index of [paths] with one entry per distinct
    ancestor directory and one per path, in which no path is a directory
    entry twice and no id is given twice. *)
Definition countedIndex (paths : list string) : Prop :=
  exists (index : list indexedFile) (dirs : gset string),
    indexFiles paths = Ret index /\
    ancestorsOf paths dirs /\
    List.length index = (size dirs + List.length paths)%nat /\
    NoDup (dirNames index) /\
    NoDup (ID <$> index).

(** The children of [start] in the words of the specification: the
    entries of the index whose separator count is that of [start] plus one
    and whose path has the path of [start] as a prefix, in index order. *)
Definition childrenBySeparators (index : list indexedFile) (start : indexedFile)
  : list indexedFile :=
  List.filter
    (fun e =>
       (Strings.Count (Name e) PathSeparator
        =? Strings.Count (Name start) PathSeparator + 1)%nat
       && Strings.HasPrefix (Name e) (Name start))
    index.

(** The longest initial run of [l] whose names have [prefix] as a
    prefix. *)
Fixpoint prefixRun (prefix : string) (l : list indexedFile) : list indexedFile :=
  match l with
  | [] => []
  | f :: l' =>
      if Strings.HasPrefix (Name f) prefix then f :: prefixRun prefix l' else []
  end.

(** [e] has at most one separator more than [start]. *)
Definition withinOneLevel (start e : indexedFile) : bool :=
  (Strings.Count (Name e) PathSeparator
   <=? Strings.Count (Name start) PathSeparator + 1)%nat.

(** The metadata [tagFiles] gives a file entry whose attributes are
    [attrs], and the metadata it first gives a directory entry. *)
Definition fileTags (f : indexedFile) (attrs : gmap string string) : metadataFile :=
  {| embedded := f; Artist := attr attrs "ARTIST";
     Album := attr attrs "ALBUM"; Title := attr attrs "TITLE" |}.

Definition dirTags (f : indexedFile) : metadataFile :=
  {| embedded := f; Artist := ""; Album := ""; Title := Filepath.Base (Name f) |}.

(** The last file entry of [files] whose immediate parent is [d]. *)
Definition lastFileIn (d : string) (files : list indexedFile) : option indexedFile :=
  last (List.filter
          (fun g => negb (Dir g) && String.eqb (Filepath.Dir (Name g)) d) files).

(** [seg] is the trailing segment of [path]: what follows its last
    separator, all of it when it has none. *)
Definition trailingSegment (path seg : string) : Prop :=
  Strings.Contains seg PathSeparator = false /\
  (path = seg \/ exists dir, path = dir +:+ String PathSeparator seg).

(** [ext] is the extension of [path]: what follows the last dot of its
    trailing segment, and the empty string when that segment has no
    dot. *)
Inductive extensionOf (path : string) : string -> Prop :=
| extension_after_dot (seg base ext : string) :
    trailingSegment path seg ->
    seg = base +:+ String "."%char ext ->
    Strings.Contains ext "."%char = false ->
    extensionOf path ext
| extension_none (seg : string) :
    trailingSegment path seg ->
    Strings.Contains seg "."%char = false ->
    extensionOf path EmptyString.

(** The input after [enc:] stops being hexadecimal at its head: one
    character is left, or the next two are not both hexadecimal digits. *)
Definition malformedHead (s : string) : Prop :=
  match s with
  | EmptyString => False
  | String _ EmptyString => True
  | String x (String y _) => Hex.fromHexChar x = None \/ Hex.fromHexChar y = None
  end.

(** The paths of the file entries of an index, in order. *)
Definition fileNames (out : list indexedFile) : list string :=
  Name <$> List.filter (fun e => negb (Dir e)) out.

(** The top-level entries of an index: those whose path holds no
    separator. *)
Definition topLevel (files : list indexedFile) : list indexedFile :=
  List.filter (fun f => negb (Strings.Contains (Name f) PathSeparator)) files.

(** The initial rune under which [getIndexes] files an entry. *)
Definition initial (digitTable : Z -> bool) (f : indexedFile) : Z :=
  fst (bucket digitTable (Name f)).

(** The members of a group: the entry that opened it and those appended
    after it. *)
Definition members (g : indexedFile * list indexedFile) : list indexedFile :=
  fst g :: snd g.

(** The index rendered for a group of entries. *)
Definition renderGroup (digitTable : Z -> bool) (g : indexedFile * list indexedFile)
  : index :=
  {| index_Name := snd (bucket digitTable (Name (fst g)));
     Artists := toArtist <$> members g |}.

(** Equal initials are adjacent: an initial that was met before the
    previous entry is the initial of the previous entry. *)
Definition initialsGrouped (ks : list Z) : Prop :=
  forall (l1 : list Z) (x y : Z) (l2 : list Z),
    ks = l1 ++ x :: y :: l2 -> y ∈ l1 -> x = y.

(** Every entry of a group has the initial of the entry that opened it. *)
Definition homogeneous (digitTable : Z -> bool)
  (groups : list (indexedFile * list indexedFile)) : Prop :=
  forall g f, g ∈ groups -> f ∈ snd g ->
              initial digitTable f = initial digitTable (fst g).

(** What the loop of [getIndexes] keeps true once the top-level entries
    [done] are processed, [groups] being the entries of each index. *)
Record bucketsInv (digitTable : Z -> bool) (done : list indexedFile)
  (groups : list (indexedFile * list indexedFile)) (seen : gset Z) : Prop
  := mkBucketsInv {
  buckets_members : List.concat (members <$> groups) = done;
  buckets_seen : forall k : Z, k ∈ seen <-> k ∈ (fun g => initial digitTable (fst g)) <$> groups;
  buckets_nodup : NoDup ((fun g => initial digitTable (fst g)) <$> groups);
  buckets_grouped :
    initialsGrouped (initial digitTable <$> done) -> homogeneous digitTable groups;
  buckets_homogeneous :
    homogeneous digitTable groups -> initialsGrouped (initial digitTable <$> done)
}.

(** The number of payloads an envelope carries. *)
Definition present {A : Type} (o : option A) : nat :=
  match o with Some _ => 1 | None => 0 end.

Definition payloads (c : container) : nat :=
  (present (Indexes c) + present (License c)
   + present (MusicDirectory c) + present (MusicFolders c))%nat.

(** The errors of the package. *)
Definition packageErrors : list subsonicError :=
  [ {| Code := 0; Message := "An error occurred." |};
    {| Code := 10; Message := "Required parameter is missing." |};
    {| Code := 40; Message := "Wrong username or password." |} ].

(** An envelope as the package writes them: the namespace and the version
    of the API, and either the status ["ok"], no error and at most one
    payload, or the status ["failed"], one of the errors of the package
    and no payload. *)
Definition wellFormed (c : container) : Prop :=
  XMLNS c = xmlNS /\ Version c = apiVersion /\
  ((Status c = statusOK /\ Error c = None /\ (payloads c <= 1)%nat) \/
   (Status c = statusFailed /\ payloads c = 0%nat /\
    exists e, Error c = Some e /\ e ∈ packageErrors)).

(** The answers [ServeHTTP] gives without calling a handler. *)
Definition rejected (o : outcome response) : Prop :=
  o = Ret (HTTPError StatusMethodNotAllowed "method not allowed") \/
  o = Ret (writeXML (Some errMissingParameter)) \/
  o = Ret (writeXML (Some errUnauthorized)).

(** No element of the path [p] is [".."]. *)
Definition noParent (p : string) : Prop :=
  Forall (fun e => e <> "..") (Strings.Split p).

(** [p] is the directory [root] or a path below it. *)
Definition under (root p : string) : Prop :=
  p = root \/
  exists rest, p = root +:+ rest /\
               (root = "/" \/ Strings.HasPrefix rest "/" = true).


(** [s] holds separators only. *)
Fixpoint onlySeparators (s : string) : bool :=
  match s with
  | EmptyString => true
  | String a s' => IsPathSeparator a && onlySeparators s'
  end.

(** [name] is the last element of the path [dir]: what stands between
    the last separator that is followed by something other than
    separators, or the beginning of the path, and the trailing
    separators; ["."] for the empty path and the separator for a path of
    separators only. *)
Inductive lastElement (dir : string) : string -> Prop :=
| lastElement_empty : dir = "" -> lastElement dir "."
| lastElement_root : dir <> "" -> onlySeparators dir = true -> lastElement dir "/"
| lastElement_path (parent name slashes : string) :
    dir = parent +:+ name +:+ slashes ->
    name <> "" -> Strings.Contains name PathSeparator = false ->
    onlySeparators slashes = true ->
    parent = "" \/ (exists q, parent = q +:+ "/") ->
    lastElement dir name.

(** * Properties *)

(** ** Strings and paths *)

Section PathFacts.

Import Filepath Strings.

Lemma Split_length (s : string) :
  List.length (Split s) = S (Count s PathSeparator).
Proof.
  induction s as [|a s IH]; simpl; [done|].
  unfold IsPathSeparator. destruct (Ascii.eqb a PathSeparator); simpl.
  - by rewrite IH.
  - destruct (Split s); simpl in *; lia.
Qed.

Lemma Split_no_separator (s : string) :
  Forall (fun e => Contains e PathSeparator = false) (Split s).
Proof.
  induction s as [|a s IH]; simpl.
  - by repeat constructor.
  - unfold IsPathSeparator. destruct (Ascii.eqb a PathSeparator) eqn:Ha.
    + by constructor.
    + destruct (Split s) as [|e es]; simpl.
      * repeat constructor. simpl. by rewrite Ha.
      * inversion IH; subst. constructor; [|done]. simpl. by rewrite Ha.
Qed.

Lemma Contains_Count (s : string) (c : ascii) :
  Contains s c = false <-> Count s c = O.
Proof.
  induction s as [|a s IH]; simpl; [done|].
  destruct (Ascii.eqb a c); [split; discriminate | done].
Qed.

Lemma Count_app (s t : string) (c : ascii) :
  Count (s +:+ t) c = (Count s c + Count t c)%nat.
Proof.
  induction s as [|a s IH]; simpl; [done|].
  destruct (Ascii.eqb a c); simpl; lia.
Qed.

Lemma Count_le_length (s : string) (c : ascii) :
  (Count s c <= String.length s)%nat.
Proof.
  induction s as [|a s IH]; simpl; [lia|].
  destruct (Ascii.eqb a c); lia.
Qed.

(** The separators of a joined list are the ones [Join] puts in. *)
Lemma Count_Join (l : list string) :
  Forall (fun e => Contains e PathSeparator = false) l ->
  Count (Join l) PathSeparator = Nat.pred (List.length l).
Proof.
  induction 1 as [|e l He Hl IH]; [done|].
  apply Contains_Count in He.
  destruct l as [|e' l']; simpl in *; [done|].
  rewrite Count_app. simpl. rewrite IH, He. done.
Qed.

Lemma isRooted_app (s t : string) :
  s <> EmptyString -> isRooted (s +:+ t) = isRooted s.
Proof. by destruct s. Qed.

Lemma isRooted_no_separator (s : string) :
  Contains s PathSeparator = false -> isRooted s = false.
Proof.
  destruct s as [|a s]; simpl; [done|].
  unfold IsPathSeparator. by destruct (Ascii.eqb a PathSeparator).
Qed.

Lemma isRooted_Join (e : string) (l : list string) :
  e <> EmptyString -> Contains e PathSeparator = false ->
  isRooted (Join (e :: l)) = false.
Proof.
  intros Hne Hc. destruct l as [|e' l]; simpl.
  - by apply isRooted_no_separator.
  - rewrite isRooted_app by done. by apply isRooted_no_separator.
Qed.

Lemma cleanStep_elements (rooted : bool) (st : list string) (e : string) :
  Contains e PathSeparator = false ->
  Forall element st -> Forall element (cleanStep rooted st e).
Proof.
  intros He Hst. unfold cleanStep.
  destruct (String.eqb_spec e ""); [done|].
  destruct (String.eqb_spec e "."); [done|].
  destruct (String.eqb_spec e "..").
  - assert (element e) as Hel by done.
    destruct st as [|top st']; [destruct rooted; auto|].
    inversion Hst; subst.
    destruct (String.eqb top ".."); [|done].
    destruct rooted; auto.
  - constructor; done.
Qed.

Lemma cleanStep_length (rooted : bool) (st : list string) (e : string) :
  (List.length (cleanStep rooted st e)
   <= List.length st + (if String.eqb e "" then 0 else 1))%nat.
Proof.
  unfold cleanStep. destruct (String.eqb e ""); [lia|].
  destruct (String.eqb e "."); [lia|].
  destruct (String.eqb e "..").
  - destruct st as [|top st']; [destruct rooted; simpl; lia|].
    destruct (String.eqb top ".."); [destruct rooted|]; simpl; lia.
  - simpl; lia.
Qed.

Lemma clean_fold_elements (rooted : bool) (l st : list string) :
  Forall (fun e => Contains e PathSeparator = false) l ->
  Forall element st ->
  Forall element (fold_left (cleanStep rooted) l st).
Proof.
  intros Hl. revert st. induction Hl as [|e l He Hl IH]; simpl; [done|].
  intros st Hst. apply IH. by apply cleanStep_elements.
Qed.

Lemma clean_fold_length (rooted : bool) (l st : list string) :
  (List.length (fold_left (cleanStep rooted) l st)
   <= List.length st + nonEmpty l)%nat.
Proof.
  revert st. induction l as [|e l IH]; intros st; simpl; [unfold nonEmpty; simpl; lia|].
  specialize (IH (cleanStep rooted st e)).
  pose proof (cleanStep_length rooted st e) as H.
  unfold nonEmpty in *. simpl.
  destruct (String.eqb e ""); simpl in *; lia.
Qed.

Lemma nonEmpty_le (l : list string) : (nonEmpty l <= List.length l)%nat.
Proof. unfold nonEmpty. apply List.filter_length_le. Qed.

Lemma nonEmpty_last_empty (l : list string) :
  last l = Some EmptyString -> (S (nonEmpty l) <= List.length l)%nat.
Proof.
  induction l as [|e l IH]; [done|].
  destruct l as [|e' l'].
  - simpl. intros [= ->]. unfold nonEmpty; simpl; lia.
  - intros H. specialize (IH H). unfold nonEmpty in *.
    change (List.filter ?f (e :: ?t)) with
      (if f e then e :: List.filter f t else List.filter f t).
    destruct (negb (e =? ""))%string; simpl in *; lia.
Qed.

Lemma Clean_nonempty (p : string) : Clean p <> EmptyString.
Proof.
  unfold Clean. destruct (isRooted p); [done|].
  destruct (String.eqb_spec (Join (rev (fold_left (cleanStep false) (Split p) []))) "");
    done.
Qed.

Lemma Clean_rooted (p : string) :
  isRooted p = true -> isRooted (Clean p) = true.
Proof. unfold Clean. by intros ->. Qed.

(** On a relative path [Clean] answers ["."] or a relative path with
    fewer separators than the input has non-empty elements. *)
Lemma Clean_relative (p : string) :
  isRooted p = false ->
  Clean p = "." \/
  (isRooted (Clean p) = false /\
   (S (Count (Clean p) PathSeparator) <= nonEmpty (Split p))%nat).
Proof.
  intros Hp. unfold Clean. rewrite Hp.
  pose proof (clean_fold_elements false (Split p) [] (Split_no_separator p)
                (Forall_nil_2 _)) as Hel.
  pose proof (clean_fold_length false (Split p) []) as Hlen.
  set (st := fold_left (cleanStep false) (Split p) []) in *.
  destruct (String.eqb_spec (Join (rev st)) ""); [by left|right].
  apply Forall_rev in Hel.
  rewrite <- length_rev in Hlen.
  destruct (rev st) as [|e l] eqn:Hrev; [done|].
  split.
  - inversion Hel as [|? ? [He1 He2] Hl]; subst. by apply isRooted_Join.
  - rewrite Count_Join; [simpl in *; lia|].
    eapply Forall_impl; [exact Hel|]. by intros ? [_ ?].
Qed.

Lemma upToLastSeparator_rooted (p : string) :
  isRooted (upToLastSeparator p) = isRooted p.
Proof.
  destruct p as [|a p]; simpl; [done|].
  destruct (IsPathSeparator a) eqn:Ha; simpl; [done|].
  destruct (String.eqb (upToLastSeparator p) ""); simpl; done.
Qed.

Lemma upToLastSeparator_Count (p : string) :
  Count (upToLastSeparator p) PathSeparator = Count p PathSeparator.
Proof.
  induction p as [|a p IH]; simpl; [done|].
  unfold IsPathSeparator.
  destruct (Ascii.eqb a PathSeparator) eqn:Ha; simpl; rewrite ?Ha; [by rewrite IH|].
  destruct (String.eqb_spec (upToLastSeparator p) "") as [He|He]; simpl.
  - by rewrite <- IH, He.
  - by rewrite Ha.
Qed.

Lemma Split_singleton_empty (s : string) :
  Split s = [EmptyString] -> s = EmptyString.
Proof.
  destruct s as [|b q]; [done|]. simpl.
  pose proof (Split_length q) as Hq.
  destruct (IsPathSeparator b); destruct (Split q); simpl in *; done.
Qed.

Lemma upToLastSeparator_last (p : string) :
  last (Split (upToLastSeparator p)) = Some EmptyString.
Proof.
  induction p as [|a p IH]; simpl; [done|].
  destruct (IsPathSeparator a) eqn:Ha; simpl.
  - rewrite Ha. pose proof (Split_length (upToLastSeparator p)).
    destruct (Split (upToLastSeparator p)); done.
  - destruct (String.eqb_spec (upToLastSeparator p) "") as [He|He]; simpl; [done|].
    rewrite Ha.
    destruct (Split (upToLastSeparator p)) as [|e [|e' l]] eqn:Hs; [done| |done].
    simpl in IH. injection IH as ->. by apply Split_singleton_empty in Hs.
Qed.

Lemma Dir_nonempty (p : string) : Dir p <> EmptyString.
Proof. apply Clean_nonempty. Qed.

Lemma Dir_rooted (p : string) : isRooted p = true -> isRooted (Dir p) = true.
Proof.
  intros Hp. apply Clean_rooted. by rewrite upToLastSeparator_rooted.
Qed.

Lemma rooted_not_dot (p : string) : isRooted p = true -> p <> ".".
Proof. by intros Hp ->. Qed.

(** Going up from a relative path gives ["."] or a relative path with
    strictly fewer separators. *)
Lemma Dir_relative (p : string) :
  isRooted p = false ->
  Dir p = "." \/
  (isRooted (Dir p) = false /\
   (Count (Dir p) PathSeparator < Count p PathSeparator)%nat).
Proof.
  intros Hp. unfold Dir.
  destruct (Clean_relative (upToLastSeparator p)) as [H|[H1 H2]];
    [by rewrite upToLastSeparator_rooted | by left | right].
  split; [done|].
  pose proof (nonEmpty_last_empty _ (upToLastSeparator_last p)) as H3.
  rewrite Split_length, upToLastSeparator_Count in H3. lia.
Qed.

Lemma Dir_dot : Dir "." = ".".
Proof. reflexivity. Qed.

End PathFacts.

(** ** The walk up the ancestors *)

Section Chains.

Lemma walk_isChain (fuel : nat) (d : string) (ch : list string) :
  walk fuel d = Some ch -> isChain d ch.
Proof.
  revert d ch. induction fuel as [|n IH]; intros d ch; simpl;
    destruct (String.eqb_spec d "."); try done.
  - by intros [= <-].
  - by intros [= <-].
  - destruct (walk n (Filepath.Dir d)) as [ch'|] eqn:Hw; [|done].
    intros [= <-]. simpl. auto.
Qed.

Lemma isChain_walk (d : string) (ch : list string) (fuel : nat) :
  isChain d ch -> (List.length ch <= fuel)%nat -> walk fuel d = Some ch.
Proof.
  revert d fuel. induction ch as [|x ch IH]; intros d fuel; simpl.
  - intros -> _. by destruct fuel.
  - intros (Hd & -> & Hch) Hlen. destruct fuel as [|n]; [lia|]. simpl.
    destruct (String.eqb_spec d "."); [done|].
    rewrite (IH _ n Hch); [done|lia].
Qed.

Lemma isChain_det (d : string) (c1 c2 : list string) :
  isChain d c1 -> isChain d c2 -> c1 = c2.
Proof.
  revert d c2. induction c1 as [|x c1 IH]; intros d [|y c2]; simpl; try done.
  - by intros -> (? & _).
  - by intros (? & _) ->.
  - intros (_ & -> & H1) (_ & -> & H2). f_equal. eauto.
Qed.

Lemma isChain_suffix (d x : string) (l1 l2 : list string) :
  isChain d (l1 ++ x :: l2) -> isChain x (x :: l2).
Proof.
  revert d. induction l1 as [|y l1 IH]; intros d; simpl.
  - intros (? & -> & ?). simpl. auto.
  - intros (_ & _ & H). exact (IH _ H).
Qed.

(** A walk that ends visits no directory twice. *)
Lemma isChain_NoDup (d : string) (ch : list string) :
  isChain d ch -> NoDup ch.
Proof.
  revert d. induction ch as [|x ch IH]; intros d; [constructor|].
  intros H. pose proof H as (Hd & -> & Hch). constructor; [|eauto].
  intros Hin. apply list_elem_of_split in Hin as (l1 & l2 & ->).
  pose proof (isChain_suffix _ _ _ _ Hch) as H'.
  pose proof (isChain_det _ _ _ H H') as Heq.
  apply (f_equal List.length) in Heq. simpl in Heq.
  rewrite length_app in Heq. simpl in Heq. lia.
Qed.

Lemma iter_Dir_dot (k : nat) : Nat.iter k Filepath.Dir "." = ".".
Proof. induction k as [|k IH]; simpl; [done|]. by rewrite IH. Qed.

Lemma iter_Dir_shift (k : nat) (d : string) :
  Nat.iter k Filepath.Dir (Filepath.Dir d) = Nat.iter (S k) Filepath.Dir d.
Proof.
  induction k as [|k IH]; simpl; [done|]. by rewrite IH.
Qed.

(** The chain from [d] holds exactly what is reached from [d] by going
    up any number of times, short of ["."]. *)
Lemma isChain_elem (d : string) (ch : list string) (x : string) :
  isChain d ch ->
  x ∈ ch <-> x <> "." /\ exists k : nat, Nat.iter k Filepath.Dir d = x.
Proof.
  revert d. induction ch as [|y ch IH]; intros d; simpl.
  - intros ->. split; [by intros ?%elem_of_nil|].
    intros (Hx & k & Hk). by rewrite iter_Dir_dot in Hk.
  - intros (Hd & -> & Hch). rewrite elem_of_cons, (IH _ Hch). split.
    + intros [->|(Hx & k & Hk)]; [split; [done|by exists O]|].
      split; [done|]. exists (S k). by rewrite <- iter_Dir_shift.
    + intros (Hx & k & Hk). destruct k as [|k]; [by left|right].
      split; [done|]. exists k. by rewrite iter_Dir_shift.
Qed.

Lemma isChain_ancestor (f : string) (ch : list string) (x : string) :
  isChain (Filepath.Dir f) ch -> x ∈ ch <-> ancestor x f.
Proof.
  intros Hch. rewrite (isChain_elem _ _ _ Hch). unfold ancestor.
  split; intros (Hx & k & Hk).
  - split; [done|]. exists (S k). split; [lia|]. by rewrite <- iter_Dir_shift.
  - split; [done|]. destruct Hk as [Hpos Hk]. destruct k as [|k]; [lia|].
    exists k. by rewrite iter_Dir_shift.
Qed.

Lemma isChain_head (d : string) (ch : list string) :
  isChain d ch -> d = "." \/ d ∈ ch.
Proof.
  destruct ch as [|x ch]; simpl; [by left|].
  intros (_ & -> & _). right. by left.
Qed.

Lemma isChain_nonempty (d : string) (ch : list string) :
  d <> EmptyString -> isChain d ch -> Forall (fun x => x <> EmptyString) ch.
Proof.
  revert d. induction ch as [|x ch IH]; intros d Hd; [done|]. simpl.
  intros (_ & -> & Hch). constructor; [done|].
  eapply IH; [|done]. apply Dir_nonempty.
Qed.

(** A rooted path never reaches ["."]: the walk does not end. *)
Lemma walk_rooted (fuel : nat) (d : string) :
  Filepath.isRooted d = true -> walk fuel d = None.
Proof.
  revert d. induction fuel as [|n IH]; intros d Hd; simpl;
    destruct (String.eqb_spec d ".") as [->|]; try done.
  by rewrite IH by by apply Dir_rooted.
Qed.

(** On a relative path the walk ends within as many iterations as the
    path has separators, plus one. *)
Lemma walk_relative (fuel : nat) (d : string) :
  relative d -> (Strings.Count d PathSeparator < fuel)%nat ->
  is_Some (walk fuel d).
Proof.
  revert d. induction fuel as [|n IH]; intros d Hd Hn; [lia|]. simpl.
  destruct (String.eqb_spec d "."); [done|].
  destruct (Dir_relative d Hd) as [Hdot|[Hrel Hlt]].
  - rewrite Hdot. by destruct n.
  - destruct (IH (Filepath.Dir d) Hrel) as [ch Hch]; [lia|]. by rewrite Hch.
Qed.

Lemma walk_enough_fuel (f : string) :
  relative f -> is_Some (walk (String.length f) (Filepath.Dir f)).
Proof.
  intros Hf. destruct (Dir_relative f Hf) as [Hdot|[Hrel Hlt]].
  - rewrite Hdot. by destruct (String.length f).
  - apply walk_relative; [done|].
    pose proof (Count_le_length f PathSeparator). lia.
Qed.

Lemma pushed_fresh (seen : gset string) (d : string) (ch : list string) :
  d ∉ ch -> pushed ({[d]} ∪ seen) ch = pushed seen ch.
Proof.
  revert seen. induction ch as [|x ch IH]; intros seen Hd; simpl; [done|].
  apply not_elem_of_cons in Hd as [Hne Hd].
  destruct (decide (x ∈ seen)) as [Hx|Hx].
  - rewrite !bool_decide_eq_true_2 by set_solver. by apply IH.
  - rewrite !bool_decide_eq_false_2 by set_solver. f_equal.
    replace ({[x]} ∪ ({[d]} ∪ seen)) with ({[d]} ∪ ({[x]} ∪ seen)) by set_solver.
    by apply IH.
Qed.

Lemma pushed_filter (seen : gset string) (ch : list string) :
  NoDup ch -> pushed seen ch = filter (fun d => d ∉ seen) ch.
Proof.
  induction 1 as [|x ch Hx Hnd IH]; simpl; [done|].
  rewrite filter_cons. destruct (decide (x ∈ seen)) as [Hin|Hin].
  - rewrite bool_decide_eq_true_2 by done. by rewrite decide_False by auto.
  - rewrite bool_decide_eq_false_2 by done. rewrite decide_True by done.
    by rewrite pushed_fresh, IH.
Qed.

(** The first inner loop, in terms of the walk. *)
Lemma collectDirs_walk (fuel : nat) (d : string) (seen : gset string) (dirs : stack) :
  collectDirs fuel d seen dirs =
  (fun ch => (seen ∪ list_to_set ch, rev (pushed seen ch) ++ dirs)) <$> walk fuel d.
Proof.
  revert d seen dirs. induction fuel as [|n IH]; intros d seen dirs; simpl;
    destruct (String.eqb d "."); simpl; try done.
  - f_equal. f_equal. set_solver.
  - f_equal. f_equal. set_solver.
  - destruct (decide (d ∈ seen)) as [Hin|Hin].
    + rewrite bool_decide_eq_true_2 by done. rewrite IH.
      destruct (walk n (Filepath.Dir d)) as [ch|]; simpl; [|done].
      rewrite bool_decide_eq_true_2 by done. f_equal. f_equal. set_solver.
    + rewrite bool_decide_eq_false_2 by done. rewrite IH.
      destruct (walk n (Filepath.Dir d)) as [ch|]; simpl; [|done].
      rewrite bool_decide_eq_false_2 by done. unfold Push. simpl.
      rewrite <- app_assoc. simpl. f_equal. f_equal. set_solver.
Qed.

Lemma collectDirs_rooted (fuel : nat) (f : string) (seen : gset string) (dirs : stack) :
  Filepath.isRooted f = true ->
  collectDirs fuel (Filepath.Dir f) seen dirs = None.
Proof.
  intros Hf. rewrite collectDirs_walk, walk_rooted; [done|]. by apply Dir_rooted.
Qed.

Lemma collectDirs_enough_fuel (f : string) (seen : gset string) (dirs : stack) :
  relative f ->
  is_Some (collectDirs (String.length f) (Filepath.Dir f) seen dirs).
Proof.
  intros Hf. rewrite collectDirs_walk.
  destruct (walk_enough_fuel f Hf) as [ch ->]. done.
Qed.

End Chains.

(** ** The index builder *)

Section Builder.

Lemma dirEntries_length (idx : Z) (l : list string) :
  List.length (dirEntries idx l) = List.length l.
Proof. revert idx. induction l as [|d l IH]; intros idx; simpl; [done|]. by rewrite IH. Qed.

Lemma dirEntries_snoc (idx : Z) (l : list string) (d : string) :
  dirEntries idx (l ++ [d]) =
  dirEntries idx l ++ [{| ID := idx + Z.of_nat (List.length l); Name := d; Dir := true |}].
Proof.
  revert idx. induction l as [|x l IH]; intros idx; simpl.
  - by rewrite Z.add_0_r.
  - rewrite IH. do 4 f_equal. lia.
Qed.

(** The second inner loop empties the stack: no directory is the empty
    string, at which the loop would stop. *)
Lemma drainDirs_spec (dirs : stack) (idx : Z) (out : list indexedFile) :
  Forall (fun d => d <> EmptyString) dirs ->
  drainDirs dirs idx out =
  (idx + Z.of_nat (List.length dirs), out ++ dirEntries idx dirs).
Proof.
  intros H. revert idx out. induction H as [|d dirs Hd _ IH]; intros idx out; simpl.
  - by rewrite Z.add_0_r, app_nil_r.
  - destruct (String.eqb_spec d ""); [done|].
    rewrite IH, <- app_assoc. simpl. f_equal. lia.
Qed.

Lemma dirNames_snoc (out : list indexedFile) (e : indexedFile) :
  dirNames (out ++ [e]) = dirNames out ++ (if Dir e then [Name e] else []).
Proof.
  unfold dirNames. rewrite List.filter_app, fmap_app. simpl.
  by destruct (Dir e).
Qed.

Lemma elem_dirNames (out : list indexedFile) (x : string) :
  x ∈ dirNames out <->
  exists (i : nat) (d : indexedFile), out !! i = Some d /\ Dir d = true /\ Name d = x.
Proof.
  unfold dirNames. rewrite list_elem_of_fmap. split.
  - intros (d & -> & Hd). apply list_elem_of_In, List.filter_In in Hd as [Hd Hdir].
    apply list_elem_of_In, list_elem_of_lookup in Hd as [i Hi]. eauto.
  - intros (i & d & Hi & Hdir & <-). exists d. split; [done|].
    apply list_elem_of_In, List.filter_In. split; [|done].
    apply list_elem_of_In. by eapply list_elem_of_lookup_2.
Qed.

Lemma parentsFirst_snoc (out : list indexedFile) (e : indexedFile) :
  parentsFirst out ->
  (Filepath.Dir (Name e) <> "." -> Filepath.Dir (Name e) ∈ dirNames out) ->
  parentsFirst (out ++ [e]).
Proof.
  intros Hout He j e' Hj Hdir.
  apply lookup_app_Some in Hj as [Hj|[Hlen Hj]].
  - destruct (Hout j e' Hj Hdir) as (i & d & Hi & Hd & ?).
    exists i, d. split; [done|]. split; [|done]. by apply lookup_app_l_Some.
  - apply list_lookup_singleton_Some in Hj as [Hj <-].
    apply elem_dirNames in He as (i & d & Hi & ? & ?); [|done].
    exists i, d. split; [|split; [by apply lookup_app_l_Some|done]].
    apply lookup_lt_Some in Hi. lia.
Qed.

Lemma ids_snoc (out : list indexedFile) (e : indexedFile) :
  (forall (i : nat) (x : indexedFile), out !! i = Some x -> ID x = Z.of_nat i) ->
  ID e = Z.of_nat (List.length out) ->
  forall (i : nat) (x : indexedFile), (out ++ [e]) !! i = Some x -> ID x = Z.of_nat i.
Proof.
  intros Hout He i x Hi.
  apply lookup_app_Some in Hi as [Hi|[Hlen Hi]]; [eauto|].
  apply list_lookup_singleton_Some in Hi as [Hi <-].
  rewrite He. f_equal. lia.
Qed.

(** Emitting a new directory whose parent is already there. *)
Lemma coreInv_add_dir (seen : gset string) (out : list indexedFile) (n : nat) (d : string) :
  coreInv seen out n -> d ∉ seen ->
  (Filepath.Dir d = "." \/ Filepath.Dir d ∈ seen) ->
  coreInv ({[d]} ∪ seen)
    (out ++ [{| ID := Z.of_nat (List.length out); Name := d; Dir := true |}]) n.
Proof.
  intros [Hids Hseen Hnd Hpar Hlen] Hd Hparent. constructor.
  - by apply ids_snoc.
  - intros x. rewrite dirNames_snoc. simpl.
    rewrite elem_of_app, list_elem_of_singleton, <- Hseen. set_solver.
  - rewrite dirNames_snoc. simpl. apply NoDup_app. split; [done|]. split.
    + intros x Hx ->%list_elem_of_singleton. by apply Hd, Hseen.
    + apply NoDup_singleton.
  - apply parentsFirst_snoc; [done|]. simpl. intros Hne.
    destruct Hparent as [|Hp]; [done|]. by apply Hseen.
  - rewrite length_app, size_union, size_singleton by set_solver. simpl. lia.
Qed.

(** Emitting a file whose parent is already there. *)
Lemma coreInv_add_file (seen : gset string) (out : list indexedFile) (n : nat) (f : string) :
  coreInv seen out n ->
  (Filepath.Dir f = "." \/ Filepath.Dir f ∈ seen) ->
  coreInv seen
    (out ++ [{| ID := Z.of_nat (List.length out); Name := f; Dir := false |}]) (S n).
Proof.
  intros [Hids Hseen Hnd Hpar Hlen] Hparent. constructor.
  - by apply ids_snoc.
  - intros x. rewrite dirNames_snoc. simpl. by rewrite app_nil_r.
  - rewrite dirNames_snoc. simpl. by rewrite app_nil_r.
  - apply parentsFirst_snoc; [done|]. simpl. intros Hne.
    destruct Hparent as [|Hp]; [done|]. by apply Hseen.
  - rewrite length_app. simpl. lia.
Qed.

(** Emitting the unseen directories of a chain, farthest first. *)
Lemma coreInv_emit_chain (ch : list string) (d : string) (seen : gset string)
  (out : list indexedFile) (n : nat) :
  isChain d ch -> coreInv seen out n ->
  coreInv (seen ∪ list_to_set ch)
    (out ++ dirEntries (Z.of_nat (List.length out))
              (rev (filter (fun x => x ∉ seen) ch))) n.
Proof.
  revert d. induction ch as [|x ch IH]; intros d Hch Hinv.
  - simpl. rewrite app_nil_r. by replace (seen ∪ ∅) with seen by set_solver.
  - pose proof (isChain_NoDup _ _ Hch) as Hnd. apply NoDup_cons in Hnd as [Hx _].
    destruct Hch as (Hd & -> & Hch). specialize (IH _ Hch Hinv).
    destruct (decide (d ∈ seen)) as [Hin|Hin].
    + rewrite filter_cons_False by auto.
      by replace (seen ∪ list_to_set (d :: ch)) with (seen ∪ list_to_set ch)
        by set_solver.
    + rewrite filter_cons_True by done. simpl rev.
      rewrite dirEntries_snoc, app_assoc.
      replace (seen ∪ list_to_set (d :: ch)) with ({[d]} ∪ (seen ∪ list_to_set ch))
        by set_solver.
      replace (Z.of_nat (List.length out)
               + Z.of_nat (List.length (rev (filter (fun x => x ∉ seen) ch))))
        with (Z.of_nat (List.length
                (out ++ dirEntries (Z.of_nat (List.length out))
                          (rev (filter (fun x => x ∉ seen) ch)))))
        by (rewrite length_app, dirEntries_length; lia).
      apply coreInv_add_dir; [done|set_solver|].
      destruct (isChain_head _ _ Hch) as [|Hh]; [by left|right]. set_solver.
Qed.

(** One iteration of the outer loop, in closed form. *)
Lemma indexLoop_step (f : string) (rest : list string) (seen : gset string)
  (out : list indexedFile) :
  indexLoop (f :: rest) seen (Z.of_nat (List.length out)) out =
  match walk (String.length f) (Filepath.Dir f) with
  | None => Diverge
  | Some ch =>
      let out' := out ++ dirEntries (Z.of_nat (List.length out))
                           (rev (filter (fun x => x ∉ seen) ch)) in
      let out'' := out' ++ [{| ID := Z.of_nat (List.length out'); Name := f; Dir := false |}] in
      indexLoop rest (seen ∪ list_to_set ch) (Z.of_nat (List.length out'')) out''
  end.
Proof.
  simpl. rewrite collectDirs_walk.
  destruct (walk (String.length f) (Filepath.Dir f)) as [ch|] eqn:Hw; simpl; [|done].
  apply walk_isChain in Hw.
  rewrite app_nil_r, pushed_filter by by eapply isChain_NoDup.
  rewrite drainDirs_spec.
  2:{ apply Forall_rev, Forall_forall. intros x Hx%list_elem_of_filter.
      pose proof (isChain_nonempty _ _ (Dir_nonempty f) Hw) as Hne.
      rewrite Forall_forall in Hne. apply Hne, Hx. }
  rewrite !length_app, dirEntries_length. simpl.
  f_equal; [lia|]. do 3 f_equal. lia.
Qed.

Lemma indexLoop_inv (files done : list string) (seen : gset string)
  (out index : list indexedFile) :
  indexInv seen out done ->
  indexLoop files seen (Z.of_nat (List.length out)) out = Ret index ->
  exists seen', indexInv seen' index (done ++ files).
Proof.
  revert done seen out. induction files as [|f files IH]; intros done seen out Hinv.
  - simpl. intros [= <-]. exists seen. by rewrite app_nil_r.
  - rewrite indexLoop_step.
    destruct (walk (String.length f) (Filepath.Dir f)) as [ch|] eqn:Hw; [|done].
    apply walk_isChain in Hw. cbv zeta. intros Hloop.
    replace (done ++ f :: files) with ((done ++ [f]) ++ files)
      by by rewrite <- app_assoc.
    eapply IH; [|exact Hloop].
    destruct Hinv as [Hcore Hanc]. split.
    + replace (List.length (done ++ [f])) with (S (List.length done))
        by (rewrite length_app; simpl; lia).
      apply coreInv_add_file; [by eapply coreInv_emit_chain|].
      destruct (isChain_head _ _ Hw) as [|Hh]; [by left|right]. set_solver.
    + intros d. rewrite elem_of_union, elem_of_list_to_set, Hanc,
        (isChain_ancestor _ _ _ Hw). split.
      * intros [(f' & Hf' & Ha)|Ha]; [exists f'|exists f]; set_solver.
      * intros (f' & [Hf'| ->%list_elem_of_singleton]%elem_of_app & Ha); eauto.
Qed.

Lemma indexInv_init : indexInv ∅ [] [].
Proof.
  split; [constructor|].
  - intros i e Hi. by rewrite lookup_nil in Hi.
  - set_solver.
  - constructor.
  - intros j e Hj. by rewrite lookup_nil in Hj.
  - done.
  - intros d. split; [set_solver|]. by intros (f & ?%elem_of_nil & _).
Qed.

(** The builder returns on relative paths... *)
Lemma indexLoop_total (files : list string) (seen : gset string)
  (out : list indexedFile) :
  Forall relative files ->
  exists index, indexLoop files seen (Z.of_nat (List.length out)) out = Ret index.
Proof.
  intros H. revert seen out. induction H as [|f files Hf _ IH]; intros seen out.
  - by exists out.
  - rewrite indexLoop_step. destruct (walk_enough_fuel f Hf) as [ch ->]. apply IH.
Qed.

(** ... and on those only: with a rooted path in the list the outer
    loop reaches a walk that does not end. *)
Lemma indexLoop_diverges (files : list string) (seen : gset string)
  (out : list indexedFile) :
  Exists (fun f => Filepath.isRooted f = true) files ->
  indexLoop files seen (Z.of_nat (List.length out)) out = Diverge.
Proof.
  intros H. revert seen out. induction H as [f files Hf|f files _ IH]; intros seen out;
    rewrite indexLoop_step.
  - by rewrite walk_rooted by by apply Dir_rooted.
  - destruct (walk (String.length f) (Filepath.Dir f)); [apply IH|done].
Qed.

Lemma indexFiles_inv (paths : list string) (index : list indexedFile) :
  indexFiles paths = Ret index -> exists seen, indexInv seen index paths.
Proof.
  intros H. apply (indexLoop_inv paths [] ∅ [] index indexInv_init H).
Qed.

(** A directory name is held by one position only. *)
Lemma dirNames_unique (out : list indexedFile) (i j : nat) (d d' : indexedFile) :
  NoDup (dirNames out) ->
  out !! i = Some d -> out !! j = Some d' ->
  Dir d = true -> Dir d' = true -> Name d = Name d' -> i = j.
Proof.
  revert i j. induction out as [|e out IH]; intros i j Hnd Hi Hj Hd Hd' Hname;
    [by rewrite lookup_nil in Hi|].
  assert (forall (k : nat) (x : indexedFile), out !! k = Some x -> Dir x = true ->
          Name x ∈ dirNames out) as Hin.
  { intros k x Hk Hx. apply elem_dirNames. eauto. }
  unfold dirNames in Hnd. simpl in Hnd. fold (dirNames out) in Hnd.
  destruct i as [|i], j as [|j]; simpl in Hi, Hj; [done| | |].
  - injection Hi as ->. rewrite Hd in Hnd. simpl in Hnd.
    apply NoDup_cons in Hnd as [Hnotin _]. rewrite Hname in Hnotin.
    destruct Hnotin. eauto.
  - injection Hj as ->. rewrite Hd' in Hnd. simpl in Hnd.
    apply NoDup_cons in Hnd as [Hnotin _]. rewrite <- Hname in Hnotin.
    destruct Hnotin. eauto.
  - f_equal. apply IH; try done.
    destruct (Dir e); simpl in Hnd; [by apply NoDup_cons in Hnd as [_ ?]|done].
Qed.

Lemma iter_Dir_not_dot (k : nat) (p : string) :
  Nat.iter (S k) Filepath.Dir p <> "." -> Nat.iter k Filepath.Dir p <> ".".
Proof. simpl. intros H Hk. apply H. by rewrite Hk. Qed.

(** The entry for a directory reached by going up from an entry comes
    before that entry. *)
Lemma ancestor_before (out : list indexedFile) (p : nat) (e : indexedFile) (k : nat) :
  parentsFirst out -> out !! p = Some e -> (0 < k)%nat ->
  Nat.iter k Filepath.Dir (Name e) <> "." ->
  exists (i : nat) (d : indexedFile),
    (i < p)%nat /\ out !! i = Some d /\ Dir d = true /\
    Name d = Nat.iter k Filepath.Dir (Name e).
Proof.
  intros Hpar Hp. induction k as [|k IH]; [lia|]. intros _ Hne.
  destruct k as [|k]; [by apply Hpar|].
  destruct IH as (i & d & Hi & Hd & Hdir & Hname); [lia|by apply iter_Dir_not_dot|].
  destruct (Hpar i d Hd) as (i' & d' & Hi' & Hd' & Hdir' & Hname').
  { by rewrite Hname. }
  exists i', d'. split; [lia|]. split; [done|]. split; [done|].
  by rewrite Hname', Hname.
Qed.

Lemma fileNames_dirEntries (idx : Z) (l : list string) :
  List.filter (fun e => negb (Dir e)) (dirEntries idx l) = [].
Proof. revert idx. induction l as [|d l IH]; intros idx; simpl; [done|apply IH]. Qed.

Lemma indexLoop_fileNames (paths : list string) (seen : gset string)
  (out index : list indexedFile) :
  indexLoop paths seen (Z.of_nat (List.length out)) out = Ret index ->
  fileNames index = fileNames out ++ paths.
Proof.
  revert seen out. induction paths as [|f paths IH]; intros seen out.
  - simpl. intros [= <-]. by rewrite app_nil_r.
  - rewrite indexLoop_step.
    destruct (walk (String.length f) (Filepath.Dir f)) as [ch|]; [|done].
    cbv zeta. intros Hloop. rewrite (IH _ _ Hloop).
    unfold fileNames. rewrite !List.filter_app, fileNames_dirEntries. simpl.
    rewrite app_nil_r, fmap_app, <- app_assoc. done.
Qed.

End Builder.

(** ** The subtree filter *)

Section Filter.

Lemma HasPrefix_refl (s : string) : Strings.HasPrefix s s = true.
Proof.
  unfold Strings.HasPrefix. induction s as [|a s IH]; simpl; [done|].
  by destruct (ascii_dec a a).
Qed.

Lemma HasPrefix_app (s p : string) :
  Strings.HasPrefix s p = true <-> exists t, s = p +:+ t.
Proof.
  unfold Strings.HasPrefix. revert s.
  induction p as [|a p IH]; intros [|b s]; simpl.
  - split; [by exists EmptyString|done].
  - split; [by exists (String b s)|done].
  - split; [done|by intros [t ?]].
  - destruct (ascii_dec a b) as [->|Hne].
    + rewrite IH. split; intros [t Ht]; exists t;
        change (String b p +:+ t) with (String b (p +:+ t)) in *; congruence.
    + split; [done|]. intros [t Ht].
      change (String a p +:+ t) with (String a (p +:+ t)) in Ht. congruence.
Qed.

Lemma HasPrefix_Count (s p : string) (c : ascii) :
  Strings.HasPrefix s p = true -> (Strings.Count p c <= Strings.Count s c)%nat.
Proof.
  intros [t ->]%HasPrefix_app. rewrite Count_app. lia.
Qed.

(** The scan of [filterFiles] keeps the longest run with the prefix. *)
Lemma scan_prefixRun (prefix : string) (l : list indexedFile) :
  match firstWithoutPrefix prefix l with
  | Some i => take i l
  | None => l
  end = prefixRun prefix l.
Proof.
  induction l as [|f l IH]; simpl; [done|].
  destruct (Strings.HasPrefix (Name f) prefix); [|done].
  destruct (firstWithoutPrefix prefix l); simpl; by rewrite <- IH.
Qed.

Lemma prefixRun_elem (prefix : string) (l : list indexedFile) (e : indexedFile) :
  e ∈ prefixRun prefix l -> e ∈ l /\ Strings.HasPrefix (Name e) prefix = true.
Proof.
  induction l as [|f l IH]; simpl; [by intros ?%elem_of_nil|].
  destruct (Strings.HasPrefix (Name f) prefix) eqn:Hf; [|by intros ?%elem_of_nil].
  intros [->|He]%elem_of_cons; [split; [by left|done]|].
  destruct (IH He). split; [by right|done].
Qed.

Lemma filterFiles_beyond (files : list indexedFile) (start : Z) :
  Z.of_nat (List.length files) <= start -> filterFiles files start = Ret [].
Proof.
  intros Hge. unfold filterFiles. by rewrite (proj2 (Z.leb_le _ _)) by done.
Qed.

(** In range, [filterFiles] is the filter of the run after the start. *)
Lemma filterFiles_within (files : list indexedFile) (start : Z) (first : indexedFile) :
  0 <= start -> files !! Z.to_nat start = Some first ->
  filterFiles files start
  = Ret (List.filter (withinOneLevel first)
           (prefixRun (Name first) (drop (S (Z.to_nat start)) files))).
Proof.
  intros Hpos Hfirst. unfold filterFiles.
  pose proof (lookup_lt_Some _ _ _ Hfirst) as Hlt.
  rewrite (proj2 (Z.leb_gt _ _)) by lia.
  rewrite (proj2 (Z.ltb_ge _ _)) by lia.
  rewrite (drop_S _ _ _ Hfirst).
  rewrite (scan_prefixRun (Name first) (first :: _)). simpl.
  rewrite HasPrefix_refl. simpl.
  rewrite (proj2 (Nat.ltb_ge _ _)) by lia. simpl.
  unfold withinOneLevel. f_equal.
  apply List.filter_ext. intros e.
  destruct (Nat.ltb_spec (Strings.Count (Name first) PathSeparator + 1)
              (Strings.Count (Name e) PathSeparator));
    destruct (Nat.leb_spec (Strings.Count (Name e) PathSeparator)
              (Strings.Count (Name first) PathSeparator + 1)); simpl; done || lia.
Qed.

End Filter.

(** ** The metadata tagger *)

Section Tagger.

Variable db : database.

(** The first loop either fails with the error of a lookup, or looks
    up every file entry and adds one entry per input entry. *)
Lemma tagLoop_result (files : list indexedFile)
  (cache : gmap string metadataFile) (out : list metadataFile) :
  match tagLoop db files cache out with
  | inl (out', cache') =>
      (forall f, f ∈ files -> Dir f = false ->
                 exists attrs, ReadComments db (Name f) = inl attrs) /\
      embedded <$> out' = (embedded <$> out) ++ files
  | inr err =>
      exists f, f ∈ files /\ Dir f = false /\ ReadComments db (Name f) = inr err
  end.
Proof.
  revert cache out. induction files as [|f files IH]; intros cache out; simpl.
  - split; [by intros f ?%elem_of_nil|by rewrite app_nil_r].
  - destruct (Dir f) eqn:Hdir.
    + specialize (IH cache (out ++ [dirTags f])). unfold dirTags in IH.
      destruct (tagLoop db files cache _) as [[out' cache']|err].
      * destruct IH as [Hall Hemb]. split.
        -- intros g [->|Hg]%elem_of_cons Hg'; [congruence|eauto].
        -- rewrite Hemb, fmap_app, <- app_assoc. done.
      * destruct IH as (g & Hg & ?). exists g. split; [by right|done].
    + destruct (ReadComments db (Name f)) as [attrs|err] eqn:Hrc.
      * specialize (IH (<[Filepath.Dir (Name f) := fileTags f attrs]> cache)
                       (out ++ [fileTags f attrs])). unfold fileTags in IH.
        destruct (tagLoop db files _ _) as [[out' cache']|err].
        -- destruct IH as [Hall Hemb]. split.
           ++ intros g [->|Hg]%elem_of_cons Hg'; eauto.
           ++ rewrite Hemb, fmap_app, <- app_assoc. done.
        -- destruct IH as (g & Hg & ?). exists g. split; [by right|done].
      * exists f. split; [by left|done].
Qed.

Lemma inheritTags_embedded (cache : gmap string metadataFile) (f : metadataFile) :
  embedded (inheritTags cache f) = embedded f.
Proof.
  unfold inheritTags.
  destruct (negb _); [done|]. destruct (negb _); [done|].
  by destruct (cache !! _).
Qed.

Lemma tagFiles_embedded (files : list indexedFile) (out : list metadataFile) :
  tagFiles db files = inl out -> embedded <$> out = files.
Proof.
  unfold tagFiles. pose proof (tagLoop_result files ∅ []) as H.
  destruct (tagLoop db files ∅ []) as [[out' cache']|err]; [|done].
  intros [= <-]. destruct H as [_ H]. simpl in H. rewrite <- H.
  rewrite <- list_fmap_compose.
  apply list_fmap_ext. intros i x _. apply inheritTags_embedded.
Qed.

(** What the first loop writes at the position of a directory entry and
    of a file entry. *)
Lemma tagLoop_entries (files : list indexedFile)
  (cache cache' : gmap string metadataFile) (out out' : list metadataFile) :
  tagLoop db files cache out = inl (out', cache') ->
  forall (i : nat) (f : indexedFile), files !! i = Some f ->
    if Dir f then out' !! (List.length out + i)%nat = Some (dirTags f)
    else exists attrs, ReadComments db (Name f) = inl attrs /\
                       out' !! (List.length out + i)%nat = Some (fileTags f attrs).
Proof.
  assert (forall l c (o o' : list metadataFile) c' (k : nat) x,
            tagLoop db l c o = inl (o', c') -> o !! k = Some x -> o' !! k = Some x)
    as Hkeep.
  { induction l as [|g l IHl]; intros c o o' c' k x; simpl; [by intros [= <- _]|].
    destruct (Dir g).
    - intros H Hk. eapply IHl; [exact H|]. by apply lookup_app_l_Some.
    - destruct (ReadComments db (Name g)); [|done].
      intros H Hk. eapply IHl; [exact H|]. by apply lookup_app_l_Some. }
  revert cache out. induction files as [|g files IH]; intros cache out Hloop i f Hi;
    [by rewrite lookup_nil in Hi|].
  simpl in Hloop. destruct i as [|i]; simpl in Hi.
  - injection Hi as ->. rewrite Nat.add_0_r. destruct (Dir f).
    + eapply Hkeep; [exact Hloop|]. by rewrite lookup_app_r, Nat.sub_diag.
    + destruct (ReadComments db (Name f)) as [attrs|]; [|done].
      exists attrs. split; [done|].
      eapply Hkeep; [exact Hloop|]. by rewrite lookup_app_r, Nat.sub_diag.
  - replace (List.length out + S i)%nat with (List.length (out ++ [dirTags g]) + i)%nat
      by (rewrite length_app; simpl; lia).
    destruct (Dir g).
    + eapply IH; [exact Hloop|done].
    + destruct (ReadComments db (Name g)) as [attrs|]; [|done].
      replace (List.length (out ++ [dirTags g]))
        with (List.length (out ++ [fileTags g attrs]))
        by by rewrite !length_app.
      eapply IH; [exact Hloop|done].
Qed.

Lemma lastFileIn_cons (d : string) (g : indexedFile) (files : list indexedFile) :
  lastFileIn d (g :: files) =
  match lastFileIn d files with
  | Some x => Some x
  | None =>
      if negb (Dir g) && String.eqb (Filepath.Dir (Name g)) d then Some g else None
  end.
Proof.
  unfold lastFileIn. simpl.
  destruct (negb (Dir g) && String.eqb (Filepath.Dir (Name g)) d); [|
    by destruct (last _)].
  rewrite last_cons. by destruct (last _).
Qed.

(** The cache after the first loop: for each parent directory, the
    metadata of the last file entry whose immediate parent it is. *)
Lemma tagLoop_cache (files : list indexedFile)
  (cache cache' : gmap string metadataFile) (out out' : list metadataFile) :
  tagLoop db files cache out = inl (out', cache') ->
  forall d : string,
    match lastFileIn d files with
    | Some g => exists attrs, ReadComments db (Name g) = inl attrs /\
                              cache' !! d = Some (fileTags g attrs)
    | None => cache' !! d = cache !! d
    end.
Proof.
  revert cache out. induction files as [|g files IH]; intros cache out; simpl.
  - by intros [= _ <-] d.
  - intros Hloop d. rewrite lastFileIn_cons. destruct (Dir g) eqn:Hdir; simpl.
    + specialize (IH _ _ Hloop d). by destruct (lastFileIn d files).
    + destruct (ReadComments db (Name g)) as [attrs|] eqn:Hrc; [|done].
      specialize (IH _ _ Hloop d). destruct (lastFileIn d files); [done|].
      destruct (String.eqb_spec (Filepath.Dir (Name g)) d) as [<-|Hne].
      * exists attrs. split; [done|]. by rewrite IH, lookup_insert_eq.
      * by rewrite IH, lookup_insert_ne.
Qed.

End Tagger.

(** ** Extensions and hexadecimal passwords *)

Section Handlers.

Lemma append_cons (a : ascii) (s t : string) :
  String a s +:+ t = String a (s +:+ t).
Proof. reflexivity. Qed.

Lemma IsPathSeparator_eq (a : ascii) : IsPathSeparator a = true -> a = PathSeparator.
Proof. unfold IsPathSeparator. by intros ?%Ascii.eqb_eq. Qed.

Lemma afterLastSeparator_segment (path : string) :
  trailingSegment path (Filepath.afterLastSeparator path).
Proof.
  induction path as [|a s IH]; simpl.
  - split; [done|by left].
  - destruct (Strings.Contains s PathSeparator) eqn:Hs.
    + destruct IH as [Hseg [Heq|[dir Heq]]].
      * rewrite <- Heq in Hseg. congruence.
      * split; [done|right]. exists (String a dir). by rewrite append_cons, <- Heq.
    + destruct (IsPathSeparator a) eqn:Ha.
      * split; [done|right]. exists EmptyString.
        by rewrite (IsPathSeparator_eq _ Ha).
      * split; [|by left]. simpl. unfold IsPathSeparator in Ha. by rewrite Ha.
Qed.

Lemma fromLastDot_split (s : string) :
  match Filepath.fromLastDot s with
  | Some r => exists base ext, s = base +:+ String "."%char ext /\
                               r = String "."%char ext /\
                               Strings.Contains ext "."%char = false
  | None => Strings.Contains s "."%char = false
  end.
Proof.
  induction s as [|a s IH]; simpl; [done|].
  destruct (Filepath.fromLastDot s) as [r|].
  - destruct IH as (base & ext & -> & -> & Hext).
    exists (String a base), ext. by rewrite append_cons.
  - destruct (Ascii.eqb_spec a "."%char) as [->|Hne].
    + by exists EmptyString, s.
    + done.
Qed.

(** The suffix [getMusicDirectory] renders is the extension of the
    path. *)
Lemma suffix_is_extension (path : string) :
  extensionOf path (Strings.TrimPrefix (Filepath.Ext path) ".").
Proof.
  unfold Filepath.Ext.
  pose proof (afterLastSeparator_segment path) as Hseg.
  pose proof (fromLastDot_split (Filepath.afterLastSeparator path)) as Hdot.
  destruct (Filepath.fromLastDot (Filepath.afterLastSeparator path)) as [r|].
  - destruct Hdot as (base & ext & Heq & -> & Hext).
    replace (Strings.TrimPrefix (String "."%char ext) ".") with ext.
    + by eapply extension_after_dot.
    + unfold Strings.TrimPrefix, Strings.HasPrefix. simpl.
      by destruct ext.
  - by eapply extension_none.
Qed.

Lemma fromHexChar_hexDigit (n : nat) :
  (n < 16)%nat -> Hex.fromHexChar (Hex.hexDigit n) = Some n.
Proof.
  intros Hn. do 16 (destruct n as [|n]; [reflexivity|]). lia.
Qed.

(** Decoding undoes encoding, ... *)
Lemma DecodeString_EncodeToString (bytes : string) :
  Hex.DecodeString (Hex.EncodeToString bytes) = (bytes, true).
Proof.
  induction bytes as [|c rest IH]; [done|].
  pose proof (nat_ascii_bounded c) as Hc.
  cbn [Hex.EncodeToString Hex.DecodeString].
  rewrite !fromHexChar_hexDigit, IH.
  - rewrite <- Nat.div_mod_eq, ascii_nat_embedding. done.
  - apply Nat.mod_upper_bound. lia.
  - apply Nat.Div0.div_lt_upper_bound. lia.
Qed.

(** Hex that is malformed from its first pair on decodes to no byte. *)
Lemma DecodeString_malformed (junk : string) :
  malformedHead junk -> fst (Hex.DecodeString junk) = "".
Proof.
  intros Hjunk. destruct junk as [|x [|y junk]]; simpl in *; [done|done|].
  destruct Hjunk as [-> | Hy]; [done|]. rewrite Hy.
  by destruct (Hex.fromHexChar x).
Qed.

Lemma decodePassword_enc (rest : string) :
  decodePassword ("enc:" +:+ rest) = fst (Hex.DecodeString rest).
Proof.
  unfold decodePassword, Strings.TrimPrefix, Strings.HasPrefix.
  change ("enc:" +:+ rest)
    with (String "e" (String "n" (String "c" (String ":" rest)))).
  simpl. by destruct rest.
Qed.

Lemma Atoi_nonempty (q : string) (id : Z) :
  Strconv.Atoi q = Some id -> String.eqb q "" = false.
Proof. by destruct q. Qed.

(** [ServeHTTP], by cases on the decoded password. *)
Lemma ServeHTTP_authentication (getIndexes : Server -> handler) (s : Server) (r : request) :
  (Method r = MethodGet \/ Method r = MethodPost) ->
  Get (Query r) "u" <> "" -> Get (Query r) "c" <> "" -> Get (Query r) "v" <> "" ->
  ServeHTTP getIndexes s r =
  if String.eqb (decodePassword (Get (Query r) "p")) ""
  then Ret (writeXML (Some errMissingParameter))
  else if String.eqb (Get (Query r) "u") (SubsonicUser (cfg s))
          && String.eqb (decodePassword (Get (Query r) "p")) (SubsonicPassword (cfg s))
       then mux getIndexes s r
       else Ret (writeXML (Some errUnauthorized)).
Proof.
  intros Hm Hu Hc Hv. unfold ServeHTTP, parseContext.
  replace (negb (String.eqb (Method r) MethodGet)
           && negb (String.eqb (Method r) MethodPost)) with false
    by by destruct Hm as [-> | ->].
  apply String.eqb_neq in Hu, Hc, Hv. rewrite Hu, Hc, Hv.
  destruct (String.eqb (decodePassword (Get (Query r) "p")) ""); [done|]. simpl.
  destruct (String.eqb (Get (Query r) "u") (SubsonicUser (cfg s)));
    destruct (String.eqb (decodePassword (Get (Query r) "p")) (SubsonicPassword (cfg s)));
    done.
Qed.

(** Without a [p] parameter [ServeHTTP] reports a missing parameter,
    whatever else the request carries. *)
Lemma ServeHTTP_without_password (getIndexes : Server -> handler) (s : Server)
  (r : request) :
  (Method r = MethodGet \/ Method r = MethodPost) ->
  Get (Query r) "p" = "" ->
  ServeHTTP getIndexes s r = Ret (writeXML (Some errMissingParameter)).
Proof.
  intros Hm Hp. unfold ServeHTTP, parseContext.
  replace (negb (String.eqb (Method r) MethodGet)
           && negb (String.eqb (Method r) MethodPost)) with false
    by by destruct Hm as [-> | ->].
  rewrite Hp. simpl. by destruct (String.eqb (Get (Query r) "u") "").
Qed.

End Handlers.

(** ** The runes of a string *)

Section Runes.

Ltac euclid := Z.to_euclidean_division_equations; lia.

Lemma lor_shiftl_add (a n b : Z) :
  0 <= n -> 0 <= b < 2 ^ n -> Z.lor (Z.shiftl a n) b = a * 2 ^ n + b.
Proof.
  intros Hn Hb.
  assert (Z.land (Z.shiftl a n) b = 0) as Hdisj.
  { apply Z.bits_inj'. intros i Hi. rewrite Z.land_spec, Z.bits_0.
    destruct (Z.lt_ge_cases i n) as [Hlt|Hge].
    - rewrite Z.shiftl_spec_low by done. done.
    - rewrite andb_comm. 
      destruct (Z.eq_dec b 0) as [->|Hb0]; [by rewrite Z.bits_0|].
      rewrite (Z.bits_above_log2 b i); [done|lia|].
      apply Z.log2_lt_pow2; [lia|]. 
      apply Z.lt_le_trans with (2 ^ n); [lia|]. apply Z.pow_le_mono_r; lia. }
  pose proof (Z.add_lor_land (Z.shiftl a n) b) as Hadd. rewrite Hdisj, Z.add_0_r in Hadd.
  rewrite Hadd, Z.shiftl_mul_pow2 by done. done.
Qed.

Lemma lor_mul_add (a b : Z) (n : Z) :
  0 <= n -> 0 <= b < 2 ^ n -> Z.lor (a * 2 ^ n) b = a * 2 ^ n + b.
Proof. intros Hn Hb. rewrite <- (lor_shiftl_add a n b) by done. by rewrite Z.shiftl_mul_pow2. Qed.

Lemma land_63 (s : Z) : Z.land s 63 = s mod 64.
Proof. change 63 with (Z.ones 6). by rewrite Z.land_ones. Qed.
Lemma land_31 (s : Z) : Z.land s 31 = s mod 32.
Proof. change 31 with (Z.ones 5). by rewrite Z.land_ones. Qed.
Lemma land_15 (s : Z) : Z.land s 15 = s mod 16.
Proof. change 15 with (Z.ones 4). by rewrite Z.land_ones. Qed.
Lemma land_7 (s : Z) : Z.land s 7 = s mod 8.
Proof. change 7 with (Z.ones 3). by rewrite Z.land_ones. Qed.

Lemma byte_char (b : Z) : 0 <= b < 256 -> Utf8.byte (Utf8.char b) = b.
Proof.
  intros Hb. unfold Utf8.char, Utf8.byte. rewrite nat_ascii_embedding by lia. lia.
Qed.

Lemma char_byte (c : ascii) : Utf8.char (Utf8.byte c) = c.
Proof. unfold Utf8.char, Utf8.byte. by rewrite Nat2Z.id, ascii_nat_embedding. Qed.

Lemma byte_range (c : ascii) : 0 <= Utf8.byte c < 256.
Proof. unfold Utf8.byte. pose proof (nat_ascii_bounded c). lia. Qed.

Lemma value2 (x y : Z) : 0 <= y < 64 ->
  Z.lor (Z.shiftl x 6) y = x * 64 + y.
Proof. intros. by rewrite lor_shiftl_add. Qed.

Lemma value3 (x y z : Z) : 0 <= y < 64 -> 0 <= z < 64 ->
  Z.lor (Z.lor (Z.shiftl x 12) (Z.shiftl y 6)) z = x * 4096 + y * 64 + z.
Proof.
  intros Hy Hz. rewrite !Z.shiftl_mul_pow2 by done.
  rewrite (lor_mul_add x (y * 2 ^ 6) 12) by lia.
  replace (x * 2 ^ 12 + y * 2 ^ 6) with ((x * 64 + y) * 2 ^ 6) by lia.
  rewrite lor_mul_add by lia. lia.
Qed.

Lemma value4 (x y z w : Z) : 0 <= y < 64 -> 0 <= z < 64 -> 0 <= w < 64 ->
  Z.lor (Z.lor (Z.lor (Z.shiftl x 18) (Z.shiftl y 12)) (Z.shiftl z 6)) w
  = x * 262144 + y * 4096 + z * 64 + w.
Proof.
  intros Hy Hz Hw. rewrite !Z.shiftl_mul_pow2 by done.
  rewrite (lor_mul_add x (y * 2 ^ 12) 18) by lia.
  replace (x * 2 ^ 18 + y * 2 ^ 12) with ((x * 64 + y) * 2 ^ 12) by lia.
  rewrite (lor_mul_add _ (z * 2 ^ 6) 12) by lia.
  replace ((x * 64 + y) * 2 ^ 12 + z * 2 ^ 6) with (((x * 64 + y) * 64 + z) * 2 ^ 6) by lia.
  rewrite lor_mul_add by lia. lia.
Qed.

Lemma lor_128 (y : Z) : 0 <= y < 64 -> Z.lor 128 y = 128 + y.
Proof. intros. change 128 with (2 * 2 ^ 6). by rewrite lor_mul_add. Qed.
Lemma lor_192 (y : Z) : 0 <= y < 64 -> Z.lor 192 y = 192 + y.
Proof. intros. change 192 with (3 * 2 ^ 6). by rewrite lor_mul_add. Qed.
Lemma lor_224 (y : Z) : 0 <= y < 16 -> Z.lor 224 y = 224 + y.
Proof. intros. change 224 with (14 * 2 ^ 4). by rewrite lor_mul_add. Qed.
Lemma lor_240 (y : Z) : 0 <= y < 8 -> Z.lor 240 y = 240 + y.
Proof. intros. change 240 with (30 * 2 ^ 3). by rewrite lor_mul_add. Qed.

Lemma EncodeRune_2 (c0 c1 : ascii) :
  194 <= Utf8.byte c0 < 224 -> 128 <= Utf8.byte c1 <= 191 ->
  Utf8.EncodeRune
    (Z.lor (Z.shiftl (Z.land (Utf8.byte c0) 31) 6) (Z.land (Utf8.byte c1) 63))
  = String c0 (String c1 EmptyString).
Proof.
  intros H0 H1. rewrite land_31, land_63.
  rewrite value2 by (apply Z.mod_pos_bound; lia).
  set (s0 := Utf8.byte c0) in *. set (s1 := Utf8.byte c1) in *.
  assert (s0 mod 32 = s0 - 192) as -> by (Z.to_euclidean_division_equations; lia).
  assert (s1 mod 64 = s1 - 128) as -> by (Z.to_euclidean_division_equations; lia).
  unfold Utf8.EncodeRune.
  rewrite (proj2 (Z.leb_le 0 _)) by lia.
  rewrite (proj2 (Z.leb_gt _ 127)) by lia. simpl.
  rewrite (proj2 (Z.leb_le _ 2047)) by lia.
  rewrite Z.shiftr_div_pow2, land_63 by lia.
  rewrite lor_192, lor_128 by (Z.to_euclidean_division_equations; lia).
  replace (192 + _) with s0 by (Z.to_euclidean_division_equations; lia).
  replace (128 + _) with s1 by (Z.to_euclidean_division_equations; lia).
  subst s0 s1. by rewrite !char_byte.
Qed.

Lemma EncodeRune_3 (c0 c1 c2 : ascii) :
  224 <= Utf8.byte c0 < 240 -> 128 <= Utf8.byte c1 <= 191 ->
  (Utf8.byte c0 = 224 -> 160 <= Utf8.byte c1) ->
  (Utf8.byte c0 = 237 -> Utf8.byte c1 <= 159) ->
  128 <= Utf8.byte c2 <= 191 ->
  Utf8.EncodeRune
    (Z.lor (Z.lor (Z.shiftl (Z.land (Utf8.byte c0) 15) 12)
                  (Z.shiftl (Z.land (Utf8.byte c1) 63) 6))
           (Z.land (Utf8.byte c2) 63))
  = String c0 (String c1 (String c2 EmptyString)).
Proof.
  intros H0 H1 Hlo Hhi H2. rewrite land_15, !land_63.
  rewrite value3 by (apply Z.mod_pos_bound; lia).
  set (s0 := Utf8.byte c0) in *. set (s1 := Utf8.byte c1) in *.
  set (s2 := Utf8.byte c2) in *.
  assert (s0 mod 16 = s0 - 224) as -> by euclid.
  assert (s1 mod 64 = s1 - 128) as -> by euclid.
  assert (s2 mod 64 = s2 - 128) as -> by euclid.
  set (r := (s0 - 224) * 4096 + (s1 - 128) * 64 + (s2 - 128)).
  assert (2048 <= r <= 65535) as Hr by (subst r; lia).
  assert (~ 55296 <= r <= 57343) as Hsur by (subst r; lia).
  unfold Utf8.EncodeRune, Utf8.MaxRune.
  rewrite (proj2 (Z.leb_le 0 _)) by lia.
  rewrite (proj2 (Z.leb_gt _ 127)) by lia. simpl.
  rewrite (proj2 (Z.leb_gt _ 2047)) by lia.
  rewrite (proj2 (Z.ltb_ge r 0)) by lia.
  rewrite (proj2 (Z.ltb_ge 1114111 r)) by lia. simpl.
  assert ((55296 <=? r) && (r <=? 57343) = false) as ->.
  { apply andb_false_iff. destruct (Z.leb_spec 55296 r); [right|by left].
    apply Z.leb_gt. lia. }
  rewrite (proj2 (Z.leb_le r 65535)) by lia.
  unfold Utf8.encode3. rewrite !Z.shiftr_div_pow2, !land_63 by lia.
  rewrite lor_224, !lor_128 by (subst r; euclid).
  replace (224 + _) with s0 by (subst r; euclid).
  replace (128 + (r / 2 ^ 6) mod 64) with s1 by (subst r; euclid).
  replace (128 + r mod 64) with s2 by (subst r; euclid).
  subst s0 s1 s2. by rewrite !char_byte.
Qed.

Lemma EncodeRune_4 (c0 c1 c2 c3 : ascii) :
  240 <= Utf8.byte c0 <= 244 -> 128 <= Utf8.byte c1 <= 191 ->
  (Utf8.byte c0 = 240 -> 144 <= Utf8.byte c1) ->
  (Utf8.byte c0 = 244 -> Utf8.byte c1 <= 143) ->
  128 <= Utf8.byte c2 <= 191 -> 128 <= Utf8.byte c3 <= 191 ->
  Utf8.EncodeRune
    (Z.lor (Z.lor (Z.lor (Z.shiftl (Z.land (Utf8.byte c0) 7) 18)
                         (Z.shiftl (Z.land (Utf8.byte c1) 63) 12))
                  (Z.shiftl (Z.land (Utf8.byte c2) 63) 6))
           (Z.land (Utf8.byte c3) 63))
  = String c0 (String c1 (String c2 (String c3 EmptyString))).
Proof.
  intros H0 H1 Hlo Hhi H2 H3. rewrite land_7, !land_63.
  rewrite value4 by (apply Z.mod_pos_bound; lia).
  set (s0 := Utf8.byte c0) in *. set (s1 := Utf8.byte c1) in *.
  set (s2 := Utf8.byte c2) in *. set (s3 := Utf8.byte c3) in *.
  assert (s0 mod 8 = s0 - 240) as -> by euclid.
  assert (s1 mod 64 = s1 - 128) as -> by euclid.
  assert (s2 mod 64 = s2 - 128) as -> by euclid.
  assert (s3 mod 64 = s3 - 128) as -> by euclid.
  set (r := (s0 - 240) * 262144 + (s1 - 128) * 4096 + (s2 - 128) * 64 + (s3 - 128)).
  assert (65536 <= r <= 1114111) as Hr by (subst r; lia).
  unfold Utf8.EncodeRune, Utf8.MaxRune.
  rewrite (proj2 (Z.leb_le 0 _)) by lia.
  rewrite (proj2 (Z.leb_gt _ 127)) by lia. simpl.
  rewrite (proj2 (Z.leb_gt _ 2047)) by lia.
  rewrite (proj2 (Z.ltb_ge r 0)) by lia.
  rewrite (proj2 (Z.ltb_ge 1114111 r)) by lia. simpl.
  assert ((55296 <=? r) && (r <=? 57343) = false) as ->.
  { apply andb_false_iff. right. apply Z.leb_gt. lia. }
  rewrite (proj2 (Z.leb_gt r 65535)) by lia.
  rewrite !Z.shiftr_div_pow2, !land_63 by lia.
  rewrite lor_240, !lor_128 by (subst r; euclid).
  replace (240 + _) with s0 by (subst r; euclid).
  replace (128 + (r / 2 ^ 12) mod 64) with s1 by (subst r; euclid).
  replace (128 + (r / 2 ^ 6) mod 64) with s2 by (subst r; euclid).
  replace (128 + r mod 64) with s3 by (subst r; euclid).
  subst s0 s1 s2 s3. by rewrite !char_byte.
Qed.

Lemma first_Lead (b : Z) (size : nat) (lo hi : Z) :
  Utf8.first b = Utf8.Lead size lo hi ->
  128 <= lo /\ hi <= 191 /\
  ((size = 2%nat /\ 194 <= b < 224) \/
   (size = 3%nat /\ 224 <= b < 240 /\ (b = 224 -> lo = 160) /\ (b = 237 -> hi = 159)) \/
   (size = 4%nat /\ 240 <= b <= 244 /\ (b = 240 -> lo = 144) /\ (b = 244 -> hi = 143))).
Proof.
  unfold Utf8.first.
  repeat match goal with
         | |- context [?x <? ?y] => destruct (Z.ltb_spec x y)
         | |- context [?x =? ?y] => destruct (Z.eqb_spec x y)
         end; intros Heq; try discriminate Heq; inversion Heq; subst;
    (split; [lia|split; [lia|]]);
    first [left; split; [done|lia]
          |right; left; split; [done|lia]
          |right; right; split; [done|lia]].
Qed.

Lemma first_ASCII (b : Z) : Utf8.first b = Utf8.ASCII -> b < 128.
Proof.
  unfold Utf8.first. destruct (Z.ltb_spec b 128); [done|].
  repeat match goal with
         | |- context [?x <? ?y] => destruct (Z.ltb_spec x y)
         | |- context [?x =? ?y] => destruct (Z.eqb_spec x y)
         end; discriminate.
Qed.

Lemma DecodeRuneInString_cases (s : string) :
  let c := fst (Utf8.DecodeRuneInString s) in
  c = Utf8.RuneError \/
  exists p rest, s = p +:+ rest /\ Utf8.EncodeRune c = p /\
                 Utf8.DecodeRuneInString p = (c, String.length p).
Proof.
  destruct s as [|c0 rest]; [by left|].
  cbv zeta. unfold Utf8.DecodeRuneInString.
  destruct (Utf8.first (Utf8.byte c0)) as [| |size lo hi] eqn:Hf; [|by left|].
  { right. exists (String c0 EmptyString), rest. cbn [fst].
    pose proof (first_ASCII _ Hf) as Hc.
    pose proof (byte_range c0). split; [done|]. split.
    - unfold Utf8.EncodeRune. rewrite (proj2 (Z.leb_le 0 _)), (proj2 (Z.leb_le _ 127)) by lia.
      simpl. by rewrite char_byte.
    - by rewrite Hf. }
  destruct (String.length (String c0 rest) <? size)%nat eqn:Hlen; [by left|].
  destruct rest as [|c1 rest]; [by left|].
  destruct ((Utf8.byte c1 <? lo) || (hi <? Utf8.byte c1)) eqn:Hr1; [by left|].
  apply orb_false_iff in Hr1 as [Hlo%Z.ltb_ge Hhi%Z.ltb_ge].
  destruct (first_Lead _ _ _ _ Hf) as (Hlo128 & Hhi191 & Hsize).
  destruct Hsize as [[-> Hb]|[(-> & Hb & Hb224 & Hb237)|(-> & Hb & Hb240 & Hb244)]].
  - right. exists (String c0 (String c1 EmptyString)), rest. cbn [fst Nat.leb].
    split; [done|]. split; [apply EncodeRune_2; lia|].
    rewrite Hf. simpl.
    rewrite (proj2 (Z.ltb_ge _ _) Hlo), (proj2 (Z.ltb_ge _ _) Hhi). done.
  - destruct rest as [|c2 rest]; [by left|]. cbn [Nat.leb].
    destruct (Utf8.continuation (Utf8.byte c2)) eqn:Hc2; [|by left]. cbn [negb].
    pose proof Hc2 as Hc2'. unfold Utf8.continuation in Hc2'.
    apply andb_true_iff in Hc2' as [?%Z.leb_le ?%Z.leb_le].
    right. exists (String c0 (String c1 (String c2 EmptyString))), rest. cbn [fst].
    split; [done|]. split; [apply EncodeRune_3; lia|].
    rewrite Hf. simpl.
    rewrite (proj2 (Z.ltb_ge _ _) Hlo), (proj2 (Z.ltb_ge _ _) Hhi), Hc2. done.
  - destruct rest as [|c2 rest]; [by left|]. cbn [Nat.leb].
    destruct (Utf8.continuation (Utf8.byte c2)) eqn:Hc2; [|by left]. cbn [negb].
    destruct rest as [|c3 rest]; [by left|].
    destruct (Utf8.continuation (Utf8.byte c3)) eqn:Hc3; [|by left]. cbn [negb].
    pose proof Hc2 as Hc2'. unfold Utf8.continuation in Hc2'.
    apply andb_true_iff in Hc2' as [?%Z.leb_le ?%Z.leb_le].
    pose proof Hc3 as Hc3'. unfold Utf8.continuation in Hc3'.
    apply andb_true_iff in Hc3' as [?%Z.leb_le ?%Z.leb_le].
    right. exists (String c0 (String c1 (String c2 (String c3 EmptyString)))), rest.
    cbn [fst]. split; [done|]. split; [apply EncodeRune_4; lia|].
    rewrite Hf. simpl.
    rewrite (proj2 (Z.ltb_ge _ _) Hlo), (proj2 (Z.ltb_ge _ _) Hhi), Hc2, Hc3. done.
Qed.

(** The rune decoded at the head of a string is decoded again from its own
    encoding. *)
Lemma DecodeRuneInString_EncodeRune (s : string) :
  fst (Utf8.DecodeRuneInString (Utf8.EncodeRune (fst (Utf8.DecodeRuneInString s))))
  = fst (Utf8.DecodeRuneInString s).
Proof.
  destruct (DecodeRuneInString_cases s) as [->|(p & rest & _ & -> & ->)]; [|done].
  vm_compute. reflexivity.
Qed.

End Runes.

(** ** The indexes of the top-level entries *)

Section Indexes.

Variable digitTable : Z -> bool.

Lemma appendArtist_last (l : list index) (ix : index) (a : artist) :
  appendArtist (l ++ [ix]) (Z.of_nat (List.length l)) a
  = Ret (l ++ [{| index_Name := index_Name ix; Artists := Artists ix ++ [a] |}]).
Proof.
  unfold appendArtist. rewrite (proj2 (Z.ltb_ge _ _)) by lia. rewrite Nat2Z.id.
  rewrite lookup_app_r, Nat.sub_diag by done. simpl.
  rewrite insert_app_r_alt, Nat.sub_diag by done. done.
Qed.

Lemma initialsGrouped_prefix (l l' : list Z) :
  initialsGrouped (l ++ l') -> initialsGrouped l.
Proof.
  intros H l1 x y l2 -> Hy. apply (H l1 x y (l2 ++ l')); [|done].
  by rewrite <- !app_assoc.
Qed.

Lemma topLevel_app (l l' : list indexedFile) :
  topLevel (l ++ l') = topLevel l ++ topLevel l'.
Proof. apply List.filter_app. Qed.

Lemma bucketsInv_init : bucketsInv digitTable [] [] ∅.
Proof.
  constructor; simpl; [done| |constructor| |].
  - intros k. split; [set_solver|by intros ?%elem_of_nil].
  - by intros _ g f ?%elem_of_nil.
  - intros _ l1 x y l2 Heq. by destruct l1.
Qed.

Lemma initialsGrouped_snoc (ks : list Z) (k : Z) :
  initialsGrouped ks ->
  (forall l x, ks = l ++ [x] -> k ∈ l -> x = k) ->
  initialsGrouped (ks ++ [k]).
Proof.
  intros Hks Hlast l1 x y l2 Heq Hy.
  destruct l2 as [|z l2 _] using rev_ind.
  - change (l1 ++ [x; y]) with (l1 ++ [x] ++ [y]) in Heq. rewrite app_assoc in Heq.
    apply app_inj_tail in Heq as [-> ->]. by apply (Hlast l1 x).
  - change (l1 ++ x :: y :: l2 ++ [z]) with (l1 ++ (x :: y :: l2) ++ [z]) in Heq.
    rewrite app_assoc in Heq. apply app_inj_tail in Heq as [-> ->].
    by apply (Hks l1 x y l2).
Qed.

(** Under [homogeneous] the initial of every entry processed was met. *)
Lemma homogeneous_seen (done : list indexedFile)
  (groups : list (indexedFile * list indexedFile)) (k : Z) :
  List.concat (members <$> groups) = done -> homogeneous digitTable groups ->
  k ∈ initial digitTable <$> done ->
  k ∈ (fun g => initial digitTable (fst g)) <$> groups.
Proof.
  intros <- Hhom (e & -> & He)%list_elem_of_fmap.
  apply list_elem_of_In, List.in_concat in He as (ms & Hms & He).
  apply list_elem_of_In, list_elem_of_fmap in Hms as (g & -> & Hg).
  apply list_elem_of_In in He. apply list_elem_of_fmap. exists g. split; [|done].
  unfold members in He. apply elem_of_cons in He as [->|He]; [done|].
  by apply Hhom.
Qed.

(** Appending an entry whose initial is new opens a group. *)
Lemma bucketsInv_open (done : list indexedFile)
  (groups : list (indexedFile * list indexedFile)) (seen : gset Z) (f : indexedFile) :
  bucketsInv digitTable done groups seen -> initial digitTable f ∉ seen ->
  bucketsInv digitTable (done ++ [f]) (groups ++ [(f, [])])
    ({[initial digitTable f]} ∪ seen).
Proof.
  intros [Hmem Hseen Hnd Hgr Hconv] Hnew. constructor.
  - rewrite fmap_app, List.concat_app, Hmem. done.
  - intros k. rewrite fmap_app, elem_of_app, <- Hseen. simpl.
    rewrite list_elem_of_singleton. set_solver.
  - rewrite fmap_app. apply NoDup_app. split; [done|]. split; [|apply NoDup_singleton].
    intros k Hk ->%list_elem_of_singleton. by apply Hnew, Hseen.
  - intros Hall g x [Hg| ->%list_elem_of_singleton]%elem_of_app Hx.
    + apply Hgr; [|done..]. rewrite fmap_app in Hall. by eapply initialsGrouped_prefix.
    + by apply elem_of_nil in Hx.
  - intros Hhom. rewrite fmap_app. simpl.
    assert (homogeneous digitTable groups) as Hhom0.
    { intros g x Hg Hx. apply Hhom; [|done]. apply elem_of_app. by left. }
    apply initialsGrouped_snoc; [by apply Hconv|].
    intros l x Hks Hk. destruct Hnew. apply Hseen.
    apply (homogeneous_seen done); [done..|]. rewrite Hks. apply elem_of_app. by left.
Qed.

Lemma last_concat_members (gs : list (indexedFile * list indexedFile))
  (g : indexedFile * list indexedFile) :
  exists l x, List.concat (members <$> (gs ++ [g])) = l ++ [x] /\ x ∈ members g.
Proof.
  rewrite fmap_app, List.concat_app. simpl. rewrite app_nil_r.
  destruct g as [f0 rest]. unfold members. simpl.
  destruct rest as [|y rest'] using rev_ind.
  - exists (List.concat (members <$> gs)), f0. split; [done|by left].
  - exists (List.concat (members <$> gs) ++ f0 :: rest'), y. split.
    + by rewrite <- app_assoc.
    + right. apply elem_of_app. right. by left.
Qed.

(** Appending an entry whose initial was met joins the last group. *)
Lemma bucketsInv_join (done : list indexedFile)
  (gs : list (indexedFile * list indexedFile)) (g : indexedFile * list indexedFile)
  (seen : gset Z) (f : indexedFile) :
  bucketsInv digitTable done (gs ++ [g]) seen -> initial digitTable f ∈ seen ->
  bucketsInv digitTable (done ++ [f]) (gs ++ [(fst g, snd g ++ [f])]) seen.
Proof.
  intros [Hmem Hseen Hnd Hgr Hconv] Hold. constructor.
  - rewrite fmap_app, List.concat_app in *. simpl in *. rewrite app_nil_r in *.
    rewrite <- Hmem. unfold members. simpl. by rewrite <- app_assoc.
  - intros k. rewrite Hseen, !fmap_app. done.
  - by rewrite fmap_app in *.
  - intros Hall x y Hx Hy. rewrite fmap_app in Hall.
    pose proof (initialsGrouped_prefix _ _ Hall) as Hdone.
    apply elem_of_app in Hx as [Hx| ->%list_elem_of_singleton].
    { apply (Hgr Hdone x y); [|done]. apply elem_of_app. by left. }
    simpl in *. apply elem_of_app in Hy as [Hy| ->%list_elem_of_singleton].
    { apply (Hgr Hdone g y); [|done]. apply elem_of_app. right. by left. }
    (* the new member: its initial is that of the last entry processed *)
    destruct (last_concat_members gs g) as (l & x & Hlast & Hxg).
    rewrite Hmem in Hlast.
    assert (initial digitTable x = initial digitTable (fst g)) as Hxkey.
    { unfold members in Hxg. apply elem_of_cons in Hxg as [->|Hxg]; [done|].
      apply (Hgr Hdone g x); [|done]. apply elem_of_app. right. by left. }
    rewrite <- Hxkey. symmetry.
    assert (initial digitTable f ∈ initial digitTable <$> done) as Hin.
    { apply Hseen in Hold. apply list_elem_of_fmap in Hold as (g' & Hk & Hg').
      rewrite Hk. apply list_elem_of_fmap. exists (fst g'). split; [done|].
      rewrite <- Hmem. apply list_elem_of_In, List.in_concat.
      exists (members g'). split.
      - apply list_elem_of_In, list_elem_of_fmap. eauto.
      - apply list_elem_of_In. by left. }
    rewrite Hlast, fmap_app in Hin, Hall. simpl in Hin, Hall.
    apply elem_of_app in Hin as [Hin|Hin%list_elem_of_singleton]; [|done].
    apply (Hall (initial digitTable <$> l) _ _ []); [|done].
    by rewrite <- app_assoc.
  - intros Hhom. rewrite fmap_app. simpl.
    assert (homogeneous digitTable (gs ++ [g])) as Hhom0.
    { intros g' x [Hg'| ->%list_elem_of_singleton]%elem_of_app Hx.
      - apply Hhom; [|done]. apply elem_of_app. by left.
      - apply (Hhom (fst g, snd g ++ [f])).
        + apply elem_of_app. right. by left.
        + simpl. apply elem_of_app. by left. }
    apply initialsGrouped_snoc; [by apply Hconv|].
    intros l x Hks _.
    assert (initial digitTable f = initial digitTable (fst g)) as ->.
    { apply (Hhom (fst g, snd g ++ [f])).
      - apply elem_of_app. right. by left.
      - simpl. apply elem_of_app. right. by left. }
    destruct (last_concat_members gs g) as (l' & e & Hlast & Heg).
    rewrite Hmem in Hlast. rewrite Hlast, fmap_app in Hks. simpl in Hks.
    apply app_inj_tail in Hks as [_ <-].
    unfold members in Heg. apply elem_of_cons in Heg as [->|Heg]; [done|].
    apply Hhom0; [|done]. apply elem_of_app. right. by left.
Qed.

(** The loop does not panic, and ends with the indexes of the groups. *)
Lemma indexesLoop_groups (files done : list indexedFile)
  (groups : list (indexedFile * list indexedFile)) (seen : gset Z) :
  bucketsInv digitTable done groups seen ->
  exists groups' seen',
    indexesLoop digitTable files (Z.of_nat (List.length groups) - 1)
      (renderGroup digitTable <$> groups) seen
    = Ret (renderGroup digitTable <$> groups') /\
    bucketsInv digitTable (done ++ topLevel files) groups' seen'.
Proof.
  revert done groups seen. induction files as [|f files IH]; intros done groups seen Hinv.
  - exists groups, seen. simpl. by rewrite app_nil_r.
  - simpl. unfold topLevel. simpl. fold (topLevel files).
    destruct (Strings.Contains (Name f) PathSeparator) eqn:Hsep; simpl; [by apply IH|].
    destruct (bucket digitTable (Name f)) as [c name] eqn:Hb.
    assert (c = initial digitTable f) as Hc by (unfold initial; by rewrite Hb).
    assert (name = snd (bucket digitTable (Name f))) as Hname by by rewrite Hb.
    destruct (decide (c ∈ seen)) as [Hin|Hin].
    + rewrite bool_decide_eq_true_2 by done.
      assert (groups <> []) as Hne.
      { intros ->. destruct Hinv as [_ Hseen _ _ _]. apply Hseen in Hin.
        by apply elem_of_nil in Hin. }
      destruct groups as [|g gs _] using rev_ind; [done|].
      rewrite length_app. simpl.
      replace (Z.of_nat (List.length gs + 1) - 1) with (Z.of_nat (List.length gs)) by lia.
      rewrite fmap_app. simpl.
      replace (List.length gs) with (List.length (renderGroup digitTable <$> gs))
        by apply length_fmap.
      rewrite appendArtist_last. simpl. rewrite length_fmap.
      subst c.
      destruct (IH (done ++ [f]) (gs ++ [(fst g, snd g ++ [f])]) seen
                  (bucketsInv_join _ _ _ _ _ Hinv Hin)) as (groups' & seen' & Hloop & Hinv').
      exists groups', seen'. split.
      * rewrite <- Hloop. rewrite length_app. simpl.
        replace (Z.of_nat (List.length gs + 1) - 1) with (Z.of_nat (List.length gs)) by lia.
        f_equal. rewrite fmap_app. simpl. f_equal. unfold renderGroup, members. simpl.
        f_equal. f_equal. by rewrite fmap_app.
      * by rewrite <- app_assoc in Hinv'.
    + rewrite bool_decide_eq_false_2 by done.
      replace (Z.of_nat (List.length groups) - 1 + 1)
        with (Z.of_nat (List.length (renderGroup digitTable <$> groups)))
        by (rewrite length_fmap; lia).
      rewrite appendArtist_last. simpl. subst c.
      destruct (IH (done ++ [f]) (groups ++ [(f, [])]) ({[initial digitTable f]} ∪ seen)
                  (bucketsInv_open _ _ _ _ Hinv Hin)) as (groups' & seen' & Hloop & Hinv').
      exists groups', seen'. split.
      * rewrite <- Hloop. rewrite length_app, length_fmap. simpl.
        replace (Z.of_nat (List.length groups + 1) - 1)
          with (Z.of_nat (List.length groups)) by lia.
        f_equal. rewrite fmap_app. simpl. f_equal. unfold renderGroup. simpl.
        by rewrite Hname.
      * by rewrite <- app_assoc in Hinv'.
Qed.

Lemma bucket_label (name : string) :
  snd (bucket digitTable name) = Utf8.EncodeRune (fst (bucket digitTable name)).
Proof. unfold bucket. by destruct (Unicode.IsDigit _ _). Qed.

(** The bucket of a name that begins with an ASCII character. *)
Lemma bucket_ascii (c : ascii) (rest : string) :
  Utf8.byte c < 128 ->
  bucket digitTable (String c rest)
  = if (48 <=? Utf8.byte c) && (Utf8.byte c <=? 57) then (35, "#")
    else (Utf8.byte c, String c EmptyString).
Proof.
  intros Hc. pose proof (byte_range c) as Hb. unfold bucket. simpl.
  unfold Utf8.first. rewrite (proj2 (Z.ltb_lt _ _) Hc). simpl.
  unfold Unicode.IsDigit, Unicode.MaxLatin1.
  rewrite (proj2 (Z.leb_le _ _)) by lia.
  destruct ((48 <=? Utf8.byte c) && (Utf8.byte c <=? 57)); [done|].
  unfold Utf8.EncodeRune.
  rewrite (proj2 (Z.leb_le 0 _)), (proj2 (Z.leb_le _ 127)) by lia. simpl.
  by rewrite char_byte.
Qed.

(** What [getIndexes] answers whenever it answers with indexes. *)
Lemma getIndexes_groups (now : Z) (s : Server) (r : request) (c : container)
  (ic : indexesContainer) :
  getIndexes now digitTable s r = Ret (XML c) -> Indexes c = Some ic ->
  exists paths files groups seen,
    List (db s) = inl paths /\ indexFiles paths = Ret files /\
    ic = {| LastModified := now; Indexes_ := renderGroup digitTable <$> groups |} /\
    bucketsInv digitTable (topLevel files) groups seen.
Proof.
  unfold getIndexes. destruct (List (db s)) as [paths|err]; [|by intros [= <-]].
  destruct (indexFiles paths) as [files| |] eqn:Hindex; [|done..].
  destruct (indexesLoop_groups files [] [] ∅ bucketsInv_init)
    as (groups & seen & Hloop & Hinv).
  change (indexesLoop digitTable files (-1) [] ∅
          = Ret (renderGroup digitTable <$> groups)) in Hloop.
  unfold mbind, outcome_bind. rewrite Hloop. intros [= <-]. simpl. intros [= <-].
  by exists paths, files, groups, seen.
Qed.

End Indexes.

(** The initial rune is read back from the name of the index. *)
Lemma bucket_key (digitTable : Z -> bool) (name : string) :
  fst (Utf8.DecodeRuneInString (snd (bucket digitTable name)))
  = fst (bucket digitTable name).
Proof.
  unfold bucket. destruct (Unicode.IsDigit _ _); [done|].
  apply DecodeRuneInString_EncodeRune.
Qed.

Lemma concat_renderGroup (digitTable : Z -> bool)
  (groups : list (indexedFile * list indexedFile)) :
  List.concat (Artists <$> (renderGroup digitTable <$> groups))
  = toArtist <$> List.concat (members <$> groups).
Proof.
  induction groups as [|g groups IH]; [done|].
  rewrite !fmap_cons. cbn [List.concat]. rewrite IH. by rewrite fmap_app.
Qed.

Lemma homogeneous_names (digitTable : Z -> bool)
  (groups : list (indexedFile * list indexedFile)) :
  homogeneous digitTable groups <->
  forall ix a, ix ∈ renderGroup digitTable <$> groups -> a ∈ Artists ix ->
               snd (bucket digitTable (artist_Name a)) = index_Name ix.
Proof.
  split.
  - intros Hhom ix a (g & -> & Hg)%list_elem_of_fmap.
    unfold renderGroup at 1 2. cbn [Artists index_Name].
    intros (f & -> & Hf)%list_elem_of_fmap. cbn [toArtist artist_Name].
    rewrite !bucket_label. f_equal.
    unfold members in Hf. apply elem_of_cons in Hf as [->|Hf]; [done|].
    by apply Hhom.
  - intros Hnames g f Hg Hf. unfold initial. rewrite <- !bucket_key. do 2 f_equal.
    apply (Hnames (renderGroup digitTable g) (toArtist f)).
    + apply list_elem_of_fmap. eauto.
    + unfold renderGroup. cbn [Artists]. apply list_elem_of_fmap. exists f.
      split; [done|]. unfold members. by right.
Qed.

(** ** The envelopes of the answers *)

Section Envelopes.

Lemma wellFormed_error (e : subsonicError) :
  e ∈ packageErrors ->
  wellFormed
    {| XMLNS := xmlNS; Status := statusFailed; Version := apiVersion;
       Error := Some e; Indexes := None; License := None;
       MusicDirectory := None; MusicFolders := None |}.
Proof.
  intros He. split; [done|]. split; [done|]. right. split; [done|]. split; [done|]. eauto.
Qed.

Lemma wellFormed_errGeneric (c : container) :
  Ret (writeXML (Some errGeneric)) = Ret (XML c) -> wellFormed c.
Proof. intros [= <-]. apply wellFormed_error. by left. Qed.

Lemma wellFormed_errMissingParameter (c : container) :
  Ret (writeXML (Some errMissingParameter)) = Ret (XML c) -> wellFormed c.
Proof. intros [= <-]. apply wellFormed_error. right. by left. Qed.

Lemma wellFormed_errUnauthorized (c : container) :
  Ret (writeXML (Some errUnauthorized)) = Ret (XML c) -> wellFormed c.
Proof. intros [= <-]. apply wellFormed_error. right. right. by left. Qed.

Lemma wellFormed_ok (c : container) :
  XMLNS c = xmlNS -> Version c = apiVersion -> Status c = statusOK ->
  Error c = None -> (payloads c <= 1)%nat -> wellFormed c.
Proof. intros. split; [done|]. split; [done|]. by left. Qed.

Lemma getLicense_wellFormed (s : Server) (r : request) (c : container) :
  getLicense s r = Ret (XML c) -> wellFormed c.
Proof. intros [= <-]. apply wellFormed_ok; [done..|unfold payloads; simpl; lia]. Qed.

Lemma getMusicFolders_wellFormed (s : Server) (r : request) (c : container) :
  getMusicFolders s r = Ret (XML c) -> wellFormed c.
Proof. intros [= <-]. apply wellFormed_ok; [done..|unfold payloads; simpl; lia]. Qed.

Lemma ping_wellFormed (s : Server) (r : request) (c : container) :
  ping s r = Ret (XML c) -> wellFormed c.
Proof. intros [= <-]. apply wellFormed_ok; [done..|unfold payloads; simpl; lia]. Qed.

Lemma getIndexes_wellFormed (now : Z) (digitTable : Z -> bool) (s : Server)
  (r : request) (c : container) :
  getIndexes now digitTable s r = Ret (XML c) -> wellFormed c.
Proof.
  unfold getIndexes.
  destruct (List (db s)) as [paths|err];
    [|apply wellFormed_errGeneric].
  unfold mbind, outcome_bind.
  destruct (indexFiles paths) as [files| |]; [|done..].
  destruct (indexesLoop digitTable files (-1) [] ∅) as [indexes| |]; [|done..].
  intros [= <-]. apply wellFormed_ok; [done..|unfold payloads; simpl; lia].
Qed.

Lemma getMusicDirectory_wellFormed (s : Server) (r : request) (c : container) :
  getMusicDirectory s r = Ret (XML c) -> wellFormed c.
Proof.
  unfold getMusicDirectory.
  destruct (String.eqb _ ""); [apply wellFormed_errMissingParameter|].
  destruct (Strconv.Atoi _) as [id|]; [|apply wellFormed_errGeneric].
  destruct (List (db s)) as [paths|err];
    [|apply wellFormed_errGeneric].
  unfold mbind, outcome_bind.
  destruct (indexFiles paths) as [indexed| |]; [|done..].
  destruct (filterFiles indexed id) as [filtered| |]; [|done..].
  destruct (tagFiles (db s) filtered) as [files|err];
    [|apply wellFormed_errGeneric].
  destruct files as [|files0 files]; [done|].
  intros [= <-]. apply wellFormed_ok; [done..|unfold payloads; simpl; lia].
Qed.

Lemma stream_wellFormed (s : Server) (r : request) (c : container) :
  stream s r = Ret (XML c) -> wellFormed c.
Proof.
  unfold stream.
  destruct (String.eqb _ ""); [apply wellFormed_errMissingParameter|].
  destruct (Strconv.Atoi _) as [id|]; [|apply wellFormed_errGeneric].
  destruct (List (db s)) as [paths|err];
    [|apply wellFormed_errGeneric].
  unfold mbind, outcome_bind.
  destruct (indexFiles paths) as [files| |]; [|done..].
  destruct (_ <=? _); [done|].
  destruct (index_at files id) as [entry| |]; [|done..].
  destruct (Open (fs s) _) as [f|err];
    [|apply wellFormed_errGeneric].
  destruct (Stat f) as [modtime|err]; [done|].
  apply wellFormed_errGeneric.
Qed.

(** [ServeHTTP] answers by itself or hands the request to the
    multiplexer, and the latter only to a request that carries the
    configured user and password, neither of them empty. *)
Lemma ServeHTTP_cases (getIndexes : Server -> handler) (s : Server) (r : request) :
  rejected (ServeHTTP getIndexes s r) \/
  (ServeHTTP getIndexes s r = mux getIndexes s r /\
   Get (Query r) "u" = SubsonicUser (cfg s) /\
   decodePassword (Get (Query r) "p") = SubsonicPassword (cfg s) /\
   SubsonicUser (cfg s) <> "" /\ SubsonicPassword (cfg s) <> "").
Proof.
  unfold ServeHTTP, rejected.
  destruct (negb _ && negb _); [by left; left|].
  unfold parseContext.
  destruct (String.eqb_spec (Get (Query r) "u") ""); [by left; right; left|].
  destruct (String.eqb_spec (decodePassword (Get (Query r) "p")) "");
    [by left; right; left|].
  destruct (String.eqb (Get (Query r) "c") ""); [by left; right; left|].
  destruct (String.eqb (Get (Query r) "v") ""); [by left; right; left|].
  simpl.
  destruct (String.eqb_spec (Get (Query r) "u") (SubsonicUser (cfg s))) as [Hu|];
    [|by left; right; right].
  destruct (String.eqb_spec (decodePassword (Get (Query r) "p"))
              (SubsonicPassword (cfg s))) as [Hp|]; [|by left; right; right].
  simpl. right. split; [done|]. split; [done|]. split; [done|].
  split; congruence.
Qed.

Lemma DecodeString_length (s : string) :
  (2 * String.length (fst (Hex.DecodeString s)) <= String.length s)%nat.
Proof.
  revert s. fix IH 1. intros [|p [|q rest]]; simpl; [lia..|].
  destruct (Hex.fromHexChar p); [|simpl; lia].
  destruct (Hex.fromHexChar q); [|simpl; lia].
  specialize (IH rest). destruct (Hex.DecodeString rest) as [bs ok]. simpl in *. lia.
Qed.

Lemma drop_length (n : nat) (s : string) :
  String.length (Strings.drop n s) = (String.length s - n)%nat.
Proof.
  revert s. induction n as [|n IH]; intros s; simpl; [lia|].
  destruct s as [|a s]; simpl; [done|]. apply IH.
Qed.

(** What follows [enc:] decodes to fewer bytes than the parameter has. *)
Lemma decodePassword_shorter (p : string) :
  Strings.HasPrefix p "enc:" = true ->
  (String.length (decodePassword p) < String.length p)%nat.
Proof.
  intros Hp. unfold decodePassword, Strings.TrimPrefix. rewrite Hp. simpl negb. cbv iota.
  pose proof (DecodeString_length (Strings.drop (String.length "enc:") p)) as Hlen.
  rewrite drop_length in Hlen.
  apply HasPrefix_app in Hp as [t ->]. simpl in *. lia.
Qed.

End Envelopes.

(** ** Decimal identifiers *)

Section Identifiers.

Lemma parseDigits_acc (d : Decimal.uint) (p : positive) :
  Strconv.parseDigits (NilEmpty.string_of_uint d) (Z.pos p)
  = Some (Z.pos (Pos.of_uint_acc d p)).
Proof.
  revert p. induction d as [|d IH|d IH|d IH|d IH|d IH|d IH|d IH|d IH|d IH|d IH];
    intros p; [done|..];
    cbn [NilEmpty.string_of_uint Strconv.parseDigits Pos.of_uint_acc];
    (change (Strconv.digitVal _) with (Some 0) || change (Strconv.digitVal _) with (Some 1)
     || change (Strconv.digitVal _) with (Some 2) || change (Strconv.digitVal _) with (Some 3)
     || change (Strconv.digitVal _) with (Some 4) || change (Strconv.digitVal _) with (Some 5)
     || change (Strconv.digitVal _) with (Some 6) || change (Strconv.digitVal _) with (Some 7)
     || change (Strconv.digitVal _) with (Some 8) || change (Strconv.digitVal _) with (Some 9));
    cbv iota beta; rewrite <- IH; f_equal; lia.
Qed.

Lemma parseDigits_uint (d : Decimal.uint) :
  Strconv.parseDigits (NilEmpty.string_of_uint d) 0 = Some (Z.of_N (Pos.of_uint d)).
Proof.
  induction d as [|d IH|d IH|d IH|d IH|d IH|d IH|d IH|d IH|d IH|d IH];
    [done|exact IH|..];
    cbn [NilEmpty.string_of_uint Strconv.parseDigits Pos.of_uint];
    (change (Strconv.digitVal _) with (Some 1)
     || change (Strconv.digitVal _) with (Some 2) || change (Strconv.digitVal _) with (Some 3)
     || change (Strconv.digitVal _) with (Some 4) || change (Strconv.digitVal _) with (Some 5)
     || change (Strconv.digitVal _) with (Some 6) || change (Strconv.digitVal _) with (Some 7)
     || change (Strconv.digitVal _) with (Some 8) || change (Strconv.digitVal _) with (Some 9));
    cbv iota beta; apply parseDigits_acc.
Qed.

(** The digits of a positive number: a digit comes first, and they are
    read back as the number. *)
Lemma Atoi_digits (p : positive) (neg : bool) :
  let digits := NilZero.string_of_uint (Pos.to_uint p) in
  digits <> EmptyString /\
  Strconv.parseDigits digits 0 = Some (Z.pos p) /\
  match digits with
  | String c _ => Ascii.eqb c "-"%char = false /\ Ascii.eqb c "+"%char = false
  | EmptyString => True
  end.
Proof.
  cbv zeta. pose proof (DecimalPos.Unsigned.to_uint_nonnil p) as Hnil.
  pose proof (DecimalPos.Unsigned.of_to p) as Hof.
  destruct (Pos.to_uint p) as [|d|d|d|d|d|d|d|d|d|d] eqn:Hd; [done|..];
    (split; [done|]); (split; [|done]);
    unfold NilZero.string_of_uint;
    (rewrite parseDigits_uint, Hof; done).
Qed.

(** [Atoi] reads back what [Itoa] writes. *)
Lemma Atoi_Itoa (z : Z) :
  Strconv.minInt <= z <= Strconv.maxInt -> Strconv.Atoi (Strconv.Itoa z) = Some z.
Proof.
  intros Hz. unfold Strconv.Itoa. destruct z as [|p|p]; [done|..].
  - cbn [Z.to_int NilZero.string_of_int].
    destruct (Atoi_digits p false) as (Hne & Hparse & Hfirst).
    unfold Strconv.Atoi.
    destruct (NilZero.string_of_uint (Pos.to_uint p)) as [|c rest] eqn:Hs; [done|].
    destruct Hfirst as [-> ->]. rewrite Hparse.
    change (String.eqb (String c rest) "") with false. cbv iota.
    rewrite (proj2 (Z.leb_le _ _)), (proj2 (Z.leb_le _ _)) by lia. done.
  - cbn [Z.to_int NilZero.string_of_int].
    destruct (Atoi_digits p true) as (Hne & Hparse & _).
    unfold Strconv.Atoi. change (Ascii.eqb "-" "-") with true. cbv iota.
    destruct (NilZero.string_of_uint (Pos.to_uint p)) as [|c rest] eqn:Hs; [done|].
    change (String.eqb (String c rest) "") with false. cbv iota.
    rewrite Hparse.
    rewrite (proj2 (Z.leb_le _ _)), (proj2 (Z.leb_le _ _)) by lia. done.
Qed.

End Identifiers.

(** ** Paths below the music directory *)

Section Containment.

Import Filepath Strings.

Lemma Split_nonempty (s : string) : Split s <> [].
Proof. pose proof (Split_length s). by destruct (Split s). Qed.

Lemma Split_app_separator (s t : string) :
  Split (s +:+ String PathSeparator t) = Split s ++ Split t.
Proof.
  induction s as [|a s IH]; [done|].
  rewrite append_cons. simpl. rewrite IH.
  destruct (IsPathSeparator a); [done|].
  pose proof (Split_nonempty s). by destruct (Split s).
Qed.

Lemma cleanStep_Forall (P : string -> Prop) (rooted : bool) (st : list string)
  (e : string) :
  P e -> Forall P st -> Forall P (cleanStep rooted st e).
Proof.
  intros He Hst. unfold cleanStep.
  destruct (String.eqb e ""); [done|]. destruct (String.eqb e "."); [done|].
  destruct (String.eqb e "..").
  - destruct st as [|top st']; [destruct rooted; by repeat constructor|].
    inversion Hst; subst.
    destruct (String.eqb top ".."); [destruct rooted; by repeat constructor|done].
  - by constructor.
Qed.

Lemma clean_fold_Forall (P : string -> Prop) (rooted : bool) (l st : list string) :
  Forall P l -> Forall P st -> Forall P (fold_left (cleanStep rooted) l st).
Proof.
  revert st. induction l as [|e l IH]; intros st Hl Hst; simpl; [done|].
  inversion Hl; subst. apply IH; [done|]. by apply cleanStep_Forall.
Qed.

(** Without [".."] the scan of [Clean] only adds elements. *)
Lemma clean_fold_noParent (rooted : bool) (l st : list string) :
  Forall (fun e => e <> "..") l ->
  exists kept, fold_left (cleanStep rooted) l st = kept ++ st.
Proof.
  revert st. induction l as [|e l IH]; intros st Hl; simpl; [by exists []|].
  inversion Hl as [|? ? He Hl']; subst.
  assert (cleanStep rooted st e = st \/ cleanStep rooted st e = e :: st) as [-> | ->].
  { unfold cleanStep. destruct (String.eqb e ""); [by left|].
    destruct (String.eqb e "."); [by left|].
    destruct (String.eqb_spec e ".."); [done|by right]. }
  - by apply IH.
  - destruct (IH (e :: st) Hl') as [kept ->]. exists (kept ++ [e]).
    by rewrite <- app_assoc.
Qed.

Lemma append_assoc (s t u : string) : (s +:+ t) +:+ u = s +:+ (t +:+ u).
Proof. induction s as [|a s IH]; [done|]. rewrite !append_cons. by rewrite IH. Qed.

Lemma Join_app (a b : list string) :
  a <> [] -> b <> [] ->
  Join (a ++ b) = Join a +:+ String PathSeparator (Join b).
Proof.
  intros Ha Hb. induction a as [|x a IH]; [done|].
  destruct a as [|y a].
  - simpl. by destruct b.
  - change (Join ((x :: y :: a) ++ b))
      with (x +:+ String PathSeparator (Join ((y :: a) ++ b))).
    rewrite IH by done.
    change (Join (x :: y :: a)) with (x +:+ String PathSeparator (Join (y :: a))).
    by rewrite !append_assoc, append_cons.
Qed.

(** [Join] of a rooted directory and of a path without [".."] stays at
    or below the directory. *)
Lemma Join_under (root name : string) :
  isRooted root = true -> noParent name ->
  under (Clean root) (Filepath.Join root name).
Proof.
  intros Hroot Hname. unfold Filepath.Join.
  assert (root <> "") as Hne by by destruct root.
  cbn [List.filter]. rewrite (proj2 (String.eqb_neq _ _) Hne). cbn [negb].
  destruct (String.eqb_spec name "") as [->|Hn]; cbn [negb].
  { left. done. }
  change (Strings.Join [root; name]) with (root +:+ String PathSeparator name).
  unfold Clean. rewrite isRooted_app, Hroot by done.
  rewrite Split_app_separator, fold_left_app.
  set (st0 := fold_left (cleanStep true) (Split root) []).
  destruct (clean_fold_noParent true (Split name) st0 Hname) as [kept ->].
  rewrite rev_app_distr.
  destruct kept as [|k kept _] using rev_ind; [left; by rewrite app_nil_r|].
  right. rewrite rev_app_distr. simpl.
  destruct (rev st0) as [|x l] eqn:Hrev.
  - exists (Join (k :: rev kept)). split; [reflexivity|left; reflexivity].
  - exists (String PathSeparator (Join (k :: rev kept))). split; [|right; apply HasPrefix_app; eexists; reflexivity].
    rewrite Join_app by done. by rewrite append_cons.
Qed.

Lemma Split_no_separator_eq (e : string) :
  Contains e PathSeparator = false -> Split e = [e].
Proof.
  induction e as [|a e IH]; [done|]. simpl. unfold IsPathSeparator.
  destruct (Ascii.eqb a PathSeparator); [done|]. intros He. by rewrite IH.
Qed.

Lemma Split_Join (l : list string) :
  l <> [] -> Forall (fun e => Contains e PathSeparator = false) l ->
  Split (Join l) = l.
Proof.
  intros Hne Hl. induction l as [|e l IH]; [done|].
  inversion Hl as [|? ? He Hl']; subst.
  destruct l as [|e2 l]; [by apply Split_no_separator_eq|].
  change (Join (e :: e2 :: l)) with (e +:+ String PathSeparator (Join (e2 :: l))).
  rewrite Split_app_separator, Split_no_separator_eq, IH by done. done.
Qed.

(** The elements of [upToLastSeparator p] are those of [p] but the last,
    and an empty one. *)
Lemma Split_upToLastSeparator (p : string) :
  upToLastSeparator p = "" \/
  exists e es es',
    Split p = e :: es /\ Split (upToLastSeparator p) = e :: es' /\
    forall P : string -> Prop, P "" -> Forall P es -> Forall P es'.
Proof.
  induction p as [|a p IH]; [by left|]. simpl.
  destruct (IsPathSeparator a) eqn:Ha.
  - right. simpl. rewrite Ha. exists "", (Split p), (Split (upToLastSeparator p)).
    split; [done|]. split; [done|]. intros P Hempty Hall.
    destruct IH as [->|(e & es & es' & Hp & Hup & Hsub)]; [by constructor|].
    rewrite Hp in Hall. rewrite Hup. inversion Hall; subst.
    constructor; [done|]. by apply Hsub.
  - destruct (String.eqb_spec (upToLastSeparator p) "") as [|Hr]; [by left|].
    destruct IH as [|(e & es & es' & Hp & Hup & Hsub)]; [done|].
    right. simpl. rewrite Ha, Hp, Hup. by exists (String a e), es, es'.
Qed.

Lemma Split_Clean (P : string -> Prop) (q : string) :
  P "" -> P "." -> Forall P (Split q) -> Forall P (Split (Clean q)).
Proof.
  intros Hempty Hdot Hq. unfold Clean.
  pose proof (clean_fold_Forall P (isRooted q) (Split q) [] Hq (Forall_nil_2 _)) as HP.
  pose proof (clean_fold_elements (isRooted q) (Split q) [] (Split_no_separator q)
                (Forall_nil_2 _)) as Hel.
  set (st := fold_left (cleanStep (isRooted q)) (Split q) []) in *.
  apply Forall_rev in HP, Hel.
  assert (Forall P (Split (Join (rev st)))) as Hbody.
  { destruct (rev st) as [|e l] eqn:Hrev; [by repeat constructor|].
    rewrite Split_Join; [done..|].
    eapply Forall_impl; [exact Hel|]. by intros x [_ Hx]. }
  destruct (isRooted q).
  - simpl. by constructor.
  - destruct (String.eqb (Join (rev st)) ""); [by repeat constructor|done].
Qed.

Lemma noParent_Dir (p : string) : noParent p -> noParent (Dir p).
Proof.
  intros Hp. unfold noParent, Dir. apply Split_Clean; [done..|].
  destruct (Split_upToLastSeparator p) as [->|(e & es & es' & Hsplit & Hup & Hsub)];
    [by repeat constructor|].
  unfold noParent in Hp. rewrite Hsplit in Hp. rewrite Hup.
  inversion Hp; subst. constructor; [done|]. by apply Hsub.
Qed.

Lemma noParent_iter_Dir (k : nat) (p : string) :
  noParent p -> noParent (Nat.iter k Dir p).
Proof. intros Hp. induction k as [|k IH]; [done|]. simpl. by apply noParent_Dir. Qed.

End Containment.

(** No entry of the index of paths without [".."] has one. *)
Lemma indexFiles_noParent (paths : list string) (index : list indexedFile)
  (e : indexedFile) :
  indexFiles paths = Ret index -> Forall noParent paths -> e ∈ index ->
  noParent (Name e).
Proof.
  intros Hindex Hpaths He. rewrite Forall_forall in Hpaths.
  destruct (indexFiles_inv _ _ Hindex) as (seen & [_ Hseen _ _ _] & Hanc).
  destruct (Dir e) eqn:Hdir.
  - assert (Name e ∈ seen) as Hin.
    { apply Hseen. unfold dirNames. apply list_elem_of_fmap. exists e. split; [done|].
      apply list_elem_of_In, List.filter_In. split; [by apply list_elem_of_In|done]. }
    apply Hanc in Hin as (f & Hf & _ & k & _ & <-).
    apply noParent_iter_Dir. by apply Hpaths.
  - apply Hpaths.
    pose proof (indexLoop_fileNames paths ∅ [] index Hindex) as Hnames.
    simpl in Hnames. rewrite <- Hnames.
    unfold fileNames. apply list_elem_of_fmap. exists e. split; [done|].
    apply list_elem_of_In, List.filter_In. split; [by apply list_elem_of_In|].
    by rewrite Hdir.
Qed.

(** ** The last element of a path *)

Section LastElement.

Import Filepath Strings.

Lemma stripTrailingSeparators_split (p : string) :
  exists slashes, p = stripTrailingSeparators p +:+ slashes /\
                  onlySeparators slashes = true.
Proof.
  induction p as [|a p (slashes & Hp & Hsl)]; [by exists ""|].
  simpl. destruct (IsPathSeparator a) eqn:Ha; simpl.
  - destruct (String.eqb_spec (stripTrailingSeparators p) "") as [Hr|Hr].
    + exists (String a slashes). rewrite Hr in Hp. simpl in Hp. split; [by rewrite Hp|].
      simpl. by rewrite Ha.
    + exists slashes. split; [|done]. rewrite append_cons. by rewrite <- Hp.
  - exists slashes. split; [|done]. rewrite append_cons. by rewrite <- Hp.
Qed.

Lemma stripTrailingSeparators_end (p q : string) :
  stripTrailingSeparators p <> q +:+ "/".
Proof.
  revert q. induction p as [|a p IH]; intros q; simpl; [by destruct q|].
  destruct (IsPathSeparator a && String.eqb (stripTrailingSeparators p) "") eqn:Hcond;
    [by destruct q|].
  destruct q as [|b q].
  - intros [= -> Hr]. rewrite Hr in Hcond. done.
  - rewrite append_cons. intros [= _ Hr]. by apply (IH q).
Qed.

Lemma onlySeparators_strip (p : string) :
  stripTrailingSeparators p = "" -> onlySeparators p = true.
Proof.
  intros Hp. destruct (stripTrailingSeparators_split p) as (slashes & Hsplit & Hsl).
  rewrite Hp in Hsplit. simpl in Hsplit. by rewrite Hsplit.
Qed.

(** [Base] answers the last element of the path. *)
Lemma Base_lastElement (dir : string) : lastElement dir (Base dir).
Proof.
  unfold Base. destruct (String.eqb_spec dir "") as [Hdir|Hdir];
    [by apply lastElement_empty|].
  destruct (stripTrailingSeparators_split dir) as (slashes & Hsplit & Hsl).
  pose proof (afterLastSeparator_segment (stripTrailingSeparators dir)) as [Hsep Hseg].
  set (seg := afterLastSeparator (stripTrailingSeparators dir)) in *.
  destruct (String.eqb_spec seg "") as [Hempty|Hne].
  - apply lastElement_root; [done|]. apply onlySeparators_strip.
    destruct Hseg as [Hseg|[d Hseg]]; [congruence|].
    rewrite Hempty in Hseg. by apply stripTrailingSeparators_end in Hseg.
  - destruct Hseg as [Hseg|[d Hseg]].
    + apply (lastElement_path dir "" seg slashes); [|done|done|done|by left].
      simpl. by rewrite <- Hseg.
    + apply (lastElement_path dir (d +:+ "/") seg slashes); [|done|done|done|right; eauto].
      rewrite Hsplit at 1. rewrite Hseg. by rewrite !append_assoc.
Qed.

Lemma stripTrailingSeparators_only (p : string) :
  onlySeparators p = true -> stripTrailingSeparators p = "".
Proof.
  induction p as [|a p IH]; [done|]. simpl.
  intros [Ha Hp]%andb_true_iff. by rewrite Ha, (IH Hp).
Qed.

Lemma stripTrailingSeparators_app (p slashes : string) :
  onlySeparators slashes = true ->
  stripTrailingSeparators (p +:+ slashes) = stripTrailingSeparators p.
Proof.
  intros Hsl. induction p as [|a p IH]; [by apply stripTrailingSeparators_only|].
  rewrite append_cons. simpl. by rewrite IH.
Qed.

Lemma stripTrailingSeparators_element (parent name : string) :
  name <> "" -> Contains name PathSeparator = false ->
  stripTrailingSeparators (parent +:+ name) = parent +:+ name.
Proof.
  intros Hne Hsep. induction parent as [|a parent IH].
  - clear Hne. change ("" +:+ name) with name.
    induction name as [|b name IHn]; [done|]. simpl in *.
    unfold IsPathSeparator. destruct (Ascii.eqb b PathSeparator); [done|].
    simpl. by rewrite (IHn Hsep).
  - rewrite append_cons. simpl. rewrite IH.
    destruct (String.eqb_spec (parent +:+ name) "") as [Hempty|_];
      [by destruct parent, name|].
    by rewrite andb_false_r.
Qed.

Lemma afterLastSeparator_element (name : string) :
  Contains name PathSeparator = false -> afterLastSeparator name = name.
Proof.
  destruct name as [|a name]; [done|]. simpl. unfold IsPathSeparator.
  destruct (Ascii.eqb a PathSeparator); [done|]. by intros ->.
Qed.

Lemma Contains_separator (q name : string) :
  Contains (q +:+ String PathSeparator name) PathSeparator = true.
Proof.
  induction q as [|a q IH]; [done|]. rewrite append_cons. simpl.
  by destruct (Ascii.eqb a PathSeparator).
Qed.

Lemma afterLastSeparator_app (q name : string) :
  Contains name PathSeparator = false ->
  afterLastSeparator (q +:+ String PathSeparator name) = name.
Proof.
  intros Hsep. induction q as [|a q IH].
  - simpl. by rewrite Hsep.
  - rewrite append_cons. simpl. by rewrite Contains_separator.
Qed.

(** The last element of a path is what [Base] answers, and nothing
    else. *)
Lemma lastElement_Base (dir name : string) :
  lastElement dir name -> Base dir = name.
Proof.
  intros [->|Hdir Honly|parent name' slashes -> Hne Hsep Hsl Hparent]; [done|..].
  - unfold Base. rewrite (proj2 (String.eqb_neq _ _) Hdir).
    by rewrite stripTrailingSeparators_only.
  - unfold Base.
    assert (parent +:+ name' +:+ slashes <> "") as Hdir
      by (by destruct parent, name').
    rewrite (proj2 (String.eqb_neq _ _) Hdir).
    rewrite <- append_assoc, stripTrailingSeparators_app by done.
    rewrite stripTrailingSeparators_element by done.
    assert (afterLastSeparator (parent +:+ name') = name') as ->.
    { destruct Hparent as [->|[q ->]]; [by apply afterLastSeparator_element|].
      rewrite append_assoc. by apply afterLastSeparator_app. }
    by rewrite (proj2 (String.eqb_neq _ _) Hne).
Qed.

End LastElement.

(** ** The tests of the repository and of the library, on the model *)

Section Tests.

(** Rows of the library's own tables for [Clean], [Dir], [Base], [Ext] and
    [Join]. *)
Example Clean_table :
  (fun p => Filepath.Clean p) <$>
    ["abc"; "../../abc"; "/"; ""; "abc/def/"; "abc//def//ghi"; "abc/./def";
     "abc/def/ghi/../jkl"; "abc/def/../../.."; "/abc/def/../../..";
     "abc/def/../../../ghi/jkl/../../../mno"; "/../abc"; "abc/../../././../def"]
  = ["abc"; "../../abc"; "/"; "."; "abc/def"; "abc/def/ghi"; "abc/def";
     "abc/def/jkl"; ".."; "/"; "../../mno"; "/abc"; "../../def"].
Proof. reflexivity. Qed.

Example Dir_table :
  (fun p => Filepath.Dir p) <$>
    [""; "."; "/."; "/"; "////"; "/foo"; "x/"; "abc"; "abc/def"; "a/b/.x"; "a/b/c."]
  = ["."; "."; "/"; "/"; "/"; "/"; "x"; "."; "abc"; "a/b"; "a/b"].
Proof. reflexivity. Qed.

Example Base_table :
  (fun p => Filepath.Base p) <$>
    [""; "."; "/."; "/"; "////"; "x/"; "abc"; "abc/def"; "a/b/.x"; "a/b/c.x"]
  = ["."; "."; "."; "/"; "/"; "x"; "abc"; "def"; ".x"; "c.x"].
Proof. reflexivity. Qed.

Example Ext_table :
  (fun p => Filepath.Ext p) <$>
    ["path.go"; "path.pb.go"; "a.dir/b"; "a.dir/b.go"; "a.dir/"]
  = [".go"; ".go"; ""; ".go"; ""].
Proof. reflexivity. Qed.

Example Join_table :
  (fun p => Filepath.Join (fst p) (snd p)) <$>
    [("a", "b"); ("a", ""); ("", "b"); ("/", "a"); ("/", ""); ("a/", "b"); ("", "");
     ("/var/music", "foo/bar.ogg")]
  = ["a/b"; "a"; "b"; "/a"; "/"; "a/b"; ""; "/var/music/foo/bar.ogg"].
Proof. reflexivity. Qed.

Example Atoi_table :
  Strconv.Atoi <$> ["0"; "12"; "-1"; "+7"; ""; "-"; "foo"; "1_0";
                    "9223372036854775807"; "9223372036854775808"]
  = [Some 0; Some 12; Some (-1); Some 7; None; None; None; None;
     Some 9223372036854775807; None].
Proof. reflexivity. Qed.

Example DecodeString_table :
  Hex.DecodeString <$> ["74657374"; "00"; "zz"; "7465zz"; "746"]
  = [("test", true); (String (ascii_of_nat 0) "", true); ("", false);
     ("te", false); ("t", false)].
Proof. reflexivity. Qed.

(** [Test_stack]. *)
Example Test_stack :
  let s := Push (Push (Push [] "foo") "bar") "baz" in
  let '(a, s1) := Pop s in
  let '(b, s2) := Pop s1 in
  let '(c, s3) := Pop s2 in
  let '(d, _) := Pop s3 in
  [a; b; c; d] = ["baz"; "bar"; "foo"; ""].
Proof. reflexivity. Qed.

(** [Test_indexFiles]. *)
Example Test_indexFiles_no_files : indexFiles [] = Ret [].
Proof. reflexivity. Qed.

Example Test_indexFiles_nested_folders :
  indexFiles ["bar/baz/qux/bar.mp3"; "foo.mp3"]
  = Ret [ {| ID := 0; Name := "bar"; Dir := true |};
          {| ID := 1; Name := "bar/baz"; Dir := true |};
          {| ID := 2; Name := "bar/baz/qux"; Dir := true |};
          {| ID := 3; Name := "bar/baz/qux/bar.mp3"; Dir := false |};
          {| ID := 4; Name := "foo.mp3"; Dir := false |} ].
Proof. reflexivity. Qed.

Example Test_indexFiles_artists_and_albums :
  indexFiles
    [ "Boston/1976 - Boston/01 - More Than A Feeling.flac";
      "Boston/1976 - Boston/02 - Peace Of Mind.flac";
      "Jimmy Eat World/1999 - Clarity/01 - Table for Glasses.flac";
      "Jimmy Eat World/1999 - Clarity/02 - Lucky Denver Mint.flac";
      "Jimmy Eat World/2001 - Bleed American/01 - Bleed American.flac" ]
  = Ret
      [ {| ID := 0; Name := "Boston"; Dir := true |};
        {| ID := 1; Name := "Boston/1976 - Boston"; Dir := true |};
        {| ID := 2; Name := "Boston/1976 - Boston/01 - More Than A Feeling.flac";
           Dir := false |};
        {| ID := 3; Name := "Boston/1976 - Boston/02 - Peace Of Mind.flac";
           Dir := false |};
        {| ID := 4; Name := "Jimmy Eat World"; Dir := true |};
        {| ID := 5; Name := "Jimmy Eat World/1999 - Clarity"; Dir := true |};
        {| ID := 6;
           Name := "Jimmy Eat World/1999 - Clarity/01 - Table for Glasses.flac";
           Dir := false |};
        {| ID := 7;
           Name := "Jimmy Eat World/1999 - Clarity/02 - Lucky Denver Mint.flac";
           Dir := false |};
        {| ID := 8; Name := "Jimmy Eat World/2001 - Bleed American"; Dir := true |};
        {| ID := 9;
           Name := "Jimmy Eat World/2001 - Bleed American/01 - Bleed American.flac";
           Dir := false |} ].
Proof. vm_compute. reflexivity. Qed.

(** [Test_filterFiles]; the entries of the test carry names only. *)
Example Test_filterFiles :
  let named := fun n => {| ID := 0; Name := n; Dir := false |} in
  let run := fun names start => filterFiles (named <$> names) start in
  run [] 0 = Ret [] /\
  run ["foo"] 1 = Ret [] /\
  run ["foo"; "bar"] 0 = Ret [] /\
  run ["foo"; "foo/bar"; "bar"] 0 = Ret [named "foo/bar"] /\
  run ["foo"; "foo/bar"; "foo/foo.mp3"; "foo/bar/bar.mp3"; "bar"] 0
  = Ret [named "foo/bar"; named "foo/foo.mp3"] /\
  run ["foo"; "foo/bar"; "foo/foo.mp3"; "foo/bar/bar.mp3"; "bar"; "bar/baz";
       "bar/baz/qux.mp3"; "bar/baz.mp3"; "baz"] 4
  = Ret [named "bar/baz"; named "bar/baz.mp3"] /\
  run ["foo"; "foo/bar"; "foo/foo.mp3"; "foo/bar/bar.mp3"; "bar"; "bar/baz";
       "bar/baz/qux.mp3"; "bar/baz.mp3"] 4
  = Ret [named "bar/baz"; named "bar/baz.mp3"] /\
  run ["foo"] 0 = Ret [].
Proof. cbv zeta. repeat split; reflexivity. Qed.

(** [Test_tagFiles]. *)
Example Test_tagFiles_nested : tagFiles nestedDatabase nestedFiles = inl nestedTagged.
Proof. vm_compute. reflexivity. Qed.

(** [TestServerServeHTTP], but for its case of the token and salt, on
    which the code and the test differ. *)
Example TestServerServeHTTP (getIndexes : Server -> handler) :
  let serve := fun (user password method : string) (values : list (string * string)) =>
    ServeHTTP getIndexes
      {| db := memoryDatabase [] ∅; fs := memoryFilesystem 0 ∅;
         cfg := {| SubsonicUser := user; SubsonicPassword := password;
                   MusicDirectory_ := ""; Verbose := false; Keepalive := 0 |} |}
      {| Method := method; Path := "/rest/ping.view";
         Query := list_to_map ((fun kv => (fst kv, [snd kv])) <$> values);
         Header := ∅ |} in
  serve "" "" "PUT" [] = Ret (HTTPError 405 "method not allowed") /\
  serve "" "" "GET" [] = Ret (writeXML (Some errMissingParameter)) /\
  serve "" "" "GET" [("u", "test"); ("p", "test")]
  = Ret (writeXML (Some errMissingParameter)) /\
  serve "" "" "GET" [("u", "test"); ("c", "test"); ("v", "1.14.0")]
  = Ret (writeXML (Some errMissingParameter)) /\
  serve "" "" "GET" [("u", "test"); ("t", "test"); ("c", "test"); ("v", "1.14.0")]
  = Ret (writeXML (Some errMissingParameter)) /\
  serve "test" "test" "GET" [("u", "foo"); ("p", "test"); ("c", "test"); ("v", "1.14.0")]
  = Ret (writeXML (Some errUnauthorized)) /\
  serve "test" "test" "GET" [("u", "test"); ("p", "foo"); ("c", "test"); ("v", "1.14.0")]
  = Ret (writeXML (Some errUnauthorized)) /\
  serve "test" "test" "GET" [("u", "test"); ("p", "enc:00"); ("c", "test"); ("v", "1.14.0")]
  = Ret (writeXML (Some errUnauthorized)) /\
  serve "test" "test" "GET" [("u", "test"); ("p", "test"); ("c", "test"); ("v", "1.14.0")]
  = Ret (writeXML None) /\
  serve "test" "test" "GET"
    [("u", "test"); ("p", "enc:74657374"); ("c", "test"); ("v", "1.14.0")]
  = Ret (writeXML None).
Proof. cbv zeta. repeat split; vm_compute; reflexivity. Qed.

(** [TestServer_getMusicFolders]. *)
Example TestServer_getMusicFolders :
  let folders := fun dir =>
    match getMusicFolders (testServer dir [] ∅ ∅)
            (testRequest "/rest/getMusicFolders.view" "") with
    | Ret (XML c) => MusicFolders c
    | _ => None
    end in
  folders "/var/music" = Some [ {| musicFolder_ID := 0; musicFolder_Name := "music" |} ] /\
  folders "/srv/media/Music/FLAC"
  = Some [ {| musicFolder_ID := 0; musicFolder_Name := "FLAC" |} ].
Proof. cbv zeta. split; reflexivity. Qed.

(** [TestServer_stream]. *)
Example TestServer_stream :
  let s := testServer "/var/music" ["foo.mp3"; "foo/bar.ogg"; "foo/bar/baz.flac"] ∅
             {[ "/var/music/foo.mp3" := "mp3"; "/var/music/foo/bar.ogg" := "ogg";
                "/var/music/foo/bar/baz.flac" := "flac" ]} in
  let empty := testServer "/var/music" [] ∅ ∅ in
  let get := fun server id =>
    ServeHTTP (fun _ _ => Ret NotFound) server
      {| Method := MethodGet; Path := "/rest/stream.view";
         Query := if String.eqb id "" then snd configAuth
                  else Set_ (snd configAuth) "id" id;
         Header := ∅ |} in
  get empty "" = Ret (writeXML (Some errMissingParameter)) /\
  get empty "foo" = Ret (writeXML (Some errGeneric)) /\
  get empty "0" = Ret NotFound /\
  match get s "4" with
  | Ret (ServeContent _ name modtime content) => Some (name, modtime, content)
  | _ => None
  end = Some ("/var/music/foo/bar/baz.flac", 0, "flac").
Proof. cbv zeta. repeat split; vm_compute; reflexivity. Qed.

(** Runes decoded and encoded as the tables of [unicode/utf8] have
    them: one to four bytes, and [RuneError] with width 1 for a stray
    continuation byte, a truncated sequence, a surrogate, an overlong
    form and a value out of range. *)
Example DecodeRuneInString_table :
  let bytes := fun l : list Z => string_of_list_ascii (Utf8.char <$> l) in
  Utf8.DecodeRuneInString "A" = (65, 1%nat) /\
  Utf8.DecodeRuneInString (bytes [195; 169]) = (233, 2%nat) /\
  Utf8.DecodeRuneInString (bytes [226; 130; 172]) = (8364, 3%nat) /\
  Utf8.DecodeRuneInString (bytes [240; 159; 152; 128]) = (128512, 4%nat) /\
  Utf8.DecodeRuneInString "" = (Utf8.RuneError, 0%nat) /\
  Utf8.DecodeRuneInString (bytes [128]) = (Utf8.RuneError, 1%nat) /\
  Utf8.DecodeRuneInString (bytes [226; 130]) = (Utf8.RuneError, 1%nat) /\
  Utf8.DecodeRuneInString (bytes [237; 160; 128]) = (Utf8.RuneError, 1%nat) /\
  Utf8.DecodeRuneInString (bytes [192; 128]) = (Utf8.RuneError, 1%nat) /\
  Utf8.DecodeRuneInString (bytes [244; 144; 128; 128]) = (Utf8.RuneError, 1%nat).
Proof. cbv zeta. repeat split; vm_compute; reflexivity. Qed.

Example EncodeRune_table :
  let bytes := fun l : list Z => string_of_list_ascii (Utf8.char <$> l) in
  Utf8.EncodeRune 65 = "A" /\
  Utf8.EncodeRune 233 = bytes [195; 169] /\
  Utf8.EncodeRune 8364 = bytes [226; 130; 172] /\
  Utf8.EncodeRune 128512 = bytes [240; 159; 152; 128] /\
  Utf8.EncodeRune 55296 = bytes [239; 191; 189] /\
  Utf8.EncodeRune (-1) = bytes [239; 191; 189] /\
  Utf8.EncodeRune 1114112 = bytes [239; 191; 189].
Proof. cbv zeta. repeat split; vm_compute; reflexivity. Qed.

(** [TestServer_getLicense]. *)
Example TestServer_getLicense :
  match ServeHTTP (getIndexes 0 (fun _ => false)) (testServer "" [] ∅ ∅)
          {| Method := MethodGet; Path := "/rest/getLicense.view";
             Query := snd configAuth;
             Header := ∅ |} with
  | Ret (XML c) => License c = Some {| Valid := true |}
  | _ => False
  end.
Proof. vm_compute. reflexivity. Qed.

(** [TestServer_getIndexes]. *)
Example TestServer_getIndexes :
  let indexes := fun files =>
    match ServeHTTP (getIndexes 0 (fun _ => false)) (testServer "" files ∅ ∅)
            {| Method := MethodGet; Path := "/rest/getIndexes.view";
               Query := snd configAuth;
               Header := ∅ |} with
    | Ret (XML c) => Indexes_ <$> Indexes c
    | _ => None
    end in
  let a := fun name id => {| artist_Name := name; artist_ID := id |} in
  indexes ["A.mp3"]
  = Some [ {| index_Name := "A"; Artists := [a "A.mp3" "0"] |} ] /\
  indexes ["A.mp3"; "B/B.mp3"]
  = Some [ {| index_Name := "A"; Artists := [a "A.mp3" "0"] |};
           {| index_Name := "B"; Artists := [a "B" "1"] |} ] /\
  indexes ["Apple/A.mp3"; "Banana/B.mp3"; "Blueberry/B.mp3"]
  = Some [ {| index_Name := "A"; Artists := [a "Apple" "0"] |};
           {| index_Name := "B"; Artists := [a "Banana" "2"; a "Blueberry" "4"] |} ] /\
  indexes ["123/abc/abc.mp3"; "456/def/def.mp3"; "Apple/A.mp3"; "Banana/B.mp3";
           "Blueberry/B.mp3"]
  = Some [ {| index_Name := "#"; Artists := [a "123" "0"; a "456" "3"] |};
           {| index_Name := "A"; Artists := [a "Apple" "6"] |};
           {| index_Name := "B"; Artists := [a "Banana" "8"; a "Blueberry" "10"] |} ].
Proof. cbv zeta. repeat split; vm_compute; reflexivity. Qed.

(** An artist whose initial was met before the last index was created is
    appended to that last index: here ["Avocado"] under ["B"]. *)
Example getIndexes_appends_to_last_index :
  match getIndexes 0 (fun _ => false)
          (testServer "" ["Apple/A.mp3"; "Banana/B.mp3"; "Avocado/C.mp3"] ∅ ∅)
          (testRequest "/rest/getIndexes.view" "") with
  | Ret (XML c) => Indexes_ <$> Indexes c
  | _ => None
  end
  = Some [ {| index_Name := "A";
              Artists := [ {| artist_Name := "Apple"; artist_ID := "0" |} ] |};
           {| index_Name := "B";
              Artists := [ {| artist_Name := "Banana"; artist_ID := "2" |};
                           {| artist_Name := "Avocado"; artist_ID := "4" |} ] |} ].
Proof. vm_compute. reflexivity. Qed.

(** [TestServer_getMusicDirectory]; of the children, what the test
    compares. *)
Example TestServer_getMusicDirectory :
  let get := fun files attrs id =>
    ServeHTTP (getIndexes 0 (fun _ => false)) (testServer "" files attrs ∅)
      {| Method := MethodGet; Path := "/rest/getMusicDirectory.view";
         Query := if String.eqb id "" then snd configAuth
                  else Set_ (snd configAuth) "id" id;
         Header := ∅ |} in
  get [] ∅ "" = Ret (writeXML (Some errMissingParameter)) /\
  get [] ∅ "foo" = Ret (writeXML (Some errGeneric)) /\
  get [] ∅ "0" = Ret NotFound /\
  match get ["foo/foo.mp3"; "foo/bar.mp3"; "foo/bar/baz.mp3"; "bar/bar.mp3"]
          {[ "foo/foo.mp3" := ({[ "TITLE" := "foo" ]} : gmap string string);
             "foo/bar.mp3" := ({[ "TITLE" := "bar" ]} : gmap string string) ]} "0" with
  | Ret (XML c) =>
      (fun mdc => (directory_ID mdc, directory_Name mdc,
                   (fun ch => (child_ID ch, child_Title ch, child_IsDir ch))
                     <$> Children mdc)) <$> MusicDirectory c
  | _ => None
  end
  = Some ("0", "foo/foo.mp3", [("1", "foo", false); ("2", "bar", false); ("3", "bar", true)]).
Proof. cbv zeta. repeat split; vm_compute; reflexivity. Qed.

(** A path the database lists with a [".."] element is joined and cleaned
    like any other, and the file served lies outside of the music
    directory. *)
Example stream_follows_parent_elements :
  stream (testServer "/var/music" ["../secret.mp3"] ∅ {[ "/var/secret.mp3" := "x" ]})
    (testRequest "/rest/stream.view" "1")
  = Ret (ServeContent (testRequest "/rest/stream.view" "1") "/var/secret.mp3" 0 "x").
Proof. vm_compute. reflexivity. Qed.

End Tests.

(** * The properties of the specification *)

(** C6, as amended.  For every list of relative paths the builder returns
    an index with exactly (number of distinct ancestor directories across
    all paths) + (number of paths) entries, in which no path appears twice
    as a directory entry and no id is assigned twice. *)
Theorem indexFiles_entry_count (paths : list string) :
  Forall relative paths -> countedIndex paths.
Proof.
  intros Hrel.
  destruct (indexLoop_total paths ∅ [] Hrel) as [index Hindex].
  change (indexFiles paths = Ret index) in Hindex.
  destruct (indexFiles_inv _ _ Hindex) as (seen & [Hids Hseen Hnd Hpar Hlen] & Hanc).
  exists index, seen. repeat split; try done.
  - by apply Hanc.
  - by apply Hanc.
  - apply NoDup_alt. intros i j x Hi Hj.
    apply list_lookup_fmap_Some in Hi as (e & -> & He).
    apply list_lookup_fmap_Some in Hj as (e' & Heq & He').
    apply Hids in He, He'. lia.
Qed.

Lemma indexFiles_entry_count_witness :
  Forall relative ["Boston/1976 - Boston/01.flac"; "Boston/1976 - Boston/02.flac"] /\
  countedIndex ["Boston/1976 - Boston/01.flac"; "Boston/1976 - Boston/02.flac"].
Proof.
  split; [by repeat constructor|].
  apply (indexFiles_entry_count
           ["Boston/1976 - Boston/01.flac"; "Boston/1976 - Boston/02.flac"]).
  by repeat constructor.
Defined.

(** C6, as stated, fails on a rooted path: the walk up from ["/a.mp3"]
    stays at the root, whatever the number of iterations, and the builder
    returns no index. *)
Lemma indexFiles_rooted_no_index :
  (forall (fuel : nat) (seen : gset string) (dirs : stack),
     collectDirs fuel (Filepath.Dir "/a.mp3") seen dirs = None) /\
  indexFiles ["/a.mp3"] = Diverge /\
  ~ countedIndex ["/a.mp3"].
Proof.
  split; [|split].
  - intros fuel seen dirs. by apply collectDirs_rooted.
  - reflexivity.
  - intros (index & dirs & Hindex & _). discriminate Hindex.
Qed.

(** C7.  In every index produced by the builder, every ancestor directory
    of a file entry has a directory entry, each directory entry's id is
    strictly lower than the id of every file entry whose path it is a
    (transitive) ancestor of, and of two ancestors of a file the one
    reached by going up further (the shallower one) has the lower id. *)
Theorem indexFiles_directories_first (paths : list string) (index : list indexedFile) :
  indexFiles paths = Ret index ->
  (forall (file : indexedFile) (a : string),
     file ∈ index -> Dir file = false -> ancestor a (Name file) ->
     exists d, d ∈ index /\ Dir d = true /\ Name d = a /\ ID d < ID file) /\
  (forall d file : indexedFile,
     d ∈ index -> file ∈ index -> Dir d = true -> Dir file = false ->
     ancestor (Name d) (Name file) -> ID d < ID file) /\
  (forall (file d1 d2 : indexedFile) (j k : nat),
     file ∈ index -> Dir file = false ->
     d1 ∈ index -> d2 ∈ index -> Dir d1 = true -> Dir d2 = true ->
     (0 < k < j)%nat ->
     Name d1 = Nat.iter j Filepath.Dir (Name file) ->
     Name d2 = Nat.iter k Filepath.Dir (Name file) ->
     Name d1 <> "." ->
     ID d1 < ID d2).
Proof.
  intros Hindex.
  destruct (indexFiles_inv _ _ Hindex) as (seen & [Hids Hseen Hnd Hpar Hlen] & Hanc).
  assert (forall (e : indexedFile) (p k : nat), index !! p = Some e -> (0 < k)%nat ->
            Nat.iter k Filepath.Dir (Name e) <> "." ->
            forall d, d ∈ index -> Dir d = true ->
                      Name d = Nat.iter k Filepath.Dir (Name e) -> ID d < ID e) as Hlow.
  { intros e p k Hp Hk Hne d Hd Hdir Hname.
    destruct (ancestor_before _ _ _ _ Hpar Hp Hk Hne) as (i & d' & Hi & Hd' & Hdir' & Hname').
    apply list_elem_of_lookup in Hd as [i' Hd].
    assert (i' = i) as -> by (eapply dirNames_unique; eauto; congruence).
    rewrite (Hids _ _ Hd), (Hids _ _ Hp). lia. }
  split; [|split].
  - intros file a Hfile Hdir (Ha & k & Hk & <-).
    apply list_elem_of_lookup in Hfile as [p Hp].
    destruct (ancestor_before _ _ _ _ Hpar Hp Hk Ha) as (i & d & Hi & Hd & Hdird & Hname).
    exists d. split; [by eapply list_elem_of_lookup_2|]. split; [done|]. split; [done|].
    rewrite (Hids _ _ Hd), (Hids _ _ Hp). lia.
  - intros d file Hd Hfile Hdird Hdirf (Ha & k & Hk & Hname).
    apply list_elem_of_lookup in Hfile as [p Hp].
    eapply Hlow; eauto. by rewrite Hname.
  - intros file d1 d2 j k _ _ Hd1 Hd2 Hdir1 Hdir2 Hjk Hn1 Hn2 Hne.
    apply list_elem_of_lookup in Hd2 as [p Hp].
    assert (Name d1 = Nat.iter (j - k) Filepath.Dir (Name d2)) as Hrel.
    { rewrite Hn1, Hn2, <- Nat.iter_add. f_equal. lia. }
    eapply (Hlow d2 p (j - k)%nat); eauto; [lia|]. by rewrite <- Hrel.
Qed.

Lemma indexFiles_directories_first_witness :
  indexFiles ["bar/baz/qux/bar.mp3"; "foo.mp3"] =
    Ret [ {| ID := 0; Name := "bar"; Dir := true |};
          {| ID := 1; Name := "bar/baz"; Dir := true |};
          {| ID := 2; Name := "bar/baz/qux"; Dir := true |};
          {| ID := 3; Name := "bar/baz/qux/bar.mp3"; Dir := false |};
          {| ID := 4; Name := "foo.mp3"; Dir := false |} ] /\
  forall d file : indexedFile,
    d ∈ [ {| ID := 0; Name := "bar"; Dir := true |};
          {| ID := 1; Name := "bar/baz"; Dir := true |};
          {| ID := 2; Name := "bar/baz/qux"; Dir := true |};
          {| ID := 3; Name := "bar/baz/qux/bar.mp3"; Dir := false |};
          {| ID := 4; Name := "foo.mp3"; Dir := false |} ] ->
    file ∈ [ {| ID := 0; Name := "bar"; Dir := true |};
          {| ID := 1; Name := "bar/baz"; Dir := true |};
          {| ID := 2; Name := "bar/baz/qux"; Dir := true |};
          {| ID := 3; Name := "bar/baz/qux/bar.mp3"; Dir := false |};
          {| ID := 4; Name := "foo.mp3"; Dir := false |} ] ->
    Dir d = true -> Dir file = false ->
    ancestor (Name d) (Name file) -> ID d < ID file.
Proof.
  split; [reflexivity|].
  apply (indexFiles_directories_first ["bar/baz/qux/bar.mp3"; "foo.mp3"]).
  reflexivity.
Defined.

(** C3, on the code.  On the index of the sorted listing [foo/a.mp3],
    [foobar/b.mp3], the children [filterFiles] returns for the directory
    [foo] (id 0) hold the directory [foobar] and the file
    [foobar/b.mp3].  Their names begin with the characters of the name
    [foo], which is all the scan compares, but neither lies in [foo]:
    the parent of the one is ["."] and that of the other [foobar]; and
    [foobar] has as many separators as [foo], not one more.
    [getMusicDirectory] lists the three of them as the children of
    [foo]. *)
Theorem filterFiles_lists_siblings :
  let index :=
    [ {| ID := 0; Name := "foo"; Dir := true |};
      {| ID := 1; Name := "foo/a.mp3"; Dir := false |};
      {| ID := 2; Name := "foobar"; Dir := true |};
      {| ID := 3; Name := "foobar/b.mp3"; Dir := false |} ] in
  let start := {| ID := 0; Name := "foo"; Dir := true |} in
  let s := testServer "" ["foo/a.mp3"; "foobar/b.mp3"]
             {[ "foo/a.mp3" := ({[ "TITLE" := "a" ]} : gmap string string);
                "foobar/b.mp3" := ({[ "TITLE" := "b" ]} : gmap string string) ]} ∅ in
  indexFiles ["foo/a.mp3"; "foobar/b.mp3"] = Ret index /\
  index !! 0%nat = Some start /\
  filterFiles index 0
  = Ret [ {| ID := 1; Name := "foo/a.mp3"; Dir := false |};
          {| ID := 2; Name := "foobar"; Dir := true |};
          {| ID := 3; Name := "foobar/b.mp3"; Dir := false |} ] /\
  Strings.Count "foobar" PathSeparator = Strings.Count (Name start) PathSeparator /\
  Filepath.Dir "foo/a.mp3" = "foo" /\
  Filepath.Dir "foobar" = "." /\
  Filepath.Dir "foobar/b.mp3" = "foobar" /\
  childrenBySeparators index start
  = [ {| ID := 1; Name := "foo/a.mp3"; Dir := false |};
      {| ID := 3; Name := "foobar/b.mp3"; Dir := false |} ] /\
  filterFiles index 0 <> Ret (childrenBySeparators index start) /\
  match getMusicDirectory s (testRequest "/rest/getMusicDirectory.view" "0") with
  | Ret (XML c) => (fun mdc => child_ID <$> Children mdc) <$> MusicDirectory c
  | _ => None
  end = Some ["1"; "2"; "3"].
Proof.
  cbv zeta. repeat split; try (vm_compute; reflexivity). discriminate.
Qed.

(** C8.  [tagFiles] succeeds exactly when the attribute lookup of every
    file entry of its input succeeds, and then returns a metadata entry
    for every input entry; when it fails the result is the error of a
    failed lookup and no output, and [getMusicDirectory] answers with the
    generic error envelope. *)
Theorem tagFiles_all_or_nothing (mpd : database) (files : list indexedFile) :
  ((exists out, tagFiles mpd files = inl out) <->
   (forall f, f ∈ files -> Dir f = false ->
              exists attrs, ReadComments mpd (Name f) = inl attrs)) /\
  (forall out, tagFiles mpd files = inl out -> embedded <$> out = files) /\
  (forall err, tagFiles mpd files = inr err ->
     exists f, f ∈ files /\ Dir f = false /\ ReadComments mpd (Name f) = inr err) /\
  (forall (s : Server) (r : request) (id : Z) (paths : list string)
          (indexed : list indexedFile) (err : error),
     mpd = db s ->
     Strconv.Atoi (Get (Query r) "id") = Some id ->
     List mpd = inl paths ->
     indexFiles paths = Ret indexed ->
     filterFiles indexed id = Ret files ->
     tagFiles mpd files = inr err ->
     getMusicDirectory s r = Ret (writeXML (Some errGeneric))).
Proof.
  pose proof (tagLoop_result mpd files ∅ []) as Hres.
  split; [|split; [|split]].
  - unfold tagFiles. destruct (tagLoop mpd files ∅ []) as [[out cache]|err].
    + split; [by intros _; apply Hres|eauto].
    + split; [by intros [out ?]|]. intros Hall.
      destruct Hres as (f & Hf & Hdir & Herr).
      destruct (Hall f Hf Hdir) as [attrs Hattrs]. congruence.
  - apply tagFiles_embedded.
  - unfold tagFiles. destruct (tagLoop mpd files ∅ []) as [[out cache]|err'];
      [done|]. by intros err [= <-].
  - intros s r id paths indexed err -> Hid Hlist Hindex Hfilter Htag.
    unfold getMusicDirectory.
    destruct (Get (Query r) "id") as [|c qID] eqn:Hq; [done|].
    simpl String.eqb. cbv iota. rewrite Hid, Hlist, Hindex. simpl.
    rewrite Hfilter. simpl. by rewrite Htag.
Qed.

Lemma tagFiles_all_or_nothing_witness :
  exists out,
    tagFiles
      (memoryDatabase ["foo.mp3"]
         {[ "foo.mp3" := {[ "ARTIST" := "Baz"; "ALBUM" := "Bar"; "TITLE" := "Foo" ]} ]})
      [ {| ID := 0; Name := "foo.mp3"; Dir := false |} ] = inl out.
Proof.
  apply (proj1 (tagFiles_all_or_nothing _ _)).
  intros f Hf _. apply list_elem_of_singleton in Hf as ->.
  eexists. vm_compute. reflexivity.
Defined.

(** C4.  In the second pass of the tagger, a directory entry that is not
    top-level and whose path is a key of the cache gets its artist and
    album from the cached metadata and its title from the cached album;
    the cache holds, for each parent directory, the metadata of the last
    file entry processed whose immediate parent is that directory. *)
Theorem tagFiles_directory_inherits (db : database) (files : list indexedFile)
  (out : list metadataFile) :
  tagFiles db files = inl out ->
  exists cache : gmap string metadataFile,
    (forall d : string,
       match lastFileIn d files with
       | Some g => exists attrs, ReadComments db (Name g) = inl attrs /\
                                 cache !! d = Some (fileTags g attrs)
       | None => cache !! d = None
       end) /\
    (forall (i : nat) (f : indexedFile),
       files !! i = Some f -> Dir f = true ->
       Strings.Contains (Name f) PathSeparator = true ->
       match cache !! Name f with
       | Some ff => out !! i = Some {| embedded := f; Artist := Artist ff;
                                       Album := Album ff; Title := Album ff |}
       | None => out !! i = Some (dirTags f)
       end) /\
    (forall (i : nat) (f : indexedFile),
       files !! i = Some f -> Dir f = true ->
       Strings.Contains (Name f) PathSeparator = false ->
       out !! i = Some (dirTags f)).
Proof.
  unfold tagFiles.
  destruct (tagLoop db files ∅ []) as [[out0 cache]|err] eqn:Hloop; [|done].
  intros [= <-]. exists cache. split; [|split].
  - intros d. pose proof (tagLoop_cache db _ _ _ _ _ Hloop d) as H.
    destruct (lastFileIn d files); [done|]. by rewrite H, lookup_empty.
  - intros i f Hi Hdir Hsep.
    pose proof (tagLoop_entries db _ _ _ _ _ Hloop i f Hi) as H.
    rewrite Hdir in H. simpl in H.
    assert ((inheritTags cache <$> out0) !! i = Some (inheritTags cache (dirTags f)))
      as Hout by by rewrite list_lookup_fmap, H.
    rewrite Hout. unfold inheritTags. simpl. rewrite Hsep, Hdir. simpl.
    by destruct (cache !! Name f).
  - intros i f Hi Hdir Hsep.
    pose proof (tagLoop_entries db _ _ _ _ _ Hloop i f Hi) as H.
    rewrite Hdir in H. simpl in H.
    rewrite list_lookup_fmap, H. simpl. unfold inheritTags. simpl. by rewrite Hsep.
Qed.

Lemma tagFiles_directory_inherits_witness :
  tagFiles nestedDatabase nestedFiles = inl nestedTagged /\
  exists cache : gmap string metadataFile,
    forall (i : nat) (f : indexedFile),
      nestedFiles !! i = Some f -> Dir f = true ->
      Strings.Contains (Name f) PathSeparator = true ->
      match cache !! Name f with
      | Some ff => nestedTagged !! i
                   = Some {| embedded := f; Artist := Artist ff;
                             Album := Album ff; Title := Album ff |}
      | None => nestedTagged !! i = Some (dirTags f)
      end.
Proof.
  split; [vm_compute; reflexivity|].
  destruct (tagFiles_directory_inherits nestedDatabase nestedFiles nestedTagged)
    as (cache & _ & H & _); [vm_compute; reflexivity|].
  exists cache. exact H.
Defined.

(** C10.  The bounds checks of [stream] and of [filterFiles] guard the
    upper bound only: for every negative id parsed from the request, and
    every index, the check [id >= len] does not fire, [stream] indexes the
    entries out of range and [filterFiles] slices them from a negative
    start, so that both handlers panic instead of answering not found. *)
Theorem negative_id_out_of_bounds (s : Server) (r : request) (id : Z)
  (paths : list string) (files : list indexedFile) :
  Strconv.Atoi (Get (Query r) "id") = Some id -> id < 0 ->
  List (db s) = inl paths -> indexFiles paths = Ret files ->
  (Z.of_nat (List.length files) <=? id) = false /\
  index_at files id = Panic /\
  filterFiles files id = Panic /\
  stream s r = Panic /\
  getMusicDirectory s r = Panic.
Proof.
  intros Hid Hneg Hlist Hindex.
  assert ((Z.of_nat (List.length files) <=? id) = false) as Hguard
    by (apply Z.leb_gt; lia).
  assert (index_at files id = Panic) as Hat
    by (unfold index_at; by rewrite (proj2 (Z.ltb_lt _ _)) by done).
  assert (filterFiles files id = Panic) as Hfilter
    by (unfold filterFiles; rewrite Hguard; by rewrite (proj2 (Z.ltb_lt _ _)) by done).
  repeat split; try done.
  - unfold stream. rewrite (Atoi_nonempty _ _ Hid), Hid, Hlist, Hindex. simpl.
    by rewrite Hguard, Hat.
  - unfold getMusicDirectory. rewrite (Atoi_nonempty _ _ Hid), Hid, Hlist, Hindex.
    simpl. by rewrite Hfilter.
Qed.

Lemma negative_id_out_of_bounds_witness :
  let s := testServer "/var/music" ["foo.mp3"] ∅ ∅ in
  stream s (testRequest "/rest/stream.view" "-1") = Panic /\
  getMusicDirectory s (testRequest "/rest/getMusicDirectory.view" "-1") = Panic.
Proof.
  cbv zeta. split.
  - apply (negative_id_out_of_bounds (testServer "/var/music" ["foo.mp3"] ∅ ∅)
             (testRequest "/rest/stream.view" "-1") (-1) ["foo.mp3"]
             [ {| ID := 0; Name := "foo.mp3"; Dir := false |} ]);
      [vm_compute; reflexivity | lia | reflexivity | reflexivity].
  - apply (negative_id_out_of_bounds (testServer "/var/music" ["foo.mp3"] ∅ ∅)
             (testRequest "/rest/getMusicDirectory.view" "-1") (-1) ["foo.mp3"]
             [ {| ID := 0; Name := "foo.mp3"; Dir := false |} ]);
      [vm_compute; reflexivity | lia | reflexivity | reflexivity].
Defined.




(** C1, as amended.  When the filtered and tagged result of
    [getMusicDirectory] is not empty, the rendered directory's id is the
    requested id, its name is the path of the first entry of that result
    (the first child), and each child carries the id, title, artist and
    album of its entry, whether it is a directory, and the extension of
    its path: what follows the last dot of the trailing segment. *)
Theorem getMusicDirectory_renders_children (s : Server) (r : request) (id : Z)
  (paths : list string) (indexed filtered : list indexedFile)
  (files : list metadataFile) :
  Strconv.Atoi (Get (Query r) "id") = Some id ->
  List (db s) = inl paths -> indexFiles paths = Ret indexed ->
  filterFiles indexed id = Ret filtered ->
  tagFiles (db s) filtered = inl files -> files <> [] ->
  exists (first : indexedFile) (rest : list indexedFile)
         (c : container) (mdc : musicDirectoryContainer),
    filtered = first :: rest /\
    getMusicDirectory s r = Ret (XML c) /\
    Status c = statusOK /\ Error c = None /\
    MusicDirectory c = Some mdc /\
    directory_ID mdc = Strconv.Itoa id /\
    directory_Name mdc = Name first /\
    List.length (Children mdc) = List.length filtered /\
    forall (i : nat) (e : indexedFile),
      filtered !! i = Some e ->
      exists (f : metadataFile) (ch : child),
        files !! i = Some f /\ embedded f = e /\
        Children mdc !! i = Some ch /\
        child_ID ch = Strconv.Itoa (ID e) /\
        child_Title ch = Title f /\
        child_Artist ch = Artist f /\
        child_Album ch = Album f /\
        child_IsDir ch = Dir e /\
        extensionOf (Name e) (child_Suffix ch).
Proof.
  intros Hid Hlist Hindex Hfilter Htag Hne.
  pose proof (tagFiles_embedded _ _ _ Htag) as Hemb.
  destruct files as [|f0 files']; [done|].
  destruct filtered as [|first rest]; [done|].
  injection Hemb as Hfirst Hrest.
  eexists first, rest, _, _. split; [done|]. split.
  { unfold getMusicDirectory. rewrite (Atoi_nonempty _ _ Hid), Hid, Hlist, Hindex.
    simpl. rewrite Hfilter. simpl. rewrite Htag. reflexivity. }
  simpl. repeat split; try done.
  - by rewrite Hfirst.
  - simpl. rewrite <- Hrest. f_equal.
    change (List.length (toChild <$> files') = List.length (embedded <$> files')).
    by rewrite !length_fmap.
  - intros i e Hi.
    assert ((embedded <$> f0 :: files') !! i = Some e) as Hi'
      by (simpl; by rewrite Hfirst, Hrest).
    apply list_lookup_fmap_Some in Hi' as (f & -> & Hf).
    exists f, (toChild f). split; [done|]. split; [done|]. split.
    + pose proof (list_lookup_fmap toChild (f0 :: files') i) as Hch.
      rewrite Hf in Hch. exact Hch.
    + simpl. repeat split. apply suffix_is_extension.
Qed.

(** The server and the request of the test of [getMusicDirectory] on one
    directory. *)
Lemma getMusicDirectory_renders_children_witness :
  let s := testServer "" ["foo/foo.mp3"; "foo/bar.mp3"; "foo/bar/baz.mp3"; "bar/bar.mp3"]
             {[ "foo/foo.mp3" := ({[ "TITLE" := "foo" ]} : gmap string string);
                "foo/bar.mp3" := ({[ "TITLE" := "bar" ]} : gmap string string) ]} ∅ in
  exists (c : container) (mdc : musicDirectoryContainer),
    getMusicDirectory s (testRequest "/rest/getMusicDirectory.view" "0") = Ret (XML c) /\
    MusicDirectory c = Some mdc /\
    directory_ID mdc = "0" /\
    directory_Name mdc = "foo/foo.mp3".
Proof.
  cbv zeta.
  destruct (getMusicDirectory_renders_children
              (testServer "" ["foo/foo.mp3"; "foo/bar.mp3"; "foo/bar/baz.mp3"; "bar/bar.mp3"]
                 {[ "foo/foo.mp3" := ({[ "TITLE" := "foo" ]} : gmap string string);
                    "foo/bar.mp3" := ({[ "TITLE" := "bar" ]} : gmap string string) ]} ∅)
              (testRequest "/rest/getMusicDirectory.view" "0") 0
              ["foo/foo.mp3"; "foo/bar.mp3"; "foo/bar/baz.mp3"; "bar/bar.mp3"]
              [ {| ID := 0; Name := "foo"; Dir := true |};
                {| ID := 1; Name := "foo/foo.mp3"; Dir := false |};
                {| ID := 2; Name := "foo/bar.mp3"; Dir := false |};
                {| ID := 3; Name := "foo/bar"; Dir := true |};
                {| ID := 4; Name := "foo/bar/baz.mp3"; Dir := false |};
                {| ID := 5; Name := "bar"; Dir := true |};
                {| ID := 6; Name := "bar/bar.mp3"; Dir := false |} ]
              [ {| ID := 1; Name := "foo/foo.mp3"; Dir := false |};
                {| ID := 2; Name := "foo/bar.mp3"; Dir := false |};
                {| ID := 3; Name := "foo/bar"; Dir := true |} ]
              [ {| embedded := {| ID := 1; Name := "foo/foo.mp3"; Dir := false |};
                   Artist := ""; Album := ""; Title := "foo" |};
                {| embedded := {| ID := 2; Name := "foo/bar.mp3"; Dir := false |};
                   Artist := ""; Album := ""; Title := "bar" |};
                {| embedded := {| ID := 3; Name := "foo/bar"; Dir := true |};
                   Artist := ""; Album := ""; Title := "bar" |} ])
    as (first & rest & c & mdc & Hfiltered & Hresp & _ & _ & Hmdc & Hdid & Hname & _);
    [vm_compute; reflexivity | reflexivity | reflexivity | reflexivity
    | vm_compute; reflexivity | done |].
  exists c, mdc. injection Hfiltered as <- _. done.
Defined.

(** C1, as stated, fails on the request of that test: the directory asked
    for is the entry [foo] of id 0, and the name rendered is
    [foo/foo.mp3], the path of its first child. *)
Lemma getMusicDirectory_name_is_first_child :
  let s := testServer "" ["foo/foo.mp3"; "foo/bar.mp3"; "foo/bar/baz.mp3"; "bar/bar.mp3"]
             {[ "foo/foo.mp3" := ({[ "TITLE" := "foo" ]} : gmap string string);
                "foo/bar.mp3" := ({[ "TITLE" := "bar" ]} : gmap string string) ]} ∅ in
  let index :=
    [ {| ID := 0; Name := "foo"; Dir := true |};
      {| ID := 1; Name := "foo/foo.mp3"; Dir := false |};
      {| ID := 2; Name := "foo/bar.mp3"; Dir := false |};
      {| ID := 3; Name := "foo/bar"; Dir := true |};
      {| ID := 4; Name := "foo/bar/baz.mp3"; Dir := false |};
      {| ID := 5; Name := "bar"; Dir := true |};
      {| ID := 6; Name := "bar/bar.mp3"; Dir := false |} ] in
  List (db s) = inl ["foo/foo.mp3"; "foo/bar.mp3"; "foo/bar/baz.mp3"; "bar/bar.mp3"] /\
  indexFiles ["foo/foo.mp3"; "foo/bar.mp3"; "foo/bar/baz.mp3"; "bar/bar.mp3"] = Ret index /\
  index !! 0%nat = Some {| ID := 0; Name := "foo"; Dir := true |} /\
  exists (c : container) (mdc : musicDirectoryContainer),
    getMusicDirectory s (testRequest "/rest/getMusicDirectory.view" "0") = Ret (XML c) /\
    MusicDirectory c = Some mdc /\
    directory_Name mdc = "foo/foo.mp3" /\
    directory_Name mdc <> "foo".
Proof.
  cbv zeta. repeat split; try reflexivity.
  eexists _, _. split; [vm_compute; reflexivity|]. split; [reflexivity|].
  split; [reflexivity|discriminate].
Qed.

(** C2, on the code.  The request of the test "OK token and salt" carries
    [u], [t], [s], [c] and [v] and no [p], against the configured password
    [sesame].  [parseContext] reads no token and no salt: the answer is
    the MissingParameter code (10), where the test expects status [ok];
    and so it is for every request without [p], whatever its token and
    salt, so that a token that does not match is not answered with the
    Unauthorized code (40) either. *)
Theorem token_and_salt_not_read :
  let s := {| db := memoryDatabase [] ∅; fs := memoryFilesystem 0 ∅;
              cfg := {| SubsonicUser := "test"; SubsonicPassword := "sesame";
                        MusicDirectory_ := ""; Verbose := false; Keepalive := 0 |} |} in
  let r := {| Method := MethodGet; Path := "/rest/ping.view";
              Query := {[ "u" := ["test"];
                          "t" := ["26719a1196d2a940705a59634eb18eab"];
                          "s" := ["c19b2d"];
                          "c" := ["test"]; "v" := ["1.14.0"] ]};
              Header := ∅ |} in
  parseContext r = None /\
  (forall getIndexes : Server -> handler,
     ServeHTTP getIndexes s r = Ret (writeXML (Some errMissingParameter)) /\
     ServeHTTP getIndexes s r <> Ret (writeXML None)) /\
  (forall (getIndexes : Server -> handler) (s' : Server) (r' : request),
     Method r' = MethodGet \/ Method r' = MethodPost ->
     Get (Query r') "p" = "" ->
     ServeHTTP getIndexes s' r' = Ret (writeXML (Some errMissingParameter))).
Proof.
  cbv zeta. split; [vm_compute; reflexivity|]. split.
  - intros getIndexes.
    rewrite ServeHTTP_without_password; [split; [done|discriminate] | by left |].
    vm_compute; reflexivity.
  - intros getIndexes s' r'. apply ServeHTTP_without_password.
Qed.

(** C5, as amended.  For a request that carries [u], [c] and [v]: a
    password parameter [p] that begins with [enc:] is hex-decoded, well
    formed hex giving the bytes it encodes and hex that is malformed from
    its first pair on the empty password; a decoded password that is
    empty is reported as a missing parameter (code 10) and is not
    compared; a non-empty one is compared for equality with the
    configured password, a mismatch (or a wrong user) yields the
    Unauthorized code (40) and a match passes the request on.  So
    [p=test] and [p=enc:74657374] against test/test yield status [ok] on
    ping.  What hex that turns malformed after well formed pairs decodes
    to is not said. *)
Theorem password_authentication (getIndexes : Server -> handler) (s : Server)
  (r : request) :
  (Method r = MethodGet \/ Method r = MethodPost) ->
  Get (Query r) "u" <> "" -> Get (Query r) "c" <> "" -> Get (Query r) "v" <> "" ->
  let p := Get (Query r) "p" in
  let pass := decodePassword p in
  (Strings.HasPrefix p "enc:" = false -> pass = p) /\
  (forall bytes : string, p = "enc:" +:+ Hex.EncodeToString bytes -> pass = bytes) /\
  (forall junk : string, p = "enc:" +:+ junk -> malformedHead junk -> pass = "") /\
  (pass = "" -> ServeHTTP getIndexes s r = Ret (writeXML (Some errMissingParameter))) /\
  (pass <> "" ->
   Get (Query r) "u" <> SubsonicUser (cfg s) \/ pass <> SubsonicPassword (cfg s) ->
   ServeHTTP getIndexes s r = Ret (writeXML (Some errUnauthorized))) /\
  (pass <> "" ->
   Get (Query r) "u" = SubsonicUser (cfg s) -> pass = SubsonicPassword (cfg s) ->
   ServeHTTP getIndexes s r = mux getIndexes s r) /\
  (SubsonicUser (cfg s) = "test" -> SubsonicPassword (cfg s) = "test" ->
   Get (Query r) "u" = "test" -> p = "test" \/ p = "enc:74657374" ->
   Path r = "/rest/ping.view" ->
   ServeHTTP getIndexes s r = Ret (writeXML None)).
Proof.
  intros Hm Hu Hc Hv p pass.
  pose proof (ServeHTTP_authentication getIndexes s r Hm Hu Hc Hv) as Hauth.
  fold p in Hauth. fold pass in Hauth.
  split; [|split; [|split; [|split; [|split; [|split]]]]].
  - intros Hplain. unfold pass, decodePassword. by rewrite Hplain.
  - intros bytes Hp. unfold pass. rewrite Hp, decodePassword_enc.
    by rewrite DecodeString_EncodeToString.
  - intros junk Hp Hjunk. unfold pass. rewrite Hp, decodePassword_enc.
    by apply DecodeString_malformed.
  - intros Hempty. by rewrite Hauth, Hempty.
  - intros Hne Hwrong. rewrite Hauth.
    apply String.eqb_neq in Hne. rewrite Hne.
    destruct Hwrong as [Hw|Hw]; apply String.eqb_neq in Hw; rewrite Hw; [done|].
    by rewrite andb_false_r.
  - intros Hne Huser Hpass. rewrite Hauth.
    apply String.eqb_neq in Hne. rewrite Hne.
    by rewrite (proj2 (String.eqb_eq _ _) Huser), (proj2 (String.eqb_eq _ _) Hpass).
  - intros Hcu Hcp Hqu Hp Hpath.
    assert (pass = "test") as Hpass by (unfold pass; by destruct Hp as [-> | ->]).
    rewrite Hauth, Hpass, Hqu, Hcu, Hcp. simpl.
    unfold mux. by rewrite Hpath.
Qed.

Lemma password_authentication_witness :
  let s := testServer "" [] ∅ ∅ in
  let r := {| Method := MethodGet; Path := "/rest/ping.view";
              Query := {[ "u" := ["test"]; "p" := ["enc:74657374"];
                          "c" := ["test"]; "v" := ["1.14.0"] ]};
              Header := ∅ |} in
  decodePassword (Get (Query r) "p") = "test" /\
  forall getIndexes : Server -> handler,
    ServeHTTP getIndexes s r = Ret (writeXML None).
Proof.
  cbv zeta. split; [vm_compute; reflexivity|]. intros getIndexes.
  refine (proj2 (proj2 (proj2 (proj2 (proj2 (proj2
            (password_authentication getIndexes (testServer "" [] ∅ ∅)
               {| Method := MethodGet; Path := "/rest/ping.view";
                  Query := {[ "u" := ["test"]; "p" := ["enc:74657374"];
                              "c" := ["test"]; "v" := ["1.14.0"] ]};
                  Header := ∅ |}
               _ _ _ _)))))) _ _ _ _ _);
    try (vm_compute; reflexivity); try (vm_compute; discriminate).
  - by left.
  - right. vm_compute. reflexivity.
Defined.

(** C5, as stated, fails on [p=enc:zz] against test/test: the hex is
    invalid and decodes to the empty password, which differs from the
    configured password; it is not compared with it, and the answer is the
    MissingParameter code (10), not the Unauthorized code (40). *)
Lemma invalid_hex_password_is_missing :
  let s := testServer "" [] ∅ ∅ in
  let r := {| Method := MethodGet; Path := "/rest/ping.view";
              Query := {[ "u" := ["test"]; "p" := ["enc:zz"];
                          "c" := ["test"]; "v" := ["1.14.0"] ]};
              Header := ∅ |} in
  Hex.DecodeString "zz" = ("", false) /\
  decodePassword (Get (Query r) "p") = "" /\
  decodePassword (Get (Query r) "p") <> SubsonicPassword (cfg s) /\
  forall getIndexes : Server -> handler,
    ServeHTTP getIndexes s r = Ret (writeXML (Some errMissingParameter)) /\
    ServeHTTP getIndexes s r <> Ret (writeXML (Some errUnauthorized)).
Proof.
  cbv zeta. split; [reflexivity|]. split; [vm_compute; reflexivity|].
  split; [vm_compute; discriminate|]. intros getIndexes.
  assert (ServeHTTP getIndexes (testServer "" [] ∅ ∅)
            {| Method := MethodGet; Path := "/rest/ping.view";
               Query := {[ "u" := ["test"]; "p" := ["enc:zz"];
                           "c" := ["test"]; "v" := ["1.14.0"] ]};
               Header := ∅ |}
          = Ret (writeXML (Some errMissingParameter))) as H.
  { rewrite ServeHTTP_authentication; [|by left|vm_compute; discriminate..].
    replace (decodePassword _) with "" by (vm_compute; reflexivity). done. }
  rewrite H. split; [done|discriminate].
Qed.

(** * Further properties of the code *)

(** X1.  The builder returns exactly on the lists of relative paths: on a
    list that holds a rooted path the walk up to ["."] never ends; it
    never panics. *)
Theorem indexFiles_returns_iff (paths : list string) :
  ((exists index, indexFiles paths = Ret index) <-> Forall relative paths) /\
  (indexFiles paths = Diverge <-> Exists (fun f => Filepath.isRooted f = true) paths) /\
  indexFiles paths <> Panic.
Proof.
  assert (Forall relative paths \/ Exists (fun f => Filepath.isRooted f = true) paths)
    as Hcases.
  { induction paths as [|f paths IH]; [by left|].
    destruct (Filepath.isRooted f) eqn:Hf; [right; by left|].
    destruct IH as [IH|IH]; [left; by constructor|right; by right]. }
  assert (Forall relative paths ->
          Exists (fun f => Filepath.isRooted f = true) paths -> False) as Hexcl.
  { intros Hall Hex. apply Exists_exists in Hex as (f & Hf & Hrooted).
    rewrite Forall_forall in Hall. specialize (Hall f Hf). unfold relative in Hall.
    congruence. }
  destruct Hcases as [Hrel|Hrooted].
  - destruct (indexLoop_total paths ∅ [] Hrel) as [index Hindex].
    change (indexFiles paths = Ret index) in Hindex.
    split; [|split].
    + split; [done|eauto].
    + rewrite Hindex. split; [done|]. intros Hex. destruct (Hexcl Hrel Hex).
    + by rewrite Hindex.
  - pose proof (indexLoop_diverges paths ∅ [] Hrooted) as Hdiv.
    change (indexFiles paths = Diverge) in Hdiv.
    split; [|split].
    + rewrite Hdiv. split; [by intros [index ?]|]. intros Hrel. destruct (Hexcl Hrel Hrooted).
    + done.
    + by rewrite Hdiv.
Qed.

(** X2.  In an index the builder returns, the id of an entry is its
    position, and the file entries are the input paths, in input order. *)
Theorem indexFiles_ids_and_files (paths : list string) (index : list indexedFile) :
  indexFiles paths = Ret index ->
  (forall (i : nat) (e : indexedFile), index !! i = Some e -> ID e = Z.of_nat i) /\
  fileNames index = paths.
Proof.
  intros Hindex. split.
  - destruct (indexFiles_inv _ _ Hindex) as (seen & [Hids _ _ _ _] & _). exact Hids.
  - apply (indexLoop_fileNames paths ∅ [] index Hindex).
Qed.

Lemma indexFiles_ids_and_files_witness :
  fileNames [ {| ID := 0; Name := "bar"; Dir := true |};
              {| ID := 1; Name := "bar/bar.mp3"; Dir := false |};
              {| ID := 2; Name := "foo.mp3"; Dir := false |} ]
  = ["bar/bar.mp3"; "foo.mp3"].
Proof.
  apply (indexFiles_ids_and_files ["bar/bar.mp3"; "foo.mp3"]). reflexivity.
Defined.

(** X3.  [getMusicFolders] answers with exactly one folder, of id 0,
    whatever the database and the request.  Its name is [filepath.Base]
    of the configured music directory, and that is the last element of
    the path and nothing else: what stands after its last separator,
    trailing separators set aside, ["."] when no directory is configured
    and the separator when the directory is the root. *)
Theorem getMusicFolders_folder_name (s : Server) (r : request) :
  exists (c : container) (name : string),
    getMusicFolders s r = Ret (XML c) /\
    Status c = statusOK /\ Error c = None /\
    MusicFolders c = Some [ {| musicFolder_ID := 0; musicFolder_Name := name |} ] /\
    name = Filepath.Base (MusicDirectory_ (cfg s)) /\
    forall n : string, lastElement (MusicDirectory_ (cfg s)) n <-> n = name.
Proof.
  eexists _, _. split; [reflexivity|]. do 4 (split; [done|]).
  intros n. split.
  - by intros <-%lastElement_Base.
  - intros ->. apply Base_lastElement.
Qed.

(** X4.  On a start that is not negative [filterFiles] does not panic, and
    what it returns is taken from the entries after the start, in
    order. *)
Theorem filterFiles_total (files : list indexedFile) (start : Z) :
  0 <= start ->
  exists children,
    filterFiles files start = Ret children /\
    children `sublist_of` drop (S (Z.to_nat start)) files.
Proof.
  intros Hpos. destruct (Z.le_gt_cases (Z.of_nat (List.length files)) start) as [Hge|Hlt].
  - exists []. split; [by apply filterFiles_beyond|apply sublist_nil_l].
  - destruct (lookup_lt_is_Some_2 files (Z.to_nat start)) as [first Hfirst]; [lia|].
    eexists. split; [by apply filterFiles_within|].
    generalize (drop (S (Z.to_nat start)) files). intros l.
    induction l as [|e l IH]; simpl; [done|].
    destruct (Strings.HasPrefix (Name e) (Name first)); [|apply sublist_nil_l].
    simpl. destruct (withinOneLevel first e); [by apply sublist_skip|by apply sublist_cons].
Qed.

Lemma filterFiles_total_witness :
  exists children,
    filterFiles [ {| ID := 0; Name := "foo"; Dir := true |};
                  {| ID := 1; Name := "foo/bar"; Dir := true |} ] 0 = Ret children /\
    children `sublist_of`
      drop 1 [ {| ID := 0; Name := "foo"; Dir := true |};
               {| ID := 1; Name := "foo/bar"; Dir := true |} ].
Proof.
  apply (filterFiles_total [ {| ID := 0; Name := "foo"; Dir := true |};
                             {| ID := 1; Name := "foo/bar"; Dir := true |} ] 0).
  lia.
Defined.

(** X5.  A request whose method is neither [GET] nor [POST] is answered
    with the bare transport status 405, before any parameter is read. *)
Theorem ServeHTTP_method_not_allowed (getIndexes : Server -> handler) (s : Server)
  (r : request) :
  Method r <> MethodGet -> Method r <> MethodPost ->
  ServeHTTP getIndexes s r = Ret (HTTPError 405 "method not allowed").
Proof.
  intros Hget%String.eqb_neq Hpost%String.eqb_neq.
  unfold ServeHTTP. by rewrite Hget, Hpost.
Qed.

Lemma ServeHTTP_method_not_allowed_witness :
  ServeHTTP ping (testServer "" [] ∅ ∅)
    {| Method := "PUT"; Path := "/rest/ping.view"; Query := snd configAuth;
       Header := ∅ |}
  = Ret (HTTPError 405 "method not allowed").
Proof.
  apply (ServeHTTP_method_not_allowed ping); discriminate.
Defined.

(** X6.  [getIndexes] on a database that lists relative paths answers with
    indexes that hold the top-level entries of the index, each once and in
    the order of the index, and no index is empty; the loop never reads
    outside of the indexes. *)
Theorem getIndexes_lists_top_level (now : Z) (digitTable : Z -> bool) (s : Server)
  (r : request) (paths : list string) (files : list indexedFile) :
  List (db s) = inl paths -> indexFiles paths = Ret files ->
  exists (c : container) (ic : indexesContainer),
    getIndexes now digitTable s r = Ret (XML c) /\
    Status c = statusOK /\ Indexes c = Some ic /\ LastModified ic = now /\
    List.concat (Artists <$> Indexes_ ic) = toArtist <$> topLevel files /\
    Forall (fun ix => Artists ix <> []) (Indexes_ ic).
Proof.
  intros Hlist Hindex. unfold getIndexes. rewrite Hlist, Hindex.
  destruct (indexesLoop_groups digitTable files [] [] ∅ (bucketsInv_init digitTable))
    as (groups & seen & Hloop & Hinv).
  change (indexesLoop digitTable files (-1) [] ∅
          = Ret (renderGroup digitTable <$> groups)) in Hloop.
  unfold mbind, outcome_bind. rewrite Hloop.
  eexists _, _. split; [reflexivity|]. repeat split; cbn [Indexes_].
  - rewrite concat_renderGroup. f_equal. apply (buckets_members _ _ _ _ Hinv).
  - apply Forall_fmap, Forall_forall. by intros g _.
Qed.

Lemma getIndexes_lists_top_level_witness :
  exists (c : container) (ic : indexesContainer),
    getIndexes 1500000000 (fun _ => false)
      (testServer "/music" ["123/abc/abc.mp3"; "Apple/A.mp3"; "B.mp3"] ∅ ∅)
      (testRequest "/rest/getIndexes.view" "") = Ret (XML c) /\
    Status c = statusOK /\ Indexes c = Some ic /\ LastModified ic = 1500000000 /\
    List.concat (Artists <$> Indexes_ ic)
    = toArtist <$> topLevel [ {| ID := 0; Name := "123"; Dir := true |};
                              {| ID := 1; Name := "123/abc"; Dir := true |};
                              {| ID := 2; Name := "123/abc/abc.mp3"; Dir := false |};
                              {| ID := 3; Name := "Apple"; Dir := true |};
                              {| ID := 4; Name := "Apple/A.mp3"; Dir := false |};
                              {| ID := 5; Name := "B.mp3"; Dir := false |} ] /\
    Forall (fun ix => Artists ix <> []) (Indexes_ ic).
Proof.
  apply (getIndexes_lists_top_level 1500000000 (fun _ => false)
           (testServer "/music" ["123/abc/abc.mp3"; "Apple/A.mp3"; "B.mp3"] ∅ ∅)
           (testRequest "/rest/getIndexes.view" "")
           ["123/abc/abc.mp3"; "Apple/A.mp3"; "B.mp3"]);
    vm_compute; reflexivity.
Defined.

(** X7.  In an answer of [getIndexes] no two indexes have the same name, and
    the name of an index is the name under which its first artist is
    filed. *)
Theorem getIndexes_index_names (now : Z) (digitTable : Z -> bool) (s : Server)
  (r : request) (c : container) (ic : indexesContainer) :
  getIndexes now digitTable s r = Ret (XML c) -> Indexes c = Some ic ->
  NoDup (index_Name <$> Indexes_ ic) /\
  forall ix, ix ∈ Indexes_ ic ->
    exists a rest, Artists ix = a :: rest /\
                   index_Name ix = snd (bucket digitTable (artist_Name a)).
Proof.
  intros Hret Hic.
  destruct (getIndexes_groups digitTable now s r c ic Hret Hic)
    as (paths & files & groups & seen & _ & _ & -> & Hinv).
  simpl. split.
  - apply (NoDup_fmap_1 (fun l => fst (Utf8.DecodeRuneInString l))).
    rewrite <- !list_fmap_compose.
    erewrite list_fmap_ext; [apply (buckets_nodup _ _ _ _ Hinv)|].
    intros i g _. simpl. apply bucket_key.
  - intros ix (g & -> & _)%list_elem_of_fmap. by eexists _, _.
Qed.

Lemma getIndexes_index_names_witness :
  NoDup ["#"; "A"; "B"] /\
  forall ix,
    ix ∈ [ {| index_Name := "#"; Artists := [ {| artist_Name := "123"; artist_ID := "0" |} ] |};
           {| index_Name := "A"; Artists := [ {| artist_Name := "Apple"; artist_ID := "3" |} ] |};
           {| index_Name := "B"; Artists := [ {| artist_Name := "B.mp3"; artist_ID := "5" |} ] |} ] ->
    exists a rest, Artists ix = a :: rest /\
                   index_Name ix = snd (bucket (fun _ => false) (artist_Name a)).
Proof.
  apply (getIndexes_index_names 1500000000 (fun _ => false)
           (testServer "/music" ["123/abc/abc.mp3"; "Apple/A.mp3"; "B.mp3"] ∅ ∅)
           (testRequest "/rest/getIndexes.view" "")
           (mkContainer xmlNS statusOK apiVersion None
              (Some {| LastModified := 1500000000;
                       Indexes_ :=
                         [ {| index_Name := "#";
                              Artists := [ {| artist_Name := "123"; artist_ID := "0" |} ] |};
                           {| index_Name := "A";
                              Artists := [ {| artist_Name := "Apple"; artist_ID := "3" |} ] |};
                           {| index_Name := "B";
                              Artists := [ {| artist_Name := "B.mp3"; artist_ID := "5" |} ] |} ] |})
              None None None)
           {| LastModified := 1500000000;
              Indexes_ :=
                [ {| index_Name := "#";
                     Artists := [ {| artist_Name := "123"; artist_ID := "0" |} ] |};
                  {| index_Name := "A";
                     Artists := [ {| artist_Name := "Apple"; artist_ID := "3" |} ] |};
                  {| index_Name := "B";
                     Artists := [ {| artist_Name := "B.mp3"; artist_ID := "5" |} ] |} ] |});
    vm_compute; reflexivity.
Defined.

(** X8.  Every artist of an answer of [getIndexes] stands in the index of its
    own initial exactly when equal initials are adjacent among the
    top-level entries: an entry is appended to the index created last,
    whatever its initial. *)
Theorem getIndexes_grouped_iff (now : Z) (digitTable : Z -> bool) (s : Server)
  (r : request) (paths : list string) (files : list indexedFile) (c : container)
  (ic : indexesContainer) :
  List (db s) = inl paths -> indexFiles paths = Ret files ->
  getIndexes now digitTable s r = Ret (XML c) -> Indexes c = Some ic ->
  initialsGrouped (initial digitTable <$> topLevel files) <->
  forall ix a, ix ∈ Indexes_ ic -> a ∈ Artists ix ->
               snd (bucket digitTable (artist_Name a)) = index_Name ix.
Proof.
  intros Hlist Hindex Hret Hic.
  destruct (getIndexes_groups digitTable now s r c ic Hret Hic)
    as (paths' & files' & groups & seen & Hlist' & Hindex' & -> & Hinv).
  assert (files' = files) as -> by congruence.
  simpl. rewrite <- homogeneous_names. split.
  - apply (buckets_grouped _ _ _ _ Hinv).
  - apply (buckets_homogeneous _ _ _ _ Hinv).
Qed.

Lemma getIndexes_grouped_iff_witness :
  initialsGrouped
    (initial (fun _ => false)
       <$> topLevel [ {| ID := 0; Name := "Apple"; Dir := true |};
                      {| ID := 1; Name := "Apple/A.mp3"; Dir := false |};
                      {| ID := 2; Name := "Banana"; Dir := true |};
                      {| ID := 3; Name := "Banana/B.mp3"; Dir := false |};
                      {| ID := 4; Name := "Avocado"; Dir := true |};
                      {| ID := 5; Name := "Avocado/C.mp3"; Dir := false |} ]) <->
  forall ix a,
    ix ∈ [ {| index_Name := "A";
              Artists := [ {| artist_Name := "Apple"; artist_ID := "0" |} ] |};
           {| index_Name := "B";
              Artists := [ {| artist_Name := "Banana"; artist_ID := "2" |};
                           {| artist_Name := "Avocado"; artist_ID := "4" |} ] |} ] ->
    a ∈ Artists ix ->
    snd (bucket (fun _ => false) (artist_Name a)) = index_Name ix.
Proof.
  apply (getIndexes_grouped_iff 0 (fun _ => false)
           (testServer "" ["Apple/A.mp3"; "Banana/B.mp3"; "Avocado/C.mp3"] ∅ ∅)
           (testRequest "/rest/getIndexes.view" "")
           ["Apple/A.mp3"; "Banana/B.mp3"; "Avocado/C.mp3"] _
           (mkContainer xmlNS statusOK apiVersion None
              (Some {| LastModified := 0;
                       Indexes_ :=
                         [ {| index_Name := "A";
                              Artists := [ {| artist_Name := "Apple"; artist_ID := "0" |} ] |};
                           {| index_Name := "B";
                              Artists := [ {| artist_Name := "Banana"; artist_ID := "2" |};
                                           {| artist_Name := "Avocado"; artist_ID := "4" |} ] |} ] |})
              None None None)
           {| LastModified := 0;
              Indexes_ :=
                [ {| index_Name := "A";
                     Artists := [ {| artist_Name := "Apple"; artist_ID := "0" |} ] |};
                  {| index_Name := "B";
                     Artists := [ {| artist_Name := "Banana"; artist_ID := "2" |};
                                  {| artist_Name := "Avocado"; artist_ID := "4" |} ] |} ] |});
    vm_compute; reflexivity.
Defined.

(** X9.  The name of an index of [getIndexes] is ["#"], or the bytes of the
    first rune of its first artist, or the encoding of [RuneError] when
    that artist's name is empty or does not begin with a rune. *)
Theorem getIndexes_name_is_initial (now : Z) (digitTable : Z -> bool) (s : Server)
  (r : request) (c : container) (ic : indexesContainer) (ix : index) (a : artist) :
  getIndexes now digitTable s r = Ret (XML c) -> Indexes c = Some ic ->
  ix ∈ Indexes_ ic -> head (Artists ix) = Some a ->
  index_Name ix = "#" \/
  Strings.HasPrefix (artist_Name a) (index_Name ix) = true \/
  index_Name ix = Utf8.EncodeRune Utf8.RuneError.
Proof.
  intros Hret Hic Hix Ha.
  destruct (getIndexes_groups digitTable now s r c ic Hret Hic)
    as (paths & files & groups & seen & _ & _ & -> & Hinv).
  apply list_elem_of_fmap in Hix as (g & -> & _). simpl in Ha. injection Ha as <-.
  simpl. unfold bucket.
  destruct (Unicode.IsDigit _ _); [by left|]. right. simpl.
  destruct (DecodeRuneInString_cases (Name (fst g))) as [->|(p & rest & Hname & Hp & _)].
  - by right.
  - left. rewrite Hp. apply HasPrefix_app. by exists rest.
Qed.

Lemma getIndexes_name_is_initial_witness :
  "A" = "#" \/ Strings.HasPrefix "Apple" "A" = true \/ "A" = Utf8.EncodeRune Utf8.RuneError.
Proof.
  apply (getIndexes_name_is_initial 0 (fun _ => false)
           (testServer "" ["Apple/A.mp3"] ∅ ∅)
           (testRequest "/rest/getIndexes.view" "")
           (mkContainer xmlNS statusOK apiVersion None
              (Some {| LastModified := 0;
                       Indexes_ :=
                         [ {| index_Name := "A";
                              Artists := [ {| artist_Name := "Apple"; artist_ID := "0" |} ] |} ] |})
              None None None)
           {| LastModified := 0;
              Indexes_ :=
                [ {| index_Name := "A";
                     Artists := [ {| artist_Name := "Apple"; artist_ID := "0" |} ] |} ] |}
           {| index_Name := "A";
              Artists := [ {| artist_Name := "Apple"; artist_ID := "0" |} ] |}
           {| artist_Name := "Apple"; artist_ID := "0" |});
    [vm_compute; reflexivity|reflexivity|by left|reflexivity].
Defined.

(** A file that passed [indexFiles] is relative. *)
Lemma indexFiles_relative (paths : list string) (index : list indexedFile) :
  indexFiles paths = Ret index -> Forall relative paths.
Proof.
  intros Hindex. apply Forall_forall. intros f Hf.
  destruct (Filepath.isRooted f) eqn:Hrooted; [|done].
  assert (indexFiles paths = Diverge) as Hdiv.
  { apply (indexLoop_diverges paths ∅ []). apply Exists_exists. eauto. }
  congruence.
Qed.

Lemma filterFiles_elem (files : list indexedFile) (start : Z)
  (filtered : list indexedFile) (first e : indexedFile) :
  0 <= start -> files !! Z.to_nat start = Some first ->
  filterFiles files start = Ret filtered -> e ∈ filtered ->
  e ∈ files /\ withinOneLevel first e = true.
Proof.
  intros Hpos Hfirst Hfilter He.
  rewrite (filterFiles_within files start first Hpos Hfirst) in Hfilter.
  injection Hfilter as <-.
  apply list_elem_of_In, List.filter_In in He as [He Hlevel]. split; [|done].
  apply list_elem_of_In, prefixRun_elem in He as [He _].
  rewrite <- (take_drop (S (Z.to_nat start)) files). apply elem_of_app. by right.
Qed.

(** X10.  The tags of a file entry are those of its own lookup: the second loop
    of [tagFiles] leaves the file entries as the first wrote them. *)
Theorem tagFiles_file_entries (mpd : database) (files : list indexedFile)
  (out : list metadataFile) (i : nat) (f : indexedFile) :
  tagFiles mpd files = inl out -> files !! i = Some f -> Dir f = false ->
  exists attrs, ReadComments mpd (Name f) = inl attrs /\
                out !! i = Some (fileTags f attrs).
Proof.
  unfold tagFiles.
  destruct (tagLoop mpd files ∅ []) as [[out0 cache]|err] eqn:Hloop; [|done].
  intros [= <-] Hi Hdir.
  pose proof (tagLoop_entries mpd _ _ _ _ _ Hloop i f Hi) as H.
  rewrite Hdir in H. destruct H as (attrs & Hattrs & Hout). simpl in Hout.
  exists attrs. split; [done|].
  rewrite list_lookup_fmap, Hout. simpl. unfold inheritTags. simpl. rewrite Hdir. simpl.
  by destruct (negb _).
Qed.

Lemma tagFiles_file_entries_witness :
  exists attrs,
    ReadComments nestedDatabase "foo/bar/bar.mp3" = inl attrs /\
    nestedTagged !! 2%nat
    = Some (fileTags {| ID := 2; Name := "foo/bar/bar.mp3"; Dir := false |} attrs).
Proof.
  apply (tagFiles_file_entries nestedDatabase nestedFiles nestedTagged 2
           {| ID := 2; Name := "foo/bar/bar.mp3"; Dir := false |});
    [vm_compute; reflexivity|reflexivity|reflexivity].
Defined.

(** X11.  In what [getMusicDirectory] lists for a directory of the index, a
    directory one level below the requested one never inherits tags: the
    files it holds are two levels below and were filtered out before the
    tagging, so that its artist and album are empty and its title is the
    last element of its path. *)
Theorem child_directories_untagged (mpd : database) (paths : list string)
  (indexed filtered : list indexedFile) (start : Z) (first : indexedFile)
  (out : list metadataFile) (i : nat) (e : indexedFile) :
  indexFiles paths = Ret indexed ->
  0 <= start -> indexed !! Z.to_nat start = Some first ->
  filterFiles indexed start = Ret filtered ->
  tagFiles mpd filtered = inl out ->
  filtered !! i = Some e -> Dir e = true ->
  Strings.Count (Name e) PathSeparator = S (Strings.Count (Name first) PathSeparator) ->
  out !! i = Some (dirTags e).
Proof.
  intros Hindex Hpos Hfirst Hfilter Htag Hi Hdir Hcount.
  unfold tagFiles in Htag.
  destruct (tagLoop mpd filtered ∅ []) as [[out0 cache]|err] eqn:Hloop; [|done].
  injection Htag as <-.
  pose proof (tagLoop_entries mpd _ _ _ _ _ Hloop i e Hi) as H.
  rewrite Hdir in H. simpl in H.
  rewrite list_lookup_fmap, H. simpl. f_equal.
  unfold inheritTags. simpl. rewrite Hdir. simpl.
  destruct (negb _); [done|].
  pose proof (tagLoop_cache mpd _ _ _ _ _ Hloop (Name e)) as Hcache.
  destruct (lastFileIn (Name e) filtered) as [g|] eqn:Hlast;
    [|by rewrite Hcache, lookup_empty].
  exfalso. unfold lastFileIn in Hlast. apply last_Some_elem_of in Hlast.
  apply list_elem_of_In, List.filter_In in Hlast as [Hg Hcond].
  apply andb_true_iff in Hcond as [Hfile%negb_true_iff Hparent%String.eqb_eq].
  apply list_elem_of_In in Hg.
  destruct (filterFiles_elem _ _ _ _ _ Hpos Hfirst Hfilter Hg) as [Hin Hlevel].
  assert (relative (Name g)) as Hrel.
  { pose proof (indexFiles_relative _ _ Hindex) as Hall.
    rewrite Forall_forall in Hall. apply Hall.
    pose proof (indexLoop_fileNames paths ∅ [] indexed Hindex) as Hnames.
    simpl in Hnames. rewrite <- Hnames.
    unfold fileNames. apply list_elem_of_fmap. exists g. split; [done|].
    apply list_elem_of_In, List.filter_In. split; [by apply list_elem_of_In|].
    by rewrite Hfile. }
  destruct (Dir_relative (Name g) Hrel) as [Hdot|[_ Hlt]].
  - rewrite Hparent in Hdot.
    rewrite Hdot in Hcount. simpl in Hcount. discriminate.
  - rewrite Hparent in Hlt. unfold withinOneLevel in Hlevel.
    apply Nat.leb_le in Hlevel. lia.
Qed.

Lemma child_directories_untagged_witness :
  [ {| embedded := {| ID := 1; Name := "foo/bar"; Dir := true |};
       Artist := ""; Album := ""; Title := "bar" |};
    {| embedded := {| ID := 3; Name := "foo/a.mp3"; Dir := false |};
       Artist := "Baz"; Album := "Bar"; Title := "A" |} ] !! 0%nat
  = Some (dirTags {| ID := 1; Name := "foo/bar"; Dir := true |}).
Proof.
  apply (child_directories_untagged
           (memoryDatabase ["foo/bar/baz.mp3"; "foo/a.mp3"]
              {[ "foo/a.mp3" :=
                   ({[ "ARTIST" := "Baz"; "ALBUM" := "Bar"; "TITLE" := "A" ]}
                    : gmap string string);
                 "foo/bar/baz.mp3" :=
                   ({[ "ARTIST" := "Baz"; "ALBUM" := "Qux"; "TITLE" := "B" ]}
                    : gmap string string) ]})
           ["foo/bar/baz.mp3"; "foo/a.mp3"]
           [ {| ID := 0; Name := "foo"; Dir := true |};
             {| ID := 1; Name := "foo/bar"; Dir := true |};
             {| ID := 2; Name := "foo/bar/baz.mp3"; Dir := false |};
             {| ID := 3; Name := "foo/a.mp3"; Dir := false |} ]
           [ {| ID := 1; Name := "foo/bar"; Dir := true |};
             {| ID := 3; Name := "foo/a.mp3"; Dir := false |} ]
           0 {| ID := 0; Name := "foo"; Dir := true |});
    [vm_compute; reflexivity|lia|reflexivity|vm_compute; reflexivity
    |vm_compute; reflexivity|reflexivity|reflexivity|reflexivity].
Defined.

(** X12.  Every envelope [ServeHTTP] writes, from whichever handler and on
    whichever path of it, carries the namespace and the version of the
    API, and either the status ["ok"] without an error and with at most
    one payload, or the status ["failed"] with one of the three errors of
    the package and no payload. *)
Theorem ServeHTTP_envelope (now : Z) (digitTable : Z -> bool) (s : Server)
  (r : request) (c : container) :
  ServeHTTP (getIndexes now digitTable) s r = Ret (XML c) -> wellFormed c.
Proof.
  destruct (ServeHTTP_cases (getIndexes now digitTable) s r)
    as [[H|[H|H]]|[-> _]].
  - rewrite H. discriminate.
  - rewrite H. apply wellFormed_errMissingParameter.
  - rewrite H. apply wellFormed_errUnauthorized.
  - unfold mux.
    repeat match goal with
           | |- context [String.eqb (Path r) ?p] => destruct (String.eqb (Path r) p)
           end;
      eauto using getLicense_wellFormed, getIndexes_wellFormed,
        getMusicDirectory_wellFormed, getMusicFolders_wellFormed, ping_wellFormed,
        stream_wellFormed.
    discriminate.
Qed.

Lemma ServeHTTP_envelope_witness :
  wellFormed
    {| XMLNS := xmlNS; Status := statusOK; Version := apiVersion; Error := None;
       Indexes := None; License := None; MusicDirectory := None;
       MusicFolders := Some [ {| musicFolder_ID := 0; musicFolder_Name := "music" |} ] |}.
Proof.
  apply (ServeHTTP_envelope 0 (fun _ => false) (testServer "/var/music" [] ∅ ∅)
           (testRequest "/rest/getMusicFolders.view" "")).
  vm_compute. reflexivity.
Defined.

(** X13.  A request that does not carry the configured user and password is
    answered without a handler being called: the answer is one of the
    three rejections, and it is the same whatever the database, the file
    system, the music directory and the handlers are. *)
Theorem ServeHTTP_without_credentials (h h' : Server -> handler) (s s' : Server)
  (r : request) :
  SubsonicUser (cfg s') = SubsonicUser (cfg s) ->
  SubsonicPassword (cfg s') = SubsonicPassword (cfg s) ->
  Get (Query r) "u" <> SubsonicUser (cfg s) \/
  decodePassword (Get (Query r) "p") <> SubsonicPassword (cfg s) ->
  rejected (ServeHTTP h s r) /\ ServeHTTP h' s' r = ServeHTTP h s r.
Proof.
  intros Huser Hpass Hbad.
  destruct (ServeHTTP_cases h s r) as [Hrej|(_ & Hu & Hp & _)];
    [|destruct Hbad; congruence].
  split; [done|].
  unfold ServeHTTP in *. rewrite Huser, Hpass.
  destruct (negb _ && negb _); [done|].
  destruct (parseContext r) as [ctx|] eqn:Hctx; [|done].
  destruct (negb (String.eqb (User ctx) _) || negb (String.eqb (Password ctx) _))
    eqn:Hcheck; [done|].
  exfalso. apply orb_false_iff in Hcheck as [Hu%negb_false_iff Hp%negb_false_iff].
  apply String.eqb_eq in Hu, Hp.
  unfold parseContext in Hctx.
  destruct (String.eqb (Get (Query r) "u") ""); [done|].
  destruct (String.eqb (decodePassword (Get (Query r) "p")) ""); [done|].
  destruct (String.eqb (Get (Query r) "c") ""); [done|].
  destruct (String.eqb (Get (Query r) "v") ""); [done|].
  injection Hctx as <-. simpl in *. destruct Hbad; congruence.
Qed.

Lemma ServeHTTP_without_credentials_witness :
  let r := {| Method := MethodGet; Path := "/rest/stream.view";
              Query := {[ "u" := ["test"]; "p" := ["guess"]; "c" := ["test"];
                          "v" := ["1.14.0"]; "id" := ["0"] ]};
              Header := ∅ |} in
  rejected (ServeHTTP ping (testServer "/var/music" ["a.mp3"] ∅ ∅) r) /\
  ServeHTTP getLicense (testServer "" [] ∅ ∅) r
  = ServeHTTP ping (testServer "/var/music" ["a.mp3"] ∅ ∅) r.
Proof.
  apply (ServeHTTP_without_credentials ping getLicense
           (testServer "/var/music" ["a.mp3"] ∅ ∅) (testServer "" [] ∅ ∅));
    [reflexivity|reflexivity|right; vm_compute; discriminate].
Defined.

(** X14.  A server whose configured user or password is empty, as that of the
    zero [Config], rejects every request: an empty parameter is a missing
    one, so that no request carries its credentials. *)
Theorem ServeHTTP_empty_credentials (h : Server -> handler) (s : Server) (r : request) :
  SubsonicUser (cfg s) = "" \/ SubsonicPassword (cfg s) = "" ->
  rejected (ServeHTTP h s r).
Proof.
  intros Hempty.
  destruct (ServeHTTP_cases h s r) as [Hrej|(_ & _ & _ & Hu & Hp)]; [done|].
  destruct Hempty; congruence.
Qed.

Lemma ServeHTTP_empty_credentials_witness :
  rejected
    (ServeHTTP ping
       {| db := memoryDatabase [] ∅; fs := memoryFilesystem 0 ∅;
          cfg := {| SubsonicUser := ""; SubsonicPassword := ""; MusicDirectory_ := "";
                    Verbose := false; Keepalive := 0 |} |}
       {| Method := MethodGet; Path := "/rest/ping.view";
          Query := {[ "u" := [""]; "p" := [""]; "c" := ["test"]; "v" := ["1.14.0"] ]};
          Header := ∅ |}).
Proof.
  apply ServeHTTP_empty_credentials. by left.
Defined.

(** X15.  A configured password that begins with [enc:] is not matched by the
    same string sent as it is: what follows the prefix is decoded, to
    fewer bytes than were sent, and the request is rejected. *)
Theorem literal_enc_password_rejected (h : Server -> handler) (s : Server)
  (r : request) :
  Strings.HasPrefix (SubsonicPassword (cfg s)) "enc:" = true ->
  Get (Query r) "p" = SubsonicPassword (cfg s) ->
  decodePassword (Get (Query r) "p") <> SubsonicPassword (cfg s) /\
  rejected (ServeHTTP h s r).
Proof.
  intros Henc Hp.
  assert (decodePassword (Get (Query r) "p") <> SubsonicPassword (cfg s)) as Hne.
  { rewrite Hp. intros Heq. pose proof (decodePassword_shorter _ Henc) as Hlen.
    rewrite Heq in Hlen. lia. }
  split; [done|].
  by destruct (ServeHTTP_cases h s r) as [Hrej|(_ & _ & Hdec & _)].
Qed.

Lemma literal_enc_password_rejected_witness :
  let s := {| db := memoryDatabase [] ∅; fs := memoryFilesystem 0 ∅;
              cfg := {| SubsonicUser := "test"; SubsonicPassword := "enc:6869";
                        MusicDirectory_ := ""; Verbose := false; Keepalive := 0 |} |} in
  let r := {| Method := MethodGet; Path := "/rest/ping.view";
              Query := {[ "u" := ["test"]; "p" := ["enc:6869"]; "c" := ["test"];
                          "v" := ["1.14.0"] ]};
              Header := ∅ |} in
  decodePassword (Get (Query r) "p") <> SubsonicPassword (cfg s) /\
  rejected (ServeHTTP ping s r).
Proof.
  apply literal_enc_password_rejected; reflexivity.
Defined.

(** X16.  The identifiers the server writes are read back as the entries they
    were written for: the id of an artist of [getIndexes] and of a child
    of [getMusicDirectory] is the position of its entry in the index, in
    the decimal form [Atoi] accepts, so that [stream] and
    [getMusicDirectory] find that entry. *)
Theorem rendered_ids_resolve (paths : list string) (files : list indexedFile)
  (i : nat) (f : indexedFile) :
  indexFiles paths = Ret files ->
  Z.of_nat (List.length files) <= Strconv.maxInt ->
  files !! i = Some f ->
  Strconv.Atoi (artist_ID (toArtist f)) = Some (Z.of_nat i) /\
  (forall m : metadataFile,
     embedded m = f -> Strconv.Atoi (child_ID (toChild m)) = Some (Z.of_nat i)) /\
  index_at files (Z.of_nat i) = Ret f.
Proof.
  intros Hindex Hlen Hi.
  destruct (indexFiles_inv _ _ Hindex) as (seen & [Hids _ _ _ _] & _).
  pose proof (Hids i f Hi) as Hid. pose proof (lookup_lt_Some _ _ _ Hi) as Hlt.
  assert (Strconv.Atoi (Strconv.Itoa (ID f)) = Some (Z.of_nat i)) as Hatoi.
  { rewrite Hid. apply Atoi_Itoa. unfold Strconv.minInt. lia. }
  split; [done|]. split.
  - intros m Hm. unfold toChild. cbn [child_ID]. by rewrite Hm.
  - unfold index_at. rewrite (proj2 (Z.ltb_ge _ _)) by lia. by rewrite Nat2Z.id, Hi.
Qed.

Lemma rendered_ids_resolve_witness :
  Strconv.Atoi (artist_ID (toArtist {| ID := 1; Name := "bar/bar.mp3"; Dir := false |}))
  = Some (Z.of_nat 1) /\
  (forall m : metadataFile,
     embedded m = {| ID := 1; Name := "bar/bar.mp3"; Dir := false |} ->
     Strconv.Atoi (child_ID (toChild m)) = Some (Z.of_nat 1)) /\
  index_at [ {| ID := 0; Name := "bar"; Dir := true |};
             {| ID := 1; Name := "bar/bar.mp3"; Dir := false |};
             {| ID := 2; Name := "foo.mp3"; Dir := false |} ] (Z.of_nat 1)
  = Ret {| ID := 1; Name := "bar/bar.mp3"; Dir := false |}.
Proof.
  apply (rendered_ids_resolve ["bar/bar.mp3"; "foo.mp3"]);
    [reflexivity|vm_compute; discriminate|reflexivity].
Defined.

(** X17.  [getMusicDirectory] answers that the directory is not found exactly
    when nothing passes the filter, which is so for an id past the end of
    the index and for the id of its last entry. *)
Theorem getMusicDirectory_not_found_iff (s : Server) (r : request) (id : Z)
  (paths : list string) (indexed : list indexedFile) :
  Strconv.Atoi (Get (Query r) "id") = Some id -> 0 <= id ->
  List (db s) = inl paths -> indexFiles paths = Ret indexed ->
  (getMusicDirectory s r = Ret NotFound <-> filterFiles indexed id = Ret []) /\
  (Z.of_nat (List.length indexed) <= id + 1 -> getMusicDirectory s r = Ret NotFound).
Proof.
  intros Hid Hpos Hlist Hindex.
  assert (exists filtered, filterFiles indexed id = Ret filtered) as [filtered Hfilter].
  { destruct (Z.le_gt_cases (Z.of_nat (List.length indexed)) id) as [Hge|Hlt].
    - exists []. by apply filterFiles_beyond.
    - destruct (lookup_lt_is_Some_2 indexed (Z.to_nat id)) as [first Hfirst]; [lia|].
      eexists. by apply filterFiles_within. }
  assert (getMusicDirectory s r = Ret NotFound <-> filtered = []) as Hiff.
  { unfold getMusicDirectory. rewrite (Atoi_nonempty _ _ Hid), Hid, Hlist, Hindex.
    unfold mbind, outcome_bind. rewrite Hfilter.
    destruct (tagFiles (db s) filtered) as [files|err] eqn:Htag.
    - pose proof (tagFiles_embedded _ _ _ Htag) as Hemb.
      destruct files as [|files0 files]; simpl in Hemb; subst filtered; [done|].
      split; discriminate.
    - split; [discriminate|]. intros ->. discriminate. }
  split.
  - rewrite Hiff, Hfilter. split; [by intros ->|by intros [= ->]].
  - intros Hend. apply Hiff.
    destruct (Z.le_gt_cases (Z.of_nat (List.length indexed)) id) as [Hge|Hlt].
    + rewrite (filterFiles_beyond _ _ Hge) in Hfilter. by injection Hfilter.
    + destruct (lookup_lt_is_Some_2 indexed (Z.to_nat id)) as [first Hfirst]; [lia|].
      rewrite (filterFiles_within _ _ _ Hpos Hfirst) in Hfilter.
      rewrite drop_ge in Hfilter by lia. by injection Hfilter.
Qed.

Lemma getMusicDirectory_not_found_iff_witness :
  let s := testServer "" ["foo/foo.mp3"] {[ "foo/foo.mp3" := ∅ ]} ∅ in
  let r := testRequest "/rest/getMusicDirectory.view" "1" in
  (getMusicDirectory s r = Ret NotFound
   <-> filterFiles [ {| ID := 0; Name := "foo"; Dir := true |};
                     {| ID := 1; Name := "foo/foo.mp3"; Dir := false |} ] 1 = Ret []) /\
  (Z.of_nat (List.length [ {| ID := 0; Name := "foo"; Dir := true |};
                           {| ID := 1; Name := "foo/foo.mp3"; Dir := false |} ]) <= 1 + 1 ->
   getMusicDirectory s r = Ret NotFound).
Proof.
  apply (getMusicDirectory_not_found_iff
           (testServer "" ["foo/foo.mp3"] {[ "foo/foo.mp3" := ∅ ]} ∅)
           (testRequest "/rest/getMusicDirectory.view" "1") 1 ["foo/foo.mp3"]);
    [vm_compute; reflexivity|lia|reflexivity|vm_compute; reflexivity].
Defined.

(** X18.  What [stream] serves lies at or below the configured music directory,
    when that directory is rooted and no path the database lists has a
    [".."] element: the handler itself does not check the path it
    joins. *)
Theorem stream_under_music_directory (s : Server) (r r0 : request)
  (paths : list string) (p : string) (modtime : Z) (content : string) :
  Filepath.isRooted (MusicDirectory_ (cfg s)) = true ->
  List (db s) = inl paths -> Forall noParent paths ->
  stream s r = Ret (ServeContent r0 p modtime content) ->
  under (Filepath.Clean (MusicDirectory_ (cfg s))) p.
Proof.
  intros Hroot Hlist Hpaths. unfold stream.
  destruct (String.eqb _ ""); [done|].
  destruct (Strconv.Atoi _) as [id|]; [|done].
  rewrite Hlist. unfold mbind, outcome_bind.
  destruct (indexFiles paths) as [files| |] eqn:Hindex; [|done..].
  destruct (_ <=? _); [done|].
  destruct (index_at files id) as [entry| |] eqn:Hentry; [|done..].
  destruct (Open (fs s) _) as [f|err]; [|done].
  destruct (Stat f) as [mt|err]; [|done].
  intros [= _ <- _ _]. apply Join_under; [done|].
  apply (indexFiles_noParent paths files entry Hindex Hpaths).
  unfold index_at in Hentry. destruct (id <? 0); [done|].
  destruct (files !! Z.to_nat id) as [x|] eqn:Hx; [|done].
  injection Hentry as ->. by eapply list_elem_of_lookup_2.
Qed.

Lemma stream_under_music_directory_witness :
  under (Filepath.Clean "/var/music/") "/var/music/foo/bar.ogg".
Proof.
  apply (stream_under_music_directory
           (testServer "/var/music/" ["foo.mp3"; "foo/./bar.ogg"] ∅
              {[ "/var/music/foo/bar.ogg" := "ogg" ]})
           (testRequest "/rest/stream.view" "2") (testRequest "/rest/stream.view" "2")
           ["foo.mp3"; "foo/./bar.ogg"] "/var/music/foo/bar.ogg" 0 "ogg");
    [reflexivity| reflexivity| |vm_compute; reflexivity].
  repeat constructor; discriminate.
Defined.




Lemma iter_Dir_relative (k : nat) (p : string) :
  relative p -> relative (Nat.iter k Filepath.Dir p).
Proof.
  intros Hp. induction k as [|k IH]; [done|]. simpl.
  by destruct (Dir_relative _ IH) as [->|[? _]].
Qed.

(** X20.  Every directory entry of an index the builder returns is an
    ancestor of one of the input paths; its name is relative and is
    neither ["."] nor empty, so that the empty string [Pop] returns on an
    empty stack never stands for a pushed directory. *)
Theorem indexFiles_directory_entries (paths : list string) (index : list indexedFile)
  (d : indexedFile) :
  indexFiles paths = Ret index -> d ∈ index -> Dir d = true ->
  Name d <> "" /\ Name d <> "." /\ relative (Name d) /\
  exists f, f ∈ paths /\ ancestor (Name d) f.
Proof.
  intros Hindex Hd Hdir.
  destruct (indexFiles_inv _ _ Hindex) as (seen & [_ Hseen _ _ _] & Hanc).
  assert (Name d ∈ seen) as Hin.
  { apply Hseen. unfold dirNames. apply list_elem_of_fmap. exists d. split; [done|].
    apply list_elem_of_In, List.filter_In. split; [by apply list_elem_of_In|done]. }
  apply Hanc in Hin as (f & Hf & Hdot & k & Hk & Hiter).
  pose proof (indexFiles_relative _ _ Hindex) as Hrel. rewrite Forall_forall in Hrel.
  split; [|split; [done|split]].
  - rewrite <- Hiter. destruct k as [|k]; [lia|]. simpl. apply Dir_nonempty.
  - rewrite <- Hiter. apply iter_Dir_relative. by apply Hrel.
  - exists f. split; [done|]. split; [done|]. by exists k.
Qed.

Lemma indexFiles_directory_entries_witness :
  "bar/baz" <> "" /\ "bar/baz" <> "." /\ relative "bar/baz" /\
  exists f, f ∈ ["bar/baz/qux/bar.mp3"; "foo.mp3"] /\ ancestor "bar/baz" f.
Proof.
  apply (indexFiles_directory_entries ["bar/baz/qux/bar.mp3"; "foo.mp3"]
           [ {| ID := 0; Name := "bar"; Dir := true |};
             {| ID := 1; Name := "bar/baz"; Dir := true |};
             {| ID := 2; Name := "bar/baz/qux"; Dir := true |};
             {| ID := 3; Name := "bar/baz/qux/bar.mp3"; Dir := false |};
             {| ID := 4; Name := "foo.mp3"; Dir := false |} ]
           {| ID := 1; Name := "bar/baz"; Dir := true |});
    [vm_compute; reflexivity| |reflexivity].
  right. by left.
Defined.
